(** * OpenClaw-Upgrade: task queue, LLM router and agent runner

    A shallow embedding of
      - [src/runner/TaskQueue.ts]   (the SQLite-backed task store),
      - [src/llm/LLMRouter.ts]      (multi-key, multi-provider failover),
      - [src/runner/AgentRunner.ts] (the autonomous execution loop),
      - the page observer of [scripts/autonomy-run-once.ts], which runs
        the loop once,
    and the properties of the specification and of the code that concern
    them.

    Conventions.
      - A SQLite table with a [PRIMARY KEY] column is a [gmap] from that
        column to the record of the other columns.
      - Timestamps are kept as the code keeps them: ISO-8601 text written
        by [Date.prototype.toISOString] and compared as text, which is
        what SQLite does on [TEXT] columns.
      - The outside world (clock, LLM providers, page observer, episodic
        memory) is an oracle record: the answer to each call is an input
        of the model. *)

From Stdlib Require Import ZArith String Ascii Bool Lia Sorted.
From stdpp Require Import base option list gmap strings fin_maps.

Local Open Scope Z_scope.

(** ** The JavaScript built-ins the sources call *)

Module JS.

(** A thrown value: the provider clients throw an [Error] carrying a
    [message] and, for HTTP failures, a numeric [status]. *)
Record Error := mkError {
  err_status : option Z;
  err_message : string
}.

(** The result of an awaited call. *)
Inductive Result (A : Type) : Type :=
| Resolved (a : A)
| Rejected (e : Error).
Arguments Resolved {A} a.
Arguments Rejected {A} e.

(** *** [Date.prototype.toISOString] *)

Definition digit (n : Z) : ascii := ascii_of_nat (48 + Z.to_nat (n mod 10)).

(** [width] decimal digits of [n], most significant first. *)
Fixpoint pad (width : nat) (n : Z) : string :=
  match width with
  | O => EmptyString
  | S w => String.append (pad w (n / 10)) (String (digit n) EmptyString)
  end.

(** Proleptic Gregorian date (year, month, day) of a day number counted
    from 1970-01-01. *)
Definition civil (days : Z) : Z * Z * Z :=
  let z := days + 719468 in
  let era := z / 146097 in
  let doe := z - era * 146097 in
  let yoe := (doe - doe / 1460 + doe / 36524 - doe / 146096) / 365 in
  let doy := doe - (365 * yoe + yoe / 4 - yoe / 100) in
  let mp := (5 * doy + 2) / 153 in
  let d := doy - (153 * mp + 2) / 5 + 1 in
  let m := if mp <? 10 then mp + 3 else mp - 9 in
  let y := yoe + era * 400 + (if m <=? 2 then 1 else 0) in
  (y, m, d).

Definition isoYear (y : Z) : string :=
  if (0 <=? y) && (y <=? 9999) then pad 4 y
  else String.append (if y <? 0 then "-"%string else "+"%string) (pad 6 (Z.abs y)).

(** [new Date(ms).toISOString()]: "YYYY-MM-DDTHH:mm:ss.sssZ" in UTC.
    (JavaScript raises a RangeError beyond +-8.64e15 ms, which no clock
    reading reaches.) *)
Definition toISOString (ms : Z) : string :=
  let '(y, m, d) := civil (ms / 86400000) in
  let r := ms mod 86400000 in
  String.concat EmptyString
    [ isoYear y; "-"; pad 2 m; "-"; pad 2 d; "T";
      pad 2 (r / 3600000); ":"; pad 2 (r / 60000 mod 60); ":";
      pad 2 (r / 1000 mod 60); "."; pad 3 (r mod 1000); "Z" ]%string.

(** *** Text *)

(** [String.prototype.toLowerCase] on ASCII text (the error messages of
    the provider clients are ASCII; other bytes are left as they are). *)
Definition lowerAscii (c : ascii) : ascii :=
  let n := nat_of_ascii c in
  if (65 <=? n)%nat && (n <=? 90)%nat then ascii_of_nat (n + 32) else c.

Fixpoint toLowerCase (s : string) : string :=
  match s with
  | EmptyString => EmptyString
  | String c r => String (lowerAscii c) (toLowerCase r)
  end.

(** [hay.includes(needle)] *)
Fixpoint includes (hay needle : string) : bool :=
  String.prefix needle hay ||
  match hay with
  | EmptyString => false
  | String _ r => includes r needle
  end.

(** White space, restricted to ASCII: space, \t, \n, \v, \f, \r (the
    answers of the providers that the runner trims are taken as ASCII). *)
Definition isSpace (c : ascii) : bool :=
  let n := nat_of_ascii c in
  (n =? 32)%nat || ((9 <=? n)%nat && (n <=? 13)%nat).

Fixpoint trimStart (s : string) : string :=
  match s with
  | EmptyString => EmptyString
  | String c r => if isSpace c then trimStart r else s
  end.

Fixpoint trimEnd (s : string) : string :=
  match s with
  | EmptyString => EmptyString
  | String c r =>
      match trimEnd r with
      | EmptyString => if isSpace c then EmptyString else String c EmptyString
      | r' => String c r'
      end
  end.

(** [s.trim()] *)
Definition trim (s : string) : string := trimEnd (trimStart s).

(** [s.split(",")] *)
Fixpoint splitComma (s : string) : list string :=
  match s with
  | EmptyString => [EmptyString]
  | String c r =>
      if Ascii.eqb c ","%char then EmptyString :: splitComma r
      else match splitComma r with
           | [] => [String c EmptyString]
           | h :: t => String c h :: t
           end
  end.

(** [xs.join(sep)] *)
Definition join (sep : string) (xs : list string) : string :=
  String.concat sep xs.

(** A string is truthy when it is not empty. *)
Definition truthy (s : string) : bool :=
  match s with EmptyString => false | _ => true end.

(** [x || undefined] on a nullable TEXT column. *)
Definition orUndefined (x : option string) : option string :=
  match x with
  | Some s => if truthy s then Some s else None
  | None => None
  end.

(** [String(n)] for a natural number. *)
Fixpoint natDigits (fuel : nat) (n : nat) (acc : string) : string :=
  match fuel with
  | O => acc
  | S f =>
      let acc' := String (ascii_of_nat (48 + n mod 10)) acc in
      if (n <? 10)%nat then acc' else natDigits f (n / 10) acc'
  end.

Definition natToString (n : nat) : string := natDigits (S n) n EmptyString.

(** *** The regular expression [/\[[\s\S]*\]/]

    The leftmost match starts at the first '[' and, the star being
    greedy, runs through the last ']' of the text. *)

(** The text from its first '[' on. *)
Fixpoint fromFirstOpen (s : string) : option string :=
  match s with
  | EmptyString => None
  | String c r => if Ascii.eqb c "["%char then Some s else fromFirstOpen r
  end.

(** The longest prefix that ends with ']'. *)
Fixpoint throughLastClose (s : string) : option string :=
  match s with
  | EmptyString => None
  | String c r =>
      match throughLastClose r with
      | Some p => Some (String c p)
      | None => if Ascii.eqb c "]"%char then Some (String c EmptyString) else None
      end
  end.

(** [text.match(/\[[\s\S]*\]/)]: [match[0]], or [None] for [null]. *)
Definition matchBracketed (text : string) : option string :=
  match fromFirstOpen text with
  | Some (String c r) =>
      match throughLastClose r with
      | Some p => Some (String c p)
      | None => None
      end
  | _ => None
  end.

End JS.

#[global] Arguments JS.toISOString : simpl never.
#[global] Arguments JS.trim : simpl never.
#[global] Arguments JS.natToString : simpl never.

(** ** [src/runner/types.ts] *)

Module Types.

Inductive TaskStatus := queued | running | done | failed | paused.

#[global] Instance TaskStatus_eq_dec : EqDecision TaskStatus.
Proof. solve_decision. Defined.

Inductive RecurrenceRule :=
| once
| every (intervalMs : Z)
| cron (expr : string) (tz : option string).

Record TaskPayload := mkPayload {
  goal : string;
  url : option string;
  params : option string;          (* free-form JSON, kept as text *)
  constraints : option (list string)
}.

Record Task := mkTask {
  id : string;
  agentId : string;
  status : TaskStatus;
  priority : Z;
  payload : TaskPayload;
  recurrence : option RecurrenceRule;
  nextRunAt : option string;
  createdAt : string;
  updatedAt : string;
  statusReason : option string
}.

Record RunStep := mkRunStep {
  index : nat;
  description : string;
  result : string;
  timestampMs : Z
}.

Record TaskRun := mkTaskRun {
  run_id : string;
  taskId : string;
  run_agentId : string;
  startedAt : string;
  finishedAt : option string;
  steps : list RunStep;
  tokensEstimate : option Z;
  error : option string
}.

Record WorkingMemory := mkWorkingMemory {
  wm_goal : option string;
  currentPlan : option (list (option string));
  currentStepIndex : option nat;
  lastPageStateHash : option string;
  wm_context : option string       (* free-form JSON, kept as text *)
}.

(** The JavaScript object [{}]. *)
Definition emptyMemory : WorkingMemory := mkWorkingMemory None None None None None.

Record AgentState := mkAgentState {
  as_agentId : string;
  currentTaskId : option string;
  lastHeartbeatAt : option string;
  workingMemory : option WorkingMemory
}.

End Types.

(** ** [src/runner/TaskQueue.ts] *)

Module TaskQueue.
Import Types.

(** A row of table [tasks], without its primary key [id]. The JSON
    columns hold the value that [JSON.stringify] wrote. *)
Record TaskRow := mkRow {
  agent_id : string;
  row_status : TaskStatus;
  row_priority : Z;
  row_payload : TaskPayload;
  row_recurrence : option RecurrenceRule;
  next_run_at : option string;
  status_reason : option string;
  created_at : string;
  updated_at : string
}.

(** A row of table [agent_state], without its primary key [agent_id]. *)
Record AgentStateRow := mkStateRow {
  current_task_id : option string;
  last_heartbeat_at : option string;
  working_memory : option WorkingMemory
}.

(** The database: [tasks], [task_runs] and [agent_state], each keyed by
    its primary key. *)
Record DB := mkDB {
  tasks : gmap string TaskRow;
  task_runs : gmap string TaskRun;
  agent_state : gmap string AgentStateRow
}.

Definition setTasks (f : gmap string TaskRow -> gmap string TaskRow) (db : DB) : DB :=
  mkDB (f (tasks db)) (task_runs db) (agent_state db).

(** If a task has been "running" for more than this, it's considered stale *)
Definition STALE_RUNNING_MS : Z := 5 * 60 * 1000.

Definition nextRunFor (rule : RecurrenceRule) (nowMs : Z) : option string :=
  match rule with
  | once => None
  | every intervalMs => Some (JS.toISOString (nowMs + intervalMs))
  | cron _ _ => None
  end.

(** [UPDATE tasks SET status = 'queued', status_reason = 'reset after
    stale run', updated_at = now WHERE status = 'running' AND
    updated_at < staleThreshold] on one row. *)
Definition resetStale (staleThreshold now : string) (r : TaskRow) : TaskRow :=
  if bool_decide (row_status r = running) && String.ltb (updated_at r) staleThreshold
  then mkRow (agent_id r) queued (row_priority r) (row_payload r) (row_recurrence r)
             (next_run_at r) (Some "reset after stale run"%string) (created_at r) now
  else r.

(** The part of [initialize] that runs on an existing database: the
    reset of stale "running" tasks. [nowMs] is the clock when the
    threshold is computed, [nowMs'] when the statement runs. *)
Definition initialize (nowMs nowMs' : Z) (db : DB) : DB :=
  let staleThreshold := JS.toISOString (nowMs - STALE_RUNNING_MS) in
  setTasks (fmap (resetStale staleThreshold (JS.toISOString nowMs'))) db.

Definition rowToTask (id : string) (row : TaskRow) : Task :=
  mkTask id (agent_id row) (row_status row) (row_priority row) (row_payload row)
         (row_recurrence row) (JS.orUndefined (next_run_at row))
         (created_at row) (updated_at row) (JS.orUndefined (status_reason row)).

(** [enqueue]: [uuid] is the value of [randomUUID()]. The INSERT fails
    on a primary-key collision, which is a thrown error ([None]). *)
Definition enqueue (uuid : string) (nowMs : Z) (agentId : string) (payload : TaskPayload)
    (priority : option Z) (recurrence : option RecurrenceRule) (nextRunAt : option string)
    (db : DB) : option (Task * DB) :=
  let now := JS.toISOString nowMs in
  let task := mkTask uuid agentId queued (default 3 priority) payload recurrence
                     nextRunAt now now None in
  match tasks db !! uuid with
  | Some _ => None
  | None =>
      Some (task,
            setTasks (insert uuid (mkRow agentId queued (default 3 priority) payload
                                         recurrence nextRunAt None now now)) db)
  end.

(** [WHERE agent_id = ? AND status = 'queued' AND (next_run_at IS NULL
    OR next_run_at <= ?)] *)
Definition eligible (agentId now : string) (r : TaskRow) : bool :=
  String.eqb (agent_id r) agentId &&
  bool_decide (row_status r = queued) &&
  match next_run_at r with
  | None => true
  | Some t => String.leb t now
  end.

(** [ORDER BY priority ASC, created_at ASC]: [a] sorts no later than [b]. *)
Definition orderLe (a b : TaskRow) : bool :=
  (row_priority a <? row_priority b) ||
  ((row_priority a =? row_priority b) && String.leb (created_at a) (created_at b)).

(** [ORDER BY ... LIMIT 1]: the first row of the sorted result. Among
    rows that tie on both sort keys SQLite is free to return any; the
    embedding keeps the earliest in the scan. *)
Fixpoint firstBy (rows : list (string * TaskRow)) : option (string * TaskRow) :=
  match rows with
  | [] => None
  | x :: rest =>
      match firstBy rest with
      | None => Some x
      | Some y => if orderLe (snd x) (snd y) then Some x else Some y
      end
  end.

Definition selectNext (agentId now : string) (db : DB) : option (string * TaskRow) :=
  firstBy (filter (fun kr => eligible agentId now (snd kr) = true) (map_to_list (tasks db))).

(** [UPDATE tasks SET status = 'running', updated_at = ? WHERE id = ?] *)
Definition markRunning (now : string) (r : TaskRow) : TaskRow :=
  mkRow (agent_id r) running (row_priority r) (row_payload r) (row_recurrence r)
        (next_run_at r) (status_reason r) (created_at r) now.

(** Claim the next queued task for an agent *)
Definition claimNext (nowMs : Z) (agentId : string) (db : DB) : option Task * DB :=
  let now := JS.toISOString nowMs in
  match selectNext agentId now db with
  | None => (None, db)
  | Some (id, row) =>
      (Some (rowToTask id (mkRow (agent_id row) running (row_priority row) (row_payload row)
                                 (row_recurrence row) (next_run_at row) (status_reason row)
                                 (created_at row) (updated_at row))),
       setTasks (alter (markRunning now) id) db)
  end.

(** [UPDATE tasks SET status = ?, status_reason = ?, updated_at = ?
    WHERE id = ?], with [reason ?? null]. *)
Definition updateStatus (nowMs : Z) (taskId : string) (status : TaskStatus)
    (reason : option string) (db : DB) : DB :=
  let now := JS.toISOString nowMs in
  setTasks (alter (fun r => mkRow (agent_id r) status (row_priority r) (row_payload r)
                                  (row_recurrence r) (next_run_at r) reason
                                  (created_at r) now) taskId) db.

(** Re-queue a recurring task with the next run timestamp *)
Definition requeueRecurring (nowMs nowMs' : Z) (task : Task) (db : DB) : DB :=
  match recurrence task with
  | None | Some once => db
  | Some rule =>
      let nextRunAt := nextRunFor rule nowMs in
      let now := JS.toISOString nowMs' in
      setTasks (alter (fun r => mkRow (agent_id r) queued (row_priority r) (row_payload r)
                                      (row_recurrence r) nextRunAt None
                                      (created_at r) now) (id task)) db
  end.

(** [INSERT OR REPLACE INTO task_runs ...] *)
Definition saveTaskRun (run : TaskRun) (db : DB) : DB :=
  mkDB (tasks db) (<[run_id run := run]> (task_runs db)) (agent_state db).

Definition getAgentState (agentId : string) (db : DB) : AgentState :=
  match agent_state db !! agentId with
  | None => mkAgentState agentId None None None
  | Some row =>
      mkAgentState agentId (JS.orUndefined (current_task_id row))
                   (JS.orUndefined (last_heartbeat_at row)) (working_memory row)
  end.

(** [INSERT OR REPLACE INTO agent_state ...] *)
Definition saveAgentState (state : AgentState) (db : DB) : DB :=
  mkDB (tasks db) (task_runs db)
       (<[as_agentId state := mkStateRow (currentTaskId state) (lastHeartbeatAt state)
                                         (workingMemory state)]> (agent_state db)).

(** [listTasks]: the rows of an agent, optionally of one status, in
    [ORDER BY priority ASC, created_at ASC]. *)
Fixpoint insertBy (x : string * TaskRow) (sorted : list (string * TaskRow)) :=
  match sorted with
  | [] => [x]
  | y :: rest => if orderLe (snd x) (snd y) then x :: sorted else y :: insertBy x rest
  end.

Definition listTasks (agentId : string) (status : option TaskStatus) (db : DB) : list Task :=
  let keep (kr : string * TaskRow) :=
    String.eqb (agent_id (snd kr)) agentId &&
    match status with
    | Some s => bool_decide (row_status (snd kr) = s)
    | None => true
    end in
  map (fun kr => rowToTask (fst kr) (snd kr))
      (foldr insertBy [] (filter (fun kr => keep kr = true) (map_to_list (tasks db)))).

End TaskQueue.

(** ** [src/llm/types.ts] and [src/llm/LLMRouter.ts] *)

Module LLMRouter.

Inductive LLMCapability := reasoning | status_ping | embeddings.

#[global] Instance LLMCapability_eq_dec : EqDecision LLMCapability.
Proof. solve_decision. Defined.

Record LLMResponse := mkResponse {
  text : string;
  resp_provider : string;
  model : string
}.

(** Per-key health state tracked in memory. [disabled] is [false] while
    the optional field is absent. *)
Record KeyHealth := mkKeyHealth {
  provider : string;
  key : string;
  cooldownUntil : option Z;
  disabled : bool;
  lastError : option string
}.

Definition RATE_LIMIT_COOLDOWN_MS : Z := 60000.
Definition MAX_RETRIES : nat := 3.

Definition parseKeys (env : option string) : list string :=
  match env with
  | None => []
  | Some e =>
      if JS.truthy e
      then filter (fun k => JS.truthy k = true) (map JS.trim (JS.splitComma e))
      else []
  end.

Definition isRateLimit (err : JS.Error) : bool :=
  bool_decide (JS.err_status err = Some 429).

Definition isInsufficientCredits (err : JS.Error) : bool :=
  if bool_decide (JS.err_status err = Some 402) || bool_decide (JS.err_status err = Some 403)
  then true
  else
    let msg := JS.toLowerCase (JS.err_message err) in
    JS.includes msg "insufficient" || JS.includes msg "credits" || JS.includes msg "quota".

(** The router object: the key-health array, mutated in place, and the
    provider priority list. The client map is fixed by the constructor. *)
Record Router := mkRouter {
  keyHealth : list KeyHealth;
  providerOrder : list string
}.

(** [this.clients.get(provider)] is defined. *)
Definition hasClient (p : string) : bool :=
  String.eqb p "openai" || String.eqb p "anthropic" || String.eqb p "deepseek".

(** [client.embed] is defined: only the OpenAI client implements it. *)
Definition hasEmbed (p : string) : bool := String.eqb p "openai".

(** The constructor, from the four environment variables. *)
Definition new (OPENAI_API_KEYS ANTHROPIC_API_KEYS DEEPSEEK_API_KEYS
                OPENCLAW_LLM_PRIORITY : option string) : Router :=
  let fresh p k := mkKeyHealth p k None false None in
  mkRouter
    (map (fresh "openai"%string) (parseKeys OPENAI_API_KEYS) ++
     map (fresh "anthropic"%string) (parseKeys ANTHROPIC_API_KEYS) ++
     map (fresh "deepseek"%string) (parseKeys DEEPSEEK_API_KEYS))
    (match OPENCLAW_LLM_PRIORITY with
     | Some e => if JS.truthy e then map JS.trim (JS.splitComma e)
                 else ["openai"; "anthropic"; "deepseek"]%string
     | None => ["openai"; "anthropic"; "deepseek"]%string
     end).

(** [!k.cooldownUntil || k.cooldownUntil <= now] *)
Definition cooledDown (now : Z) (k : KeyHealth) : bool :=
  match cooldownUntil k with
  | None => true
  | Some t => (t =? 0) || (t <=? now)
  end.

Definition healthy (now : Z) (p : string) (k : KeyHealth) : bool :=
  String.eqb (provider k) p && negb (disabled k) && cooledDown now k.

(** Return healthy keys for a given provider, in order *)
Definition healthyKeysFor (now : Z) (kh : list KeyHealth) (p : string) : list string :=
  map key (filter (fun k => healthy now p k = true) kh).

Definition isEntry (p k : string) (e : KeyHealth) : bool :=
  String.eqb (provider e) p && String.eqb (key e) k.

(** [const entry = keyHealth.find(pred); if (entry) mutate(entry)] *)
Fixpoint updateFound (pred : KeyHealth -> bool) (mutate : KeyHealth -> KeyHealth)
    (kh : list KeyHealth) : list KeyHealth :=
  match kh with
  | [] => []
  | e :: rest => if pred e then mutate e :: rest else e :: updateFound pred mutate rest
  end.

Definition markRateLimit (now : Z) (p k : string) (kh : list KeyHealth) : list KeyHealth :=
  updateFound (isEntry p k)
    (fun e => mkKeyHealth (provider e) (key e) (Some (now + RATE_LIMIT_COOLDOWN_MS))
                          (disabled e) (Some "rate-limited"%string)) kh.

Definition markDisabled (p k reason : string) (kh : list KeyHealth) : list KeyHealth :=
  updateFound (isEntry p k)
    (fun e => mkKeyHealth (provider e) (key e) (cooldownUntil e) true (Some reason)) kh.

(** What one call of [complete] or [embed] sees of the world: the clock
    at its successive readings and the outcome of each attempt, by
    attempt number, provider and key. *)
Record Net (A : Type) := mkNet {
  dateNow : nat -> Z;
  call : nat -> string -> string -> JS.Result A
}.
Arguments mkNet {A} dateNow call.
Arguments dateNow {A} n.
Arguments call {A} n.

(** The local variables of a dispatch and the registry it mutates. *)
Record Dispatch := mkDispatch {
  health : list KeyHealth;
  attempts : nat;
  lastErr : option JS.Error;
  reads : nat                      (* clock readings so far *)
}.

(** The body of the [catch] block of one attempt. *)
Definition onFailure {A} (net : Net A) (p k : string) (err : JS.Error) (d : Dispatch)
    : Dispatch :=
  if isInsufficientCredits err
  then mkDispatch (markDisabled p k (JS.err_message err) (health d))
                  (attempts d) (Some err) (reads d)
  else if isRateLimit err
  then mkDispatch (markRateLimit (dateNow net (reads d)) p k (health d))
                  (attempts d) (Some err) (S (reads d))
  else mkDispatch (health d) (attempts d) (Some err) (reads d).

(** [for (const key of keys) { ... }]: a response ends the dispatch,
    otherwise the loop runs on. *)
Fixpoint tryKeys {A} (net : Net A) (p : string) (keys : list string) (d : Dispatch)
    : Dispatch * option A :=
  match keys with
  | [] => (d, None)
  | k :: rest =>
      if (MAX_RETRIES <=? attempts d)%nat then (d, None)
      else
        let d1 := mkDispatch (health d) (S (attempts d)) (lastErr d) (reads d) in
        match call net (attempts d) p k with
        | JS.Resolved r => (d1, Some r)
        | JS.Rejected err => tryKeys net p rest (onFailure net p k err d1)
        end
  end.

(** [for (const provider of this.providerOrder) { ... }]; [skip] is the
    test that makes the loop [continue] before it looks at the keys. *)
Fixpoint tryProviders {A} (net : Net A) (skip : string -> bool) (providers : list string)
    (d : Dispatch) : Dispatch * option A :=
  match providers with
  | [] => (d, None)
  | p :: rest =>
      if (MAX_RETRIES <=? attempts d)%nat then (d, None)
      else if skip p then tryProviders net skip rest d
      else
        let keys := healthyKeysFor (dateNow net (reads d)) (health d) p in
        let d1 := mkDispatch (health d) (attempts d) (lastErr d) (S (reads d)) in
        match tryKeys net p keys d1 with
        | (d2, Some r) => (d2, Some r)
        | (d2, None) => tryProviders net skip rest d2
        end
  end.

(** [String((lastError as Error)?.message ?? lastError)] *)
Definition lastErrorText (e : option JS.Error) : string :=
  match e with
  | Some err => JS.err_message err
  | None => "undefined"
  end.

Definition completeRun (net : Net LLMResponse) (capability : LLMCapability) (r : Router)
    : Dispatch * option LLMResponse :=
  tryProviders net
    (fun p => bool_decide (capability = embeddings) || negb (hasClient p))
    (providerOrder r) (mkDispatch (keyHealth r) 0 None 0).

(** Complete a chat request with automatic provider and key failover.
    The router comes back with its registry as the call left it. *)
Definition complete (net : Net LLMResponse) (capability : LLMCapability) (r : Router)
    : JS.Result LLMResponse * Router :=
  match completeRun net capability r with
  | (d, Some resp) => (JS.Resolved resp, mkRouter (health d) (providerOrder r))
  | (d, None) =>
      (JS.Rejected
         (JS.mkError None
            (String.concat EmptyString
               [ "LLMRouter: all providers/keys exhausted after ";
                 JS.natToString (attempts d); " attempts. Last error: ";
                 lastErrorText (lastErr d) ]%string)),
       mkRouter (health d) (providerOrder r))
  end.

Definition embedRun {E} (net : Net E) (r : Router) : Dispatch * option E :=
  tryProviders net (fun p => negb (hasClient p && hasEmbed p))
    (providerOrder r) (mkDispatch (keyHealth r) 0 None 0).

(** Embed texts with automatic key failover. *)
Definition embed {E} (net : Net E) (r : Router) : JS.Result E * Router :=
  match embedRun net r with
  | (d, Some resp) => (JS.Resolved resp, mkRouter (health d) (providerOrder r))
  | (d, None) =>
      (JS.Rejected
         (JS.mkError None
            (String.append "LLMRouter: embedding failed. Last error: "
                           (lastErrorText (lastErr d)))),
       mkRouter (health d) (providerOrder r))
  end.

(** Convenience: build request for cheap status ping model *)
Definition statusPing (net : Net LLMResponse) (r : Router) : JS.Result string * Router :=
  match complete net status_ping r with
  | (JS.Resolved resp, r') => (JS.Resolved (String.substring 0 120 (JS.trim (text resp))), r')
  | (JS.Rejected e, r') => (JS.Rejected e, r')
  end.

(** *** Notions used in the statements about the router *)

(** The entry that [keyHealth.find(...)] returns. *)
Definition findEntry (p k : string) (kh : list KeyHealth) : option KeyHealth :=
  List.find (isEntry p k) kh.

(** A mutation that leaves the entry under its provider and key. *)
Definition keepsName (mutate : KeyHealth -> KeyHealth) : Prop :=
  forall e, provider (mutate e) = provider e /\ key (mutate e) = key e.

(** The words whose presence in the lower-cased message makes an error a
    credit error. *)
Definition creditWords (err : JS.Error) : bool :=
  let msg := JS.toLowerCase (JS.err_message err) in
  JS.includes msg "insufficient" || JS.includes msg "credits" || JS.includes msg "quota".

(** The name under which the registry knows an entry. *)
Definition nameOf (e : KeyHealth) : string * string := (provider e, key e).

(** [e'] is the entry [e] after some calls: same provider and key, and
    disabled if [e] was. *)
Definition noWorse (e e' : KeyHealth) : Prop :=
  provider e' = provider e /\ key e' = key e /\ (disabled e = true -> disabled e' = true).

(** Every attempt is answered with status 429 and a message that holds
    none of the credit words. *)
Definition allRateLimited {A} (net : Net A) : Prop :=
  forall n p k, exists err,
    call net n p k = JS.Rejected err /\
    JS.err_status err = Some 429 /\ creditWords err = false.

(** The entry of a credential is in cooldown: 60 s from some reading of
    the clock, marked "rate-limited". *)
Definition cooled {A} (net : Net A) (p k : string) (kh : list KeyHealth) : Prop :=
  exists e i,
    findEntry p k kh = Some e /\
    cooldownUntil e = Some (dateNow net i + RATE_LIMIT_COOLDOWN_MS) /\
    lastError e = Some "rate-limited"%string.

(** The credentials a dispatch would try, in order, if nothing stopped
    it: for each provider that is not skipped, its keys that are not
    disabled, as a registry without cooldowns lists them. *)
Definition candidates (skip : string -> bool) (kh : list KeyHealth) (providers : list string)
    : list (string * string) :=
  flat_map (fun p => if skip p then [] else map (pair p) (healthyKeysFor 0 kh p)) providers.

(** The calls that mutate the registry of a router. *)
Inductive dispatchStep : Router -> Router -> Prop :=
| step_complete (net : Net LLMResponse) (capability : LLMCapability) (r : Router) :
    dispatchStep r (snd (complete net capability r))
| step_embed (E : Type) (net : Net E) (r : Router) :
    dispatchStep r (snd (embed net r))
| step_statusPing (net : Net LLMResponse) (r : Router) :
    dispatchStep r (snd (statusPing net r)).

End LLMRouter.

(** ** [healthSummary] of [src/llm/LLMRouter.ts]

    The [Map] that the function fills keeps its keys in the order of
    their first insertion; it is a list of pairs with that order. *)

Module HealthSummary.

Record Counts := mkCounts {
  healthy : nat;
  total : nat
}.

(** A row of the summary: [{ provider, healthy, total }]. *)
Record ProviderHealth := mkProviderHealth {
  provider : string;
  row_healthy : nat;
  row_total : nat
}.

(** [byProvider.get(p)] *)
Definition mapGet (p : string) (byProvider : list (string * Counts)) : option Counts :=
  snd <$> List.find (fun kv => String.eqb (fst kv) p) byProvider.

(** [byProvider.set(p, c)] *)
Fixpoint mapSet (p : string) (c : Counts) (byProvider : list (string * Counts))
    : list (string * Counts) :=
  match byProvider with
  | [] => [(p, c)]
  | kv :: rest =>
      if String.eqb (fst kv) p then (fst kv, c) :: rest else kv :: mapSet p c rest
  end.

(** The body of the loop over the registry. *)
Definition countKey (now : Z) (byProvider : list (string * Counts)) (k : LLMRouter.KeyHealth)
    : list (string * Counts) :=
  let entry := default (mkCounts 0 0) (mapGet (LLMRouter.provider k) byProvider) in
  let entry1 := mkCounts (healthy entry) (S (total entry)) in
  let entry2 :=
    if negb (LLMRouter.disabled k) && LLMRouter.cooledDown now k
    then mkCounts (S (healthy entry1)) (total entry1)
    else entry1 in
  mapSet (LLMRouter.provider k) entry2 byProvider.

(** Returns a summary of key health for diagnostics (no keys exposed). *)
Definition healthSummary (now : Z) (r : LLMRouter.Router) : list ProviderHealth :=
  map (fun kv => mkProviderHealth (fst kv) (healthy (snd kv)) (total (snd kv)))
      (fold_left (countKey now) (LLMRouter.keyHealth r) []).

End HealthSummary.

(** ** [src/page/types.ts], as far as the runner reads it *)

Module Page.

Inductive AlertType := cookie_banner | captcha | twoFA | modal | notification.

#[global] Instance AlertType_eq_dec : EqDecision AlertType.
Proof. solve_decision. Defined.

(** The string value of an alert type; [twoFA] is the literal "2fa". *)
Definition alertTypeText (t : AlertType) : string :=
  match t with
  | cookie_banner => "cookie_banner"
  | captcha => "captcha"
  | twoFA => "2fa"
  | modal => "modal"
  | notification => "notification"
  end.

Record PageAlert := mkAlert {
  alert_type : AlertType;
  alert_text : string
}.

(** Of an element the runner reads the role and the text, for the prompt
    of the step. *)
Record PageElement := mkElement {
  role : string;
  el_text : string
}.

Record PageState := mkPageState {
  ps_url : string;
  title : string;
  page_type : string;
  elements : list PageElement;
  alerts : list PageAlert;
  hash : string
}.

End Page.

(** ** [src/runner/AgentRunner.ts]

    [executeTask] awaits four collaborators: the LLM router, the page
    observer, the episodic memory and the activity feed. Their answers
    are fields of the oracle [Env]. [maybePostStatus] and [postStatus]
    are left out of [executeTask] and embedded on their own, in
    [StatusUpdates]: they catch every error of their own and write to
    the activity feed only, never to the task store. *)

Module AgentRunner.
Import Types.

Definition POLL_INTERVAL_MS : Z := 3000.
Definition MAX_STEPS_PER_RUN : nat := 20.
Definition MAX_CONSECUTIVE_FAILURES : nat := 3.

Record Env := mkEnv {
  dateNow : nat -> Z;                           (* the clock, by reading *)
  randomUUID : string;
  runningAtTick : bool;                         (* [this.running] in [tick] *)
  runningAtStep : nat -> bool;                  (* [this.running] at the top of a step *)
  getPageState : option (nat -> JS.Result Page.PageState);
                                                (* [deps.getPageState], by step *)
  episodicSearch : JS.Result (list string);     (* summaries of the memories found *)
  episodicStore : JS.Result unit;
  planCompletion : JS.Result string;            (* [planResp.text] *)
  stepCompletion : nat -> JS.Result string;     (* [stepResp.text], by step *)
  JSON_parse : string -> option (list (option string))
    (* [JSON.parse] of a text that starts with '[': [None] when it throws,
       else the array; [null] elements are [None], and the unchecked cast
       to [string[]] is followed for the others *)
}.

(** The mutable world of a run: the database and the number of clock
    readings taken. *)
Record World := mkWorld {
  db : TaskQueue.DB;
  reads : nat
}.

(** An async function either returns or throws, and in both cases leaves
    the world as it made it. *)
Inductive Outcome (A : Type) : Type :=
| Returned (a : A) (w : World)
| Threw (e : JS.Error) (w : World).
Arguments Returned {A} a w.
Arguments Threw {A} e w.

Definition M (A : Type) : Type := World -> Outcome A.

Definition ret {A} (a : A) : M A := fun w => Returned a w.

Definition bind {A B} (m : M A) (k : A -> M B) : M B :=
  fun w =>
    match m w with
    | Returned a w' => k a w'
    | Threw e w' => Threw e w'
    end.

Declare Scope runner_scope.
Delimit Scope runner_scope with runner.
Notation "x <- m ;; k" := (bind m (fun x => k))
  (at level 62, m at next level, right associativity) : runner_scope.
Notation "m ;;; k" := (bind m (fun _ => k))
  (at level 62, right associativity) : runner_scope.
Local Open Scope runner_scope.

(** [await promise] *)
Definition await {A} (r : JS.Result A) : M A :=
  fun w =>
    match r with
    | JS.Resolved a => Returned a w
    | JS.Rejected e => Threw e w
    end.

(** [Date.now()] *)
Definition now (env : Env) : M Z :=
  fun w => Returned (dateNow env (reads w)) (mkWorld (db w) (S (reads w))).

(** A synchronous call into the task queue that writes. *)
Definition write (f : TaskQueue.DB -> TaskQueue.DB) : M unit :=
  fun w => Returned tt (mkWorld (f (db w)) (reads w)).

(** A synchronous call into the task queue that reads. *)
Definition read {A} (f : TaskQueue.DB -> A) : M A :=
  fun w => Returned (f (db w)) w.

(** [new Date().toISOString()] *)
Definition nowISO (env : Env) : M string :=
  t <- now env ;; ret (JS.toISOString t).

(** The variables the step loop assigns. *)
Record Loop := mkLoop {
  loop_steps : list RunStep;         (* [run.steps] *)
  memory : WorkingMemory;
  consecutiveFailures : nat;
  taskFailed : bool;
  pauseReason : option string
}.

(** How an iteration of the step loop ends. *)
Inductive Ctl := Break (l : Loop) | Continue (l : Loop).

Definition isBlocking (a : Page.PageAlert) : bool :=
  bool_decide (Page.alert_type a = Page.captcha) || bool_decide (Page.alert_type a = Page.twoFA).

(** The inner [try] of a step: the page observation. [inl reason] is the
    [break] on a blocking alert, [inr memory] the way on. *)
Definition observe (env : Env) (task : Task) (stepIdx : nat) (mem : WorkingMemory)
    : string + WorkingMemory :=
  match url (payload task), getPageState env with
  | Some u, Some get =>
      if JS.truthy u then
        match get stepIdx with
        | JS.Resolved ps =>
            let blockingAlerts := filter (fun a => isBlocking a = true) (Page.alerts ps) in
            if (0 <? length blockingAlerts)%nat
            then inl (String.append "Blocked by "
                        (JS.join ", " (map (fun a => Page.alertTypeText (Page.alert_type a))
                                           blockingAlerts)))
            else inr (mkWorkingMemory (wm_goal mem) (currentPlan mem) (currentStepIndex mem)
                                      (Some (Page.hash ps)) (wm_context mem))
        | JS.Rejected _ => inr mem
        end
      else inr mem
  | _, _ => inr mem
  end.

Definition setStepIndex (stepIdx : nat) (mem : WorkingMemory) : WorkingMemory :=
  mkWorkingMemory (wm_goal mem) (currentPlan mem) (Some stepIdx)
                  (lastPageStateHash mem) (wm_context mem).

(** The part of an iteration after the outer [try]/[catch]: record the
    step, save the agent state, and test the loop's last [break]. *)
Definition recordStep (env : Env) (agentId : string) (task : Task) (stepIdx : nat)
    (stepDesc stepResult : string) (stepOk : bool) (l : Loop) : M Ctl :=
  t <- now env ;;
  let l' := mkLoop (loop_steps l ++ [mkRunStep stepIdx stepDesc stepResult t])
                   (memory l) (consecutiveFailures l) (taskFailed l) (pauseReason l) in
  hb <- nowISO env ;;
  write (TaskQueue.saveAgentState
           (mkAgentState agentId (Some (id task)) (Some hb) (Some (memory l')))) ;;;
  if negb stepOk && (MAX_CONSECUTIVE_FAILURES <=? consecutiveFailures l')%nat
  then ret (Break l')
  else ret (Continue l').

(** One iteration of the [for] loop, after its [this.running] test. *)
Definition stepBody (env : Env) (agentId : string) (task : Task) (stepIdx : nat)
    (item : option string) (l : Loop) : M Ctl :=
  let stepDesc := default "Execute goal"%string item in
  let mem := setStepIndex stepIdx (memory l) in
  match observe env task stepIdx mem with
  | inl reason =>
      ret (Break (mkLoop (loop_steps l) mem (consecutiveFailures l) (taskFailed l)
                         (Some reason)))
  | inr mem' =>
      match stepCompletion env stepIdx with
      | JS.Resolved text =>
          recordStep env agentId task stepIdx stepDesc (JS.trim text) true
            (mkLoop (loop_steps l) mem' 0 (taskFailed l) (pauseReason l))
      | JS.Rejected err =>
          let stepResult := String.append "Error: " (JS.err_message err) in
          let failures := S (consecutiveFailures l) in
          if (MAX_CONSECUTIVE_FAILURES <=? failures)%nat
          then ret (Break (mkLoop (loop_steps l) mem' failures true
                             (Some (String.append (JS.natToString MAX_CONSECUTIVE_FAILURES)
                                                  " consecutive failures"))))
          else recordStep env agentId task stepIdx stepDesc stepResult false
                 (mkLoop (loop_steps l) mem' failures (taskFailed l) (pauseReason l))
      end
  end.

(** [for (let stepIdx = 0; stepIdx < Math.min(plan.length, MAX_STEPS_PER_RUN);
    stepIdx++)], entered at [stepIdx] with [rest] the plan from there on. *)
Fixpoint stepLoop (env : Env) (agentId : string) (task : Task)
    (rest : list (option string)) (stepIdx : nat) (l : Loop) : M Loop :=
  match rest with
  | [] => ret l
  | item :: rest' =>
      if negb (stepIdx <? MAX_STEPS_PER_RUN)%nat then ret l
      else if negb (runningAtStep env stepIdx) then ret l
      else
        c <- stepBody env agentId task stepIdx item l ;;
        match c with
        | Break l' => ret l'
        | Continue l' => stepLoop env agentId task rest' (S stepIdx) l'
        end
  end.

(** The plan built from the planner's answer. *)
Definition buildPlan (env : Env) (task : Task) : list (option string) :=
  match planCompletion env with
  | JS.Resolved text =>
      match JS.matchBracketed text with
      | Some m =>
          match JSON_parse env m with
          | Some plan => plan
          | None => [Some (goal (payload task))]
          end
      | None => []
      end
  | JS.Rejected _ => [Some (goal (payload task))]
  end.

(** The success path up to the memory of the completion. *)
Definition succeed (env : Env) (task : Task) : M unit :=
  match recurrence task with
  | None | Some once =>
      t <- now env ;; write (TaskQueue.updateStatus t (id task) done None)
  | Some _ =>
      t <- now env ;; t' <- now env ;; write (TaskQueue.requeueRecurring t t' task)
  end ;;;
  await (episodicStore env).

(** "Determine final status": [if (pauseReason) ... else if (taskFailed)
    ... else ...]; an empty reason would be falsy. *)
Definition finish (env : Env) (task : Task) (l : Loop) : M unit :=
  match JS.orUndefined (pauseReason l) with
  | Some reason =>
      t <- now env ;;
      write (TaskQueue.updateStatus t (id task) paused (Some reason))
  | None =>
      if taskFailed l then
        t <- now env ;;
        write (TaskQueue.updateStatus t (id task) failed
                 (Some "max consecutive failures"%string))
      else succeed env task
  end.

(** The start of [executeTask], up to the search of the episodic memory:
    the start time of the run and the working memory with the goal set. *)
Definition prepare (env : Env) (agentId : string) (task : Task) : M (string * WorkingMemory) :=
  startedAt <- nowISO env ;;
  agentState <- read (TaskQueue.getAgentState agentId) ;;
  let memory0 := default emptyMemory (workingMemory agentState) in
  let memory1 := mkWorkingMemory (Some (goal (payload task))) (currentPlan memory0)
                   (currentStepIndex memory0) (lastPageStateHash memory0)
                   (wm_context memory0) in
  hb <- nowISO env ;;
  write (TaskQueue.saveAgentState
           (mkAgentState agentId (Some (id task)) (Some hb) (Some memory1))) ;;;
  relevantMemories <- await (episodicSearch env) ;;
  ret (startedAt, memory1).

(** The end of [executeTask], from [run.finishedAt] on. *)
Definition conclude (env : Env) (agentId : string) (task : Task) (startedAt : string)
    (l : Loop) : M unit :=
  finishedAt <- nowISO env ;;
  finish env task l ;;;
  write (TaskQueue.saveTaskRun
           (mkTaskRun (randomUUID env) (id task) agentId startedAt (Some finishedAt)
                      (loop_steps l) None None)) ;;;
  hb <- nowISO env ;;
  write (TaskQueue.saveAgentState
           (mkAgentState agentId None (Some hb) (Some emptyMemory))).

(** The loop variables as the loop finds them. *)
Definition startLoop (plan : list (option string)) (memory1 : WorkingMemory) : Loop :=
  mkLoop [] (mkWorkingMemory (wm_goal memory1) (Some plan) (Some 0%nat)
                             (lastPageStateHash memory1) (wm_context memory1))
         0 false None.

Definition executeTask (env : Env) (agentId : string) (task : Task) : M unit :=
  started <- prepare env agentId task ;;
  let plan := buildPlan env task in
  l <- stepLoop env agentId task plan 0 (startLoop plan (snd started)) ;;
  conclude env agentId task (fst started) l.

(** [tick]: claim the next task and run it; an error is logged and the
    loop lives on. *)
Definition tick (env : Env) (agentId : string) (w : World) : World :=
  if negb (runningAtTick env) then w
  else
    let t := dateNow env (reads w) in
    match TaskQueue.claimNext t agentId (db w) with
    | (None, _) => mkWorld (db w) (S (reads w))
    | (Some task, db') =>
        match executeTask env agentId task (mkWorld db' (S (reads w))) with
        | Returned _ w' => w'
        | Threw _ w' => w'
        end
    end.

End AgentRunner.

(** ** [maybePostStatus] and [postStatus] of [src/runner/AgentRunner.ts]

    The status updates of the runner, on the state they use: the
    runner's [lastStatusAt], the router behind [getLLMRouter()], and the
    entries handed to [activityFeed.append]. *)

Module StatusUpdates.
Import Types.

Definition STATUS_UPDATE_INTERVAL_MS : Z := 5 * 60 * 1000.

(** The argument of [activityFeed.append]. *)
Record ActivityInput := mkActivity {
  act_agentId : string;
  act_taskId : string;
  message : string
}.

Record Poster := mkPoster {
  lastStatusAt : Z;
  router : LLMRouter.Router;
  appended : list ActivityInput       (* the calls of [append], in order *)
}.

(** A runner as the constructor leaves it. *)
Definition newPoster (r : LLMRouter.Router) : Poster := mkPoster 0 r [].

(** What a call sees of the world: the clock by reading, the providers
    behind the status ping, and the outcome of [append]. *)
Record StatusEnv := mkStatusEnv {
  dateNow : nat -> Z;
  net : LLMRouter.Net LLMRouter.LLMResponse;
  append : JS.Result unit
}.

(** [postStatus], its clock reading being number [reading]. Every error
    of the [try] block is swallowed. *)
Definition postStatus (env : StatusEnv) (reading : nat) (agentId : string) (task : Task)
    (force : bool) (s : Poster) : Poster :=
  let now := dateNow env reading in
  if negb force && (now - lastStatusAt s <? STATUS_UPDATE_INTERVAL_MS) then s
  else
    match LLMRouter.statusPing (net env) (router s) with
    | (JS.Resolved oneliner, r') =>
        let entry := mkActivity agentId (id task) oneliner in
        match append env with
        | JS.Resolved _ => mkPoster now r' (appended s ++ [entry])
        | JS.Rejected _ => mkPoster (lastStatusAt s) r' (appended s ++ [entry])
        end
    | (JS.Rejected _, r') => mkPoster (lastStatusAt s) r' (appended s)
    end.

(** Post a status update, respecting rate limit *)
Definition maybePostStatus (env : StatusEnv) (reading : nat) (agentId : string) (task : Task)
    (s : Poster) : Poster :=
  let now := dateNow env reading in
  if now - lastStatusAt s <? STATUS_UPDATE_INTERVAL_MS then s
  else postStatus env (S reading) agentId task false s.

End StatusUpdates.

(** ** The page observer of [scripts/autonomy-run-once.ts]

    The script runs one [AgentRunner] with a [getPageState] of its own,
    which asks the browser command for the open tabs and a snapshot and
    builds the page state from their answers. *)

Module RunOnce.
Import Page.

(** [x | 0]: the 32-bit two's-complement reading of an integer. *)
Definition toInt32 (x : Z) : Z := (x + 2147483648) mod 4294967296 - 2147483648.

(** The loop of [makeHash], over the characters left. *)
Fixpoint hashFrom (h : Z) (input : string) : Z :=
  match input with
  | EmptyString => h
  | String c rest =>
      hashFrom (toInt32 (toInt32 (Z.shiftl h 5) - h + Z.of_nat (nat_of_ascii c))) rest
  end.

(** [String(n)] for a number of at most [fuel] decimal digits. *)
Fixpoint decimal (fuel : nat) (n : Z) (acc : string) : string :=
  match fuel with
  | O => acc
  | S f =>
      let acc' := String (JS.digit n) acc in
      if n <? 10 then acc' else decimal f (n / 10) acc'
  end.

(** The absolute value of a 32-bit integer has at most ten digits. *)
Definition makeHash (input : string) : string :=
  String.append "h" (decimal 10 (Z.abs (hashFrom 0 input)) EmptyString).

(** An element of the [tabs] answer. *)
Record Tab := mkTab {
  targetId : option string;
  tab_url : option string;
  tab_title : option string
}.

(** [String(x || fallback)] *)
Definition orElse (x : option string) (fallback : string) : string :=
  default fallback (JS.orUndefined x).

(** [[...list].toReversed().find(t => String(t?.url || "").includes("x.com")) ?? list[0]] *)
Definition pickTab (list : list Tab) : option Tab :=
  match List.find (fun t => JS.includes (orElse (tab_url t) EmptyString) "x.com") (rev list) with
  | Some t => Some t
  | None => head list
  end.

(** The alerts the observer reports for a lower-cased snapshot text and
    a page URL. *)
Definition detectAlerts (snapshotText pageUrl : string) : list PageAlert :=
  (if JS.includes snapshotText "captcha" || JS.includes snapshotText "hcaptcha" ||
      JS.includes snapshotText "recaptcha" || JS.includes (JS.toLowerCase pageUrl) "captcha"
   then [mkAlert captcha "captcha detected"] else []) ++
  (if JS.includes snapshotText "log in" || JS.includes snapshotText "sign in" ||
      JS.includes snapshotText "phone, email, or username" ||
      JS.includes snapshotText "enter your phone"
   then [mkAlert twoFA "login challenge detected"] else []).

(** The page state [getPageState(url)] returns, from the list of the
    [tabs] answer and the [snapshot] field of the snapshot answer, when
    neither command fails. *)
Definition getPageState (list : list Tab) (snapshotRaw : option string) (url : string)
    : PageState :=
  let tab := pickTab list in
  let snapshotText := JS.toLowerCase (default EmptyString snapshotRaw) in
  let pageUrl := orElse (match tab with Some t => tab_url t | None => None end) url in
  let title := orElse (match tab with Some t => tab_title t | None => None end) EmptyString in
  let alerts := detectAlerts snapshotText pageUrl in
  mkPageState pageUrl title
    (if JS.includes (JS.toLowerCase pageUrl) "x.com/home" && (length alerts =? 0)%nat
     then "feed"%string else "login"%string)
    [] alerts
    (makeHash (String.concat EmptyString
                 [pageUrl; "|"; title; "|"; String.substring 0 4000 snapshotText]%string)).

End RunOnce.

(** ** Concrete stores, routers and runs used in the examples *)

Module Examples.
Import Types TaskQueue.

(** A row of agent "agent-A". *)
Definition exampleRow (st : TaskStatus) (prio : Z) (next : option string) (created : string)
    : TaskRow :=
  mkRow "agent-A" st prio (mkPayload "Like latest post" None None None) None next None
        created created.

(** A store of four tasks: one of priority 1 that is running, and three
    queued ones of priority 2, the oldest of which is not yet due. *)
Definition exampleDB : DB :=
  mkDB (<["t-run" := exampleRow running 1 None "2025-11-02T10:00:00.000Z"]>
        (<["t-later" := exampleRow queued 2 (Some "2025-11-02T12:00:00.000Z"%string)
                                   "2025-11-02T10:01:00.000Z"]>
        (<["t-old" := exampleRow queued 2 None "2025-11-02T10:02:00.000Z"]>
        (<["t-new" := exampleRow queued 2 None "2025-11-02T10:03:00.000Z"]> ∅))))
       ∅ ∅.

(** A store with one task left [running] an hour before the restart. *)
Definition crashedDB : DB :=
  mkDB (<["t-crashed" := exampleRow running 3 None "2025-11-02T09:39:00.123Z"]> ∅) ∅ ∅.

End Examples.

Module QueueExamples.
Import Types TaskQueue.

(** A task with a cron recurrence, as [claimNext] returned it, and the
    store that holds its row. *)
Definition digest : Task :=
  mkTask "t-cron" "agent-A" running 3 (mkPayload "Post the daily digest" None None None)
         (Some (cron "0 9 * * *" (Some "UTC"%string))) None
         "2025-11-02T09:00:00.000Z" "2025-11-02T10:38:59.000Z" None.

Definition digestDB : DB :=
  mkDB (<["t-cron" := mkRow "agent-A" running 3
                            (mkPayload "Post the daily digest" None None None)
                            (Some (cron "0 9 * * *" (Some "UTC"%string))) None None
                            "2025-11-02T09:00:00.000Z" "2025-11-02T10:38:59.000Z"]> ∅)
       ∅ ∅.

End QueueExamples.

Module RouterExamples.
Import LLMRouter.

(** A 429 answer that speaks of the quota, and one that does not. *)
Definition quotaError : JS.Error :=
  JS.mkError (Some 429) "OpenAI error 429: You exceeded your current quota".

Definition busyError : JS.Error :=
  JS.mkError (Some 429) "OpenAI error 429: Too many requests".

Definition paymentError : JS.Error :=
  JS.mkError (Some 402) "OpenAI error 402: Payment required".

(** A world in which every attempt fails with [err], the clock moving on
    one millisecond per reading. *)
Definition failing (err : JS.Error) : Net LLMResponse :=
  mkNet (fun n => 1762079940123 + Z.of_nat n) (fun _ _ _ => JS.Rejected err).

(** OPENAI_API_KEYS=sk-a *)
Definition oneKey : Router := new (Some "sk-a"%string) None None None.

(** OPENAI_API_KEYS=sk-a,sk-a *)
Definition sameKeyTwice : Router := new (Some "sk-a,sk-a"%string) None None None.

(** OPENAI_API_KEYS="sk-a, sk-b" ANTHROPIC_API_KEYS="sk-c,sk-d" *)
Definition fourKeys : Router :=
  new (Some "sk-a, sk-b"%string) (Some "sk-c,sk-d"%string) None None.

End RouterExamples.

Module MoreRouterExamples.
Import LLMRouter.

(** A failure that is neither a rate limit nor a credit error. *)
Definition serverError : JS.Error :=
  JS.mkError (Some 500) "OpenAI error 500: Internal server error".

(** A world in which every attempt is answered, the clock moving on one
    millisecond per reading. *)
Definition answering (resp : LLMResponse) : Net LLMResponse :=
  mkNet (fun n => 1762079940123 + Z.of_nat n) (fun _ _ _ => JS.Resolved resp).

Definition shortAnswer : LLMResponse :=
  mkResponse "  Liking the latest post  " "openai" "gpt-4o-mini".

End MoreRouterExamples.

(** ** Notions used in the statements about the runner *)

Module RunnerNotions.
Import Types TaskQueue Page AgentRunner.

(** [w'] has the tables [tasks] and [task_runs] of [w]. *)
Definition untouched (w w' : World) : Prop :=
  tasks (db w') = tasks (db w) /\ task_runs (db w') = task_runs (db w).

(** The reason the loop gives when the failure counter reaches the
    threshold. *)
Definition failureReason : string :=
  String.append (JS.natToString MAX_CONSECUTIVE_FAILURES) " consecutive failures".

(** The reason the loop gives for the blocking alerts of a page. *)
Definition blockedReason (ps : PageState) : string :=
  String.append "Blocked by "
    (JS.join ", " (map (fun a => alertTypeText (alert_type a))
                       (filter (fun a => isBlocking a = true) (alerts ps)))).

(** The loop variables when a blocking alert stops the loop at
    [stepIdx]. *)
Definition blockedAt (stepIdx : nat) (reason : string) (l : Loop) : Loop :=
  mkLoop (loop_steps l) (setStepIndex stepIdx (memory l)) (consecutiveFailures l)
         (taskFailed l) (Some reason).

(** The failure flag is only ever set together with the failure reason. *)
Definition failedWithReason (l : Loop) : Prop :=
  taskFailed l = true -> pauseReason l = Some failureReason.

(** The loop variables while the loop runs: no failure flag, no reason. *)
Definition running_on (l : Loop) : Prop := taskFailed l = false /\ pauseReason l = None.

(** The agent-state row of [agentId] points at [task]. *)
Definition pointsAt (agentId : string) (task : Task) (w : World) : Prop :=
  exists st, agent_state (db w) !! agentId = Some st /\ current_task_id st = Some (id task).

(** The agent-state row of [agentId] points at no task. *)
Definition pointsNowhere (agentId : string) (w : World) : Prop :=
  exists st, agent_state (db w) !! agentId = Some st /\ current_task_id st = None.

(** The run of [env] is in table [task_runs], finished, with [recorded]
    as its steps. *)
Definition runPersisted (env : Env) (task : Task) (recorded : list RunStep) (w : World) : Prop :=
  exists run,
    task_runs (db w) !! randomUUID env = Some run /\
    taskId run = id task /\ is_Some (finishedAt run) /\ steps run = recorded.

(** The status and reason of the row of [task], if it has one. *)
Definition statusOf (task : Task) (w : World) : option (TaskStatus * option string) :=
  (fun r => (row_status r, status_reason r)) <$> tasks (db w) !! id task.

(** The statuses in which [executeTask] leaves a task when it returns. *)
Definition settled (st : TaskStatus) : Prop := st = paused \/ st = done \/ st = queued.

End RunnerNotions.

Module RunnerExamples.
Import Types TaskQueue Page AgentRunner.

(** The double-quote character, for JSON texts. *)
Definition dq : string := String (ascii_of_nat 34) EmptyString.

Definition likePayload : TaskPayload :=
  mkPayload "Like latest post" (Some "https://x.com/home"%string) None None.

(** The task as [claimNext] returned it, and the store it left. *)
Definition likePost : Task :=
  mkTask "t-1" "agent-A" running 3 likePayload None None
         "2025-11-02T10:00:00.000Z" "2025-11-02T10:00:00.000Z" None.

Definition claimedWorld : World :=
  mkWorld (mkDB (<["t-1" := mkRow "agent-A" running 3 likePayload None None None
                                  "2025-11-02T10:00:00.000Z" "2025-11-02T10:38:59.000Z"]> ∅)
                ∅ ∅) 0.

Definition threeSteps : list (option string) :=
  [Some "Open the home page"; Some "Find the latest post"; Some "Press like"]%string.

(** The planner's answer: a JSON array of the three steps. *)
Definition planText : string :=
  String.concat EmptyString
    [ "Here is the plan: ["; dq; "Open the home page"; dq; ", "; dq; "Find the latest post";
      dq; ", "; dq; "Press like"; dq; "]" ]%string.

(** [JSON.parse] on the one array text of the examples. *)
Definition parsePlan (m : string) : option (list (option string)) :=
  if String.eqb m (String.substring 18 100 planText) then Some threeSteps else None.

(** An environment with the clock moving on one millisecond per reading
    and the runner never stopped. *)
Definition world (getPage : option (nat -> JS.Result PageState))
    (search : JS.Result (list string)) (store : JS.Result unit)
    (planR : JS.Result string) (stepR : nat -> JS.Result string)
    (parse : string -> option (list (option string))) : Env :=
  mkEnv (fun n => 1762079940123 + Z.of_nat n) "run-1" true (fun _ => true)
        getPage search store planR stepR parse.

Definition exhausted : JS.Error :=
  JS.mkError None "LLMRouter: all providers/keys exhausted after 3 attempts. Last error: busy".

Definition memoryDown : JS.Error := JS.mkError None "database is not open".

(** Every step completion fails. *)
Definition allStepsFail : Env :=
  world None (JS.Resolved []) (JS.Resolved tt) (JS.Resolved planText)
        (fun _ => JS.Rejected exhausted) parsePlan.

(** The planner answers without any array. *)
Definition noArray (parse : string -> option (list (option string))) : Env :=
  world None (JS.Resolved []) (JS.Resolved tt) (JS.Resolved "I cannot produce a plan."%string)
        (fun _ => JS.Resolved "done"%string) parse.

(** The episodic memory throws on [search], or on [store]. *)
Definition searchThrows : Env :=
  world None (JS.Rejected memoryDown) (JS.Resolved tt) (JS.Resolved planText)
        (fun _ => JS.Resolved "done"%string) parsePlan.

Definition storeThrows : Env :=
  world None (JS.Resolved []) (JS.Rejected memoryDown) (JS.Resolved planText)
        (fun _ => JS.Resolved "done"%string) parsePlan.

(** The page shows a captcha and a cookie banner when the second step
    looks at it. *)
Definition cleanPage : PageState :=
  mkPageState "https://x.com/home" "Home" "feed" [mkElement "button" "Like"] [] "h0".

Definition captchaPage : PageState :=
  mkPageState "https://x.com/home" "Verify" "captcha" []
              [mkAlert cookie_banner "We use cookies"; mkAlert captcha "recaptcha";
               mkAlert twoFA "Enter the code"] "h1".

Definition captchaAtSecondStep : Env :=
  world (Some (fun i => if (i =? 1)%nat then JS.Resolved captchaPage else JS.Resolved cleanPage))
        (JS.Resolved []) (JS.Resolved tt) (JS.Resolved planText)
        (fun _ => JS.Resolved "  done  "%string) parsePlan.

End RunnerExamples.

Module MoreRunnerExamples.
Import Types TaskQueue Page AgentRunner RunnerExamples.

(** The first two step completions fail, the third succeeds. *)
Definition twoFailuresThenSuccess : Env :=
  world None (JS.Resolved []) (JS.Resolved tt) (JS.Resolved planText)
        (fun i => if (i <? 2)%nat then JS.Rejected exhausted else JS.Resolved "liked"%string)
        parsePlan.

(** The runner is stopped before the first step. *)
Definition stoppedAtOnce : Env :=
  mkEnv (fun n => 1762079940123 + Z.of_nat n) "run-1" true (fun _ => false)
        None (JS.Resolved []) (JS.Resolved tt) (JS.Resolved planText)
        (fun _ => JS.Resolved "done"%string) parsePlan.

(** The page observer fails at every step. *)
Definition observerDown : Env :=
  world (Some (fun _ => JS.Rejected (JS.mkError None "browser is not running")))
        (JS.Resolved []) (JS.Resolved tt) (JS.Resolved planText)
        (fun _ => JS.Resolved "done"%string) parsePlan.

End MoreRunnerExamples.

Module RunOnceExamples.
Import Types Page AgentRunner RunnerExamples.

(** The browser shows the login wall of x.com at every step. *)
Definition loginWall : PageState :=
  RunOnce.getPageState
    [RunOnce.mkTab (Some "tab-1"%string) (Some "https://x.com/i/flow/login"%string)
                   (Some "X"%string)]
    (Some "Heading: Happening now. Button: Sign in. Button: Create account"%string)
    "https://x.com/home".

Definition loggedOut : Env :=
  world (Some (fun _ => JS.Resolved loginWall)) (JS.Resolved []) (JS.Resolved tt)
        (JS.Resolved planText) (fun _ => JS.Resolved "done"%string) parsePlan.

End RunOnceExamples.

(** ** Further notions used in the statements about the runner *)

Module RunNotions.
Import Types TaskQueue Page AgentRunner.

(** The world an async call leaves, whether it returns or throws. *)
Definition after {A} (o : Outcome A) : World :=
  match o with
  | Returned _ w => w
  | Threw _ w => w
  end.

(** [w'] differs from [w] at most in the task row [taskId], the
    agent-state row [agentId] and the run [runId]. *)
Definition framed (agentId taskId runId : string) (w w' : World) : Prop :=
  (forall id, id <> taskId -> tasks (db w') !! id = tasks (db w) !! id) /\
  (forall a, a <> agentId -> agent_state (db w') !! a = agent_state (db w) !! a) /\
  (forall r, r <> runId -> task_runs (db w') !! r = task_runs (db w) !! r).

(** Every world that [m] leaves is framed. *)
Definition keeps (agentId taskId runId : string) {A} (m : M A) : Prop :=
  forall w, framed agentId taskId runId w (after (m w)).

(** The environment without a page observer. *)
Definition withoutObserver (env : Env) : Env :=
  mkEnv (dateNow env) (randomUUID env) (runningAtTick env) (runningAtStep env) None
        (episodicSearch env) (episodicStore env) (planCompletion env) (stepCompletion env)
        (JSON_parse env).

(** The completion of step [i] fails. *)
Definition rejectedAt (env : Env) (i : nat) : bool :=
  match stepCompletion env i with
  | JS.Rejected _ => true
  | JS.Resolved _ => false
  end.

(** The entry of the run log for step [i] of [plan]: its index, the
    plan item as description, and the trimmed answer of the step or the
    message of its error as result. *)
Definition logged (env : Env) (plan : list (option string)) (i : nat) (s : RunStep) : Prop :=
  index s = i /\
  (exists item, plan !! i = Some item /\ description s = default "Execute goal"%string item) /\
  result s = match stepCompletion env i with
             | JS.Resolved text => JS.trim text
             | JS.Rejected err => String.append "Error: " (JS.err_message err)
             end.

(** The status the success path writes: [done], or [queued] again for a
    recurring task. *)
Definition afterSuccess (task : Task) : TaskStatus :=
  match recurrence task with
  | None | Some once => done
  | Some _ => queued
  end.

End RunNotions.

(** * Properties *)

(** ** The built-ins on concrete values *)

Module BuiltinExamples.

Example toISOString_epoch :
  JS.toISOString 0 = "1970-01-01T00:00:00.000Z"%string.
Proof. reflexivity. Qed.

Example toISOString_2025 :
  JS.toISOString 1762079940123 = "2025-11-02T10:39:00.123Z"%string.
Proof. reflexivity. Qed.

Example toISOString_leap :
  JS.toISOString 951868799999 = "2000-02-29T23:59:59.999Z"%string.
Proof. reflexivity. Qed.

Example toISOString_before_epoch :
  JS.toISOString (-1) = "1969-12-31T23:59:59.999Z"%string.
Proof. reflexivity. Qed.

Example toISOString_last :
  JS.toISOString 253402300799999 = "9999-12-31T23:59:59.999Z"%string.
Proof. reflexivity. Qed.

Example toISOString_extended :
  JS.toISOString 253402300800000 = "+010000-01-01T00:00:00.000Z"%string.
Proof. reflexivity. Qed.

Example matchBracketed_ex :
  JS.matchBracketed "plan: [open tab, click] ok] x"%string = Some "[open tab, click] ok]"%string.
Proof. reflexivity. Qed.

Example natToString_ex : JS.natToString 120 = "120"%string.
Proof. reflexivity. Qed.

Example splitComma_ex : JS.splitComma "a, b,,c"%string = ["a"; " b"; EmptyString; "c"]%string.
Proof. reflexivity. Qed.

Example matchBracketed_unclosed : JS.matchBracketed "see [1 and no more"%string = None.
Proof. reflexivity. Qed.

Example includes_lower :
  JS.includes (JS.toLowerCase "You exceeded your current QUOTA") "quota" = true.
Proof. reflexivity. Qed.

Example trim_ex : JS.trim "  done  "%string = "done"%string.
Proof. reflexivity. Qed.

End BuiltinExamples.


(** ** The order of TEXT values *)

Module TextOrder.

Lemma ascii_compare_refl (c : ascii) : Ascii.compare c c = Eq.
Proof. unfold Ascii.compare. apply N.compare_refl. Qed.

Lemma ascii_compare_lt_trans (a b c : ascii) :
  Ascii.compare a b = Lt -> Ascii.compare b c = Lt -> Ascii.compare a c = Lt.
Proof.
  unfold Ascii.compare. rewrite !N.compare_lt_iff. lia.
Qed.

Lemma compare_refl (s : string) : String.compare s s = Eq.
Proof.
  induction s as [|c s IH]; simpl; [reflexivity|].
  rewrite ascii_compare_refl. exact IH.
Qed.

Lemma compare_lt_trans (a b c : string) :
  String.compare a b = Lt -> String.compare b c = Lt -> String.compare a c = Lt.
Proof.
  revert b c. induction a as [|x a IH]; intros [|y b] [|z c]; simpl; try congruence.
  destruct (Ascii.compare x y) eqn:Hxy; try discriminate.
  - apply Ascii.compare_eq_iff in Hxy. subst y.
    destruct (Ascii.compare x z); try congruence. apply IH.
  - intros _. destruct (Ascii.compare y z) eqn:Hyz; try discriminate.
    + apply Ascii.compare_eq_iff in Hyz. subst z. rewrite Hxy. reflexivity.
    + intros _. rewrite (ascii_compare_lt_trans x y z Hxy Hyz). reflexivity.
Qed.

Lemma leb_refl (s : string) : String.leb s s = true.
Proof. unfold String.leb. rewrite compare_refl. reflexivity. Qed.

Lemma leb_trans (a b c : string) :
  String.leb a b = true -> String.leb b c = true -> String.leb a c = true.
Proof.
  unfold String.leb.
  destruct (String.compare a b) eqn:Hab; try discriminate; intros _.
  - apply String.compare_eq_iff in Hab. subst b. tauto.
  - destruct (String.compare b c) eqn:Hbc; try discriminate; intros _.
    + apply String.compare_eq_iff in Hbc. subst c. rewrite Hab. reflexivity.
    + rewrite (compare_lt_trans a b c Hab Hbc). reflexivity.
Qed.

Lemma leb_empty (s : string) : String.leb EmptyString s = true.
Proof. destruct s; reflexivity. Qed.

(** [a < b] and [b <= a] exclude each other. *)
Lemma ltb_not_leb (a b : string) : String.ltb a b = true -> String.leb b a = false.
Proof.
  unfold String.ltb, String.leb. rewrite (String.compare_antisym b a).
  destruct (String.compare a b); simpl; congruence.
Qed.

End TextOrder.

(** ** The task store *)

Module TaskQueueFacts.
Import Types TaskQueue Examples.

Lemma orderLe_refl (a : TaskRow) : orderLe a a = true.
Proof.
  unfold orderLe. rewrite Z.eqb_refl, TextOrder.leb_refl. apply orb_true_r.
Qed.

Lemma orderLe_total (a b : TaskRow) : orderLe a b = true \/ orderLe b a = true.
Proof.
  unfold orderLe.
  destruct (Z.ltb_spec (row_priority a) (row_priority b)); [left; reflexivity|].
  destruct (Z.ltb_spec (row_priority b) (row_priority a)); [right; reflexivity|].
  assert (row_priority a = row_priority b) as -> by lia.
  rewrite Z.eqb_refl. simpl.
  apply String.leb_total.
Qed.

Lemma orderLe_trans (a b c : TaskRow) :
  orderLe a b = true -> orderLe b c = true -> orderLe a c = true.
Proof.
  unfold orderLe. intros Hab Hbc.
  apply orb_true_iff in Hab. apply orb_true_iff in Hbc. apply orb_true_iff.
  rewrite !andb_true_iff, !Z.ltb_lt, !Z.eqb_eq in *.
  destruct Hab as [Hab|[Hab Hab']], Hbc as [Hbc|[Hbc Hbc']].
  - left. lia.
  - left. lia.
  - left. lia.
  - right. split; [lia|]. eapply TextOrder.leb_trans; eassumption.
Qed.

(** What [orderLe] says in terms of the two sort keys. *)
Lemma orderLe_keys (a b : TaskRow) :
  orderLe a b = true <->
  row_priority a < row_priority b \/
  (row_priority a = row_priority b /\ String.leb (created_at a) (created_at b) = true).
Proof.
  unfold orderLe. rewrite orb_true_iff, andb_true_iff, Z.ltb_lt, Z.eqb_eq. tauto.
Qed.

Lemma firstBy_elem (rows : list (string * TaskRow)) (x : string * TaskRow) :
  firstBy rows = Some x -> x ∈ rows.
Proof.
  revert x. induction rows as [|y rows IH]; intros x; simpl; [discriminate|].
  destruct (firstBy rows) as [m|] eqn:Hm.
  - destruct (orderLe (snd y) (snd m)); intros [= <-].
    + apply list_elem_of_here.
    + apply list_elem_of_further, IH. reflexivity.
  - intros [= <-]. apply list_elem_of_here.
Qed.

Lemma firstBy_least (rows : list (string * TaskRow)) (x y : string * TaskRow) :
  firstBy rows = Some x -> y ∈ rows -> orderLe (snd x) (snd y) = true.
Proof.
  revert x. induction rows as [|z rows IH]; intros x Hx Hy; [inversion Hy|].
  simpl in Hx. destruct (firstBy rows) as [m|] eqn:Hm.
  - destruct (orderLe (snd z) (snd m)) eqn:Hzm; injection Hx as <-.
    + apply elem_of_cons in Hy as [->|Hy]; [apply orderLe_refl|].
      eapply orderLe_trans; [exact Hzm|]. apply IH; [reflexivity|exact Hy].
    + apply elem_of_cons in Hy as [->|Hy].
      * destruct (orderLe_total (snd m) (snd z)) as [H|H]; [exact H|congruence].
      * apply IH; [reflexivity|exact Hy].
  - injection Hx as <-. destruct rows as [|r rows].
    + apply elem_of_cons in Hy as [->|Hy]; [apply orderLe_refl|inversion Hy].
    + simpl in Hm. destruct (firstBy rows); [destruct (orderLe _ _)|]; discriminate.
Qed.

Lemma firstBy_some (rows : list (string * TaskRow)) (y : string * TaskRow) :
  y ∈ rows -> exists x, firstBy rows = Some x.
Proof.
  destruct rows as [|z rows]; [inversion 1|]. intros _. simpl.
  destruct (firstBy rows) as [m|]; [destruct (orderLe _ _)|]; eauto.
Qed.

(** The rows [selectNext] chooses from. *)
Lemma candidate_iff (agentId now : string) (db : DB) (id : string) (row : TaskRow) :
  (id, row) ∈ filter (fun kr => eligible agentId now (snd kr) = true) (map_to_list (tasks db))
  <-> tasks db !! id = Some row /\ eligible agentId now row = true.
Proof.
  rewrite list_elem_of_filter, elem_of_map_to_list. simpl. tauto.
Qed.

Lemma selectNext_sound (agentId now : string) (db : DB) (id : string) (row : TaskRow) :
  selectNext agentId now db = Some (id, row) ->
  tasks db !! id = Some row /\ eligible agentId now row = true /\
  forall id' row', tasks db !! id' = Some row' -> eligible agentId now row' = true ->
                   orderLe row row' = true.
Proof.
  unfold selectNext. intros Hsel.
  pose proof (firstBy_elem _ _ Hsel) as Hin. apply candidate_iff in Hin as [Hrow Hel].
  repeat split; [exact Hrow|exact Hel|].
  intros id' row' Hrow' Hel'.
  apply (firstBy_least _ _ (id', row') Hsel). apply candidate_iff. tauto.
Qed.

Lemma selectNext_complete (agentId now : string) (db : DB) (id0 : string) (row0 : TaskRow) :
  tasks db !! id0 = Some row0 -> eligible agentId now row0 = true ->
  exists id row, selectNext agentId now db = Some (id, row).
Proof.
  intros Hrow Hel. unfold selectNext.
  assert ((id0, row0) ∈ filter (fun kr => eligible agentId now (snd kr) = true)
                                (map_to_list (tasks db))) as Hin
    by (apply candidate_iff; tauto).
  destruct (firstBy_some _ _ Hin) as [[id row] H]. eauto.
Qed.

(** What [eligible] says column by column. *)
Lemma eligible_iff (agentId now : string) (r : TaskRow) :
  eligible agentId now r = true <->
  agent_id r = agentId /\ row_status r = queued /\
  (next_run_at r = None \/ exists t, next_run_at r = Some t /\ String.leb t now = true).
Proof.
  unfold eligible. rewrite !andb_true_iff, String.eqb_eq, bool_decide_eq_true.
  destruct (next_run_at r) as [t|]; split.
  - intros [[? ?] ?]. repeat split; try assumption. right. eauto.
  - intros (? & ? & [?|(t' & [= <-] & ?)]); [discriminate|tauto].
  - intros [[? ?] _]. repeat split; try assumption. left. reflexivity.
  - intros (? & ? & _). tauto.
Qed.

(** [claimNext] as the pair of what it chose and what it did with it. *)
Lemma claimNext_unfold (nowMs : Z) (agentId : string) (db : DB) :
  claimNext nowMs agentId db =
  match selectNext agentId (JS.toISOString nowMs) db with
  | None => (None, db)
  | Some (id, row) =>
      (Some (rowToTask id (mkRow (agent_id row) running (row_priority row) (row_payload row)
                                 (row_recurrence row) (next_run_at row) (status_reason row)
                                 (created_at row) (updated_at row))),
       setTasks (alter (markRunning (JS.toISOString nowMs)) id) db)
  end.
Proof. reflexivity. Qed.

(** A claim returns nothing exactly when no row is eligible. *)
Lemma claimNext_none (nowMs : Z) (agentId : string) (db : DB) :
  fst (claimNext nowMs agentId db) = None <->
  forall id row, tasks db !! id = Some row ->
                 eligible agentId (JS.toISOString nowMs) row = false.
Proof.
  rewrite claimNext_unfold. split.
  - intros Hnone id row Hrow. destruct (eligible _ _ row) eqn:Hel; [|reflexivity].
    destruct (selectNext_complete _ _ _ _ _ Hrow Hel) as (id' & row' & Hsel).
    rewrite Hsel in Hnone. discriminate.
  - intros Hall. destruct (selectNext _ _ db) as [[id row]|] eqn:Hsel; [|reflexivity].
    apply selectNext_sound in Hsel as (Hrow & Hel & _).
    rewrite (Hall _ _ Hrow) in Hel. discriminate.
Qed.



(** The claim of the example store picks the older of the two due tasks. *)
Example claimNext_example :
  option_map Types.id (fst (claimNext 1762079940123 "agent-A" exampleDB)) = Some "t-old"%string.
Proof. vm_compute. reflexivity. Qed.

Lemma initialize_lookup (nowMs nowMs' : Z) (db : DB) (id : string) :
  tasks (initialize nowMs nowMs' db) !! id =
  resetStale (JS.toISOString (nowMs - STALE_RUNNING_MS)) (JS.toISOString nowMs')
    <$> tasks db !! id.
Proof. unfold initialize, setTasks. simpl. apply lookup_fmap. Qed.

(** A row that the scan has reset is not [running], so no scan resets it. *)
Lemma resetStale_queued (th now : string) (r : TaskRow) :
  row_status r = queued -> resetStale th now r = r.
Proof. unfold resetStale. intros ->. reflexivity. Qed.

(** C8. The startup scan of [initialize], with a stale threshold of five
    minutes: a row that is [running] and whose [updated_at] is before the
    threshold becomes [queued] with reason "reset after stale run" (its
    [updated_at] set to the time of the scan), and any later scan leaves
    it as the first one made it; a row that fails either condition stays
    as it was; no row appears, and the other tables are untouched. *)
Theorem initialize_resets_stale_once
    (nowMs nowMs' : Z) (db : DB) (id : string) (row : TaskRow) :
  tasks db !! id = Some row ->
  STALE_RUNNING_MS = 5 * 60 * 1000 /\
  (row_status row = running /\
   String.ltb (updated_at row) (JS.toISOString (nowMs - STALE_RUNNING_MS)) = true ->
   tasks (initialize nowMs nowMs' db) !! id
     = Some (mkRow (agent_id row) queued (row_priority row) (row_payload row)
                   (row_recurrence row) (next_run_at row)
                   (Some "reset after stale run"%string)
                   (created_at row) (JS.toISOString nowMs')) /\
   forall n n',
     tasks (initialize n n' (initialize nowMs nowMs' db)) !! id
       = tasks (initialize nowMs nowMs' db) !! id) /\
  (~ (row_status row = running /\
      String.ltb (updated_at row) (JS.toISOString (nowMs - STALE_RUNNING_MS)) = true) ->
   tasks (initialize nowMs nowMs' db) !! id = Some row) /\
  (forall id', tasks db !! id' = None -> tasks (initialize nowMs nowMs' db) !! id' = None) /\
  task_runs (initialize nowMs nowMs' db) = task_runs db /\
  agent_state (initialize nowMs nowMs' db) = agent_state db.
Proof.
  intros Hrow. split; [reflexivity|]. split; [|split; [|split; [|split]]].
  - intros [Hrun Hstale].
    assert (resetStale (JS.toISOString (nowMs - STALE_RUNNING_MS)) (JS.toISOString nowMs') row
            = mkRow (agent_id row) queued (row_priority row) (row_payload row)
                    (row_recurrence row) (next_run_at row)
                    (Some "reset after stale run"%string)
                    (created_at row) (JS.toISOString nowMs')) as Hreset.
    { unfold resetStale. rewrite Hrun, Hstale. reflexivity. }
    split.
    + rewrite initialize_lookup, Hrow. simpl. rewrite Hreset. reflexivity.
    + intros n n'. rewrite (initialize_lookup n n'), initialize_lookup, Hrow. simpl.
      rewrite Hreset, resetStale_queued by reflexivity. reflexivity.
  - intros Hnot. rewrite initialize_lookup, Hrow. simpl. f_equal. unfold resetStale.
    destruct (bool_decide (row_status row = running)) eqn:Hst; [|reflexivity].
    destruct (String.ltb _ _) eqn:Hlt; [|reflexivity].
    apply bool_decide_eq_true in Hst. tauto.
  - intros id' Hnone. rewrite initialize_lookup, Hnone. reflexivity.
  - reflexivity.
  - reflexivity.
Qed.

Lemma initialize_resets_stale_once_witness :
  tasks crashedDB !! "t-crashed"%string
    = Some (exampleRow running 3 None "2025-11-02T09:39:00.123Z") /\
  tasks (initialize 1762079940123 1762079940124 crashedDB) !! "t-crashed"%string
    = Some (mkRow "agent-A" queued 3 (mkPayload "Like latest post" None None None) None None
                  (Some "reset after stale run"%string)
                  "2025-11-02T09:39:00.123Z" "2025-11-02T10:39:00.124Z") /\
  forall n n',
    tasks (initialize n n' (initialize 1762079940123 1762079940124 crashedDB))
      !! "t-crashed"%string
    = tasks (initialize 1762079940123 1762079940124 crashedDB) !! "t-crashed"%string.
Proof.
  split; [reflexivity|].
  destruct (initialize_resets_stale_once 1762079940123 1762079940124 crashedDB "t-crashed"
              (exampleRow running 3 None "2025-11-02T09:39:00.123Z") eq_refl)
    as (_ & Hreset & _).
  apply Hreset. split; reflexivity.
Defined.

(** C10. [updateStatus] on a store: a row present before is present after
    under the same id, with the same agent, priority, payload,
    recurrence, [next_run_at] and [created_at]; the row of the given id
    gets the new status, reason and [updated_at]; every other row is the
    same row; no row appears; the other tables are untouched. *)
Theorem updateStatus_frame
    (nowMs : Z) (taskId : string) (st : TaskStatus) (reason : option string)
    (db : DB) (id : string) (row : TaskRow) :
  tasks db !! id = Some row ->
  (exists row',
      tasks (updateStatus nowMs taskId st reason db) !! id = Some row' /\
      agent_id row' = agent_id row /\
      row_priority row' = row_priority row /\
      row_payload row' = row_payload row /\
      row_recurrence row' = row_recurrence row /\
      next_run_at row' = next_run_at row /\
      created_at row' = created_at row /\
      (id = taskId ->
       row_status row' = st /\ status_reason row' = reason /\
       updated_at row' = JS.toISOString nowMs) /\
      (id <> taskId -> row' = row)) /\
  (forall id', tasks db !! id' = None ->
               tasks (updateStatus nowMs taskId st reason db) !! id' = None) /\
  task_runs (updateStatus nowMs taskId st reason db) = task_runs db /\
  agent_state (updateStatus nowMs taskId st reason db) = agent_state db.
Proof.
  intros Hrow. unfold updateStatus, setTasks. simpl. repeat split.
  - destruct (decide (id = taskId)) as [->|Hne].
    + rewrite lookup_alter_eq, Hrow. simpl. eexists. split; [reflexivity|].
      simpl. repeat split; congruence.
    + rewrite lookup_alter_ne, Hrow by congruence. exists row.
      repeat split; congruence.
  - intros id' Hnone. destruct (decide (id' = taskId)) as [->|Hne].
    + rewrite lookup_alter_eq, Hnone. reflexivity.
    + rewrite lookup_alter_ne by congruence. exact Hnone.
Qed.

Lemma updateStatus_frame_witness :
  tasks exampleDB !! "t-run"%string
    = Some (exampleRow running 1 None "2025-11-02T10:00:00.000Z") /\
  exists row',
    tasks (updateStatus 1762079940123 "t-run" paused (Some "Blocked by captcha"%string)
                        exampleDB) !! "t-run"%string = Some row' /\
    row_priority row' = 1 /\ created_at row' = "2025-11-02T10:00:00.000Z"%string /\
    row_status row' = paused /\ status_reason row' = Some "Blocked by captcha"%string /\
    updated_at row' = "2025-11-02T10:39:00.123Z"%string.
Proof.
  split; [reflexivity|].
  destruct (updateStatus_frame 1762079940123 "t-run" paused
              (Some "Blocked by captcha"%string) exampleDB "t-run"
              (exampleRow running 1 None "2025-11-02T10:00:00.000Z") eq_refl)
    as ((row' & Hrow' & _ & Hp & _ & _ & _ & Hc & Hnew & _) & _).
  destruct (Hnew eq_refl) as (Hs & Hr & Hu).
  exists row'. repeat split; assumption.
Defined.

End TaskQueueFacts.

(** ** The router and its key-health registry *)

Module LLMRouterFacts.
Import LLMRouter RouterExamples.

Lemma isEntry_iff (p k : string) (e : KeyHealth) :
  isEntry p k e = true <-> provider e = p /\ key e = k.
Proof. unfold isEntry. rewrite andb_true_iff, !String.eqb_eq. tauto. Qed.

Lemma isEntry_mutated (p k : string) (mutate : KeyHealth -> KeyHealth) (e : KeyHealth) :
  keepsName mutate -> isEntry p k (mutate e) = isEntry p k e.
Proof. intros H. unfold isEntry. destruct (H e) as [-> ->]. reflexivity. Qed.

Lemma findEntry_updateFound_same (p k : string) (mutate : KeyHealth -> KeyHealth)
    (kh : list KeyHealth) :
  keepsName mutate ->
  findEntry p k (updateFound (isEntry p k) mutate kh) = mutate <$> findEntry p k kh.
Proof.
  intros Hm. unfold findEntry. induction kh as [|e kh IH]; simpl; [reflexivity|].
  destruct (isEntry p k e) eqn:He; simpl.
  - rewrite (isEntry_mutated p k mutate e Hm), He. reflexivity.
  - rewrite He. exact IH.
Qed.

Lemma findEntry_updateFound_other (p k p' k' : string) (mutate : KeyHealth -> KeyHealth)
    (kh : list KeyHealth) :
  keepsName mutate -> (p, k) <> (p', k') ->
  findEntry p k (updateFound (isEntry p' k') mutate kh) = findEntry p k kh.
Proof.
  intros Hm Hne. unfold findEntry. induction kh as [|e kh IH]; simpl; [reflexivity|].
  destruct (isEntry p' k' e) eqn:He'; simpl.
  - rewrite (isEntry_mutated p k mutate e Hm).
    destruct (isEntry p k e) eqn:He; [|reflexivity].
    apply isEntry_iff in He as [<- <-]. apply isEntry_iff in He' as [<- <-].
    congruence.
  - destruct (isEntry p k e); [reflexivity|exact IH].
Qed.

Lemma map_updateFound {B} (g : KeyHealth -> B) (pred : KeyHealth -> bool)
    (mutate : KeyHealth -> KeyHealth) (kh : list KeyHealth) :
  (forall e, g (mutate e) = g e) ->
  map g (updateFound pred mutate kh) = map g kh.
Proof.
  intros Hg. induction kh as [|e kh IH]; simpl; [reflexivity|].
  destruct (pred e); simpl; [rewrite Hg|rewrite IH]; reflexivity.
Qed.

Lemma keepsName_rateLimit (now : Z) :
  keepsName (fun e => mkKeyHealth (provider e) (key e) (Some (now + RATE_LIMIT_COOLDOWN_MS))
                                  (disabled e) (Some "rate-limited"%string)).
Proof. intros e. split; reflexivity. Qed.

Lemma keepsName_disable (reason : string) :
  keepsName (fun e => mkKeyHealth (provider e) (key e) (cooldownUntil e) true (Some reason)).
Proof. intros e. split; reflexivity. Qed.

Lemma isInsufficientCredits_words (err : JS.Error) :
  creditWords err = true -> isInsufficientCredits err = true.
Proof.
  unfold isInsufficientCredits, creditWords. intros ->.
  destruct (_ || _); reflexivity.
Qed.

Lemma isInsufficientCredits_429 (err : JS.Error) :
  JS.err_status err = Some 429 -> isInsufficientCredits err = creditWords err.
Proof.
  unfold isInsufficientCredits, creditWords. intros ->. reflexivity.
Qed.

(** C5, as the code has it. For a failure whose status is 429: when the
    lower-cased message holds none of "insufficient", "credits", "quota",
    the entry of the credential gets [cooldownUntil] = clock + 60000 and
    keeps its [disabled] flag; when it holds one of them, the entry is
    disabled and its cooldown is left as it was. And an error whose
    message holds one of the words is a credit error whatever its status,
    present or not. *)
Theorem rate_limit_unless_credit_words
    (A : Type) (net : Net A) (p k : string) (err : JS.Error) (d : Dispatch) (e : KeyHealth) :
  JS.err_status err = Some 429 ->
  findEntry p k (health d) = Some e ->
  RATE_LIMIT_COOLDOWN_MS = 60000 /\
  (creditWords err = false ->
   findEntry p k (health (onFailure net p k err d))
     = Some (mkKeyHealth (provider e) (key e)
                         (Some (dateNow net (reads d) + RATE_LIMIT_COOLDOWN_MS))
                         (disabled e) (Some "rate-limited"%string))) /\
  (creditWords err = true ->
   findEntry p k (health (onFailure net p k err d))
     = Some (mkKeyHealth (provider e) (key e) (cooldownUntil e) true
                         (Some (JS.err_message err)))) /\
  (forall err' : JS.Error, creditWords err' = true -> isInsufficientCredits err' = true).
Proof.
  intros Hstatus Hfind. split; [reflexivity|].
  unfold onFailure. rewrite (isInsufficientCredits_429 err Hstatus).
  assert (isRateLimit err = true) as Hrl
    by (unfold isRateLimit; rewrite Hstatus; reflexivity).
  split; [|split].
  - intros ->. rewrite Hrl. simpl. unfold markRateLimit.
    rewrite findEntry_updateFound_same by apply keepsName_rateLimit.
    rewrite Hfind. reflexivity.
  - intros ->. simpl. unfold markDisabled.
    rewrite findEntry_updateFound_same by apply keepsName_disable.
    rewrite Hfind. reflexivity.
  - exact isInsufficientCredits_words.
Qed.

Lemma rate_limit_unless_credit_words_witness :
  JS.err_status busyError = Some 429 /\
  findEntry "openai" "sk-a" (keyHealth oneKey)
    = Some (mkKeyHealth "openai" "sk-a" None false None) /\
  findEntry "openai" "sk-a"
    (health (onFailure (failing busyError) "openai" "sk-a" busyError
                       (mkDispatch (keyHealth oneKey) 1 None 1)))
    = Some (mkKeyHealth "openai" "sk-a" (Some (1762079940124 + 60000)) false
                        (Some "rate-limited"%string)).
Proof.
  split; [reflexivity|]. split; [reflexivity|].
  destruct (rate_limit_unless_credit_words LLMResponse (failing busyError) "openai" "sk-a"
              busyError (mkDispatch (keyHealth oneKey) 1 None 1)
              (mkKeyHealth "openai" "sk-a" None false None) eq_refl eq_refl)
    as (_ & Hcool & _).
  apply Hcool. reflexivity.
Defined.

(** C5 as the specification states it fails: a 429 answer whose text
    mentions the quota leaves the only key of the router disabled for
    good, with no cooldown. *)
Lemma status_429_with_quota_text_disables :
  JS.err_status quotaError = Some 429 /\
  keyHealth (snd (complete (failing quotaError) reasoning oneKey))
    = [mkKeyHealth "openai" "sk-a" None true
                   (Some "OpenAI error 429: You exceeded your current quota"%string)].
Proof. split; reflexivity. Qed.

(** *** Disabled entries stay disabled *)

Lemma noWorse_refl (kh : list KeyHealth) : Forall2 noWorse kh kh.
Proof. induction kh; constructor; [repeat split; tauto|assumption]. Qed.

Lemma noWorse_trans (a b c : list KeyHealth) :
  Forall2 noWorse a b -> Forall2 noWorse b c -> Forall2 noWorse a c.
Proof.
  intros Hab. revert c. induction Hab as [|x y a b Hxy _ IH]; intros c Hbc.
  - inversion Hbc. constructor.
  - inversion Hbc as [|y' z b' c' Hyz Hbc']; subst. constructor; [|apply IH, Hbc'].
    destruct Hxy as (? & ? & ?), Hyz as (? & ? & ?). repeat split; try congruence. tauto.
Qed.

Lemma updateFound_noWorse (pred : KeyHealth -> bool) (mutate : KeyHealth -> KeyHealth)
    (kh : list KeyHealth) :
  (forall e, noWorse e (mutate e)) -> Forall2 noWorse kh (updateFound pred mutate kh).
Proof.
  intros Hm. induction kh as [|e kh IH]; simpl; [constructor|].
  destruct (pred e); constructor; try apply noWorse_refl; try assumption; try apply Hm.
  repeat split; tauto.
Qed.

Lemma markRateLimit_noWorse (now : Z) (p k : string) (kh : list KeyHealth) :
  Forall2 noWorse kh (markRateLimit now p k kh).
Proof. apply updateFound_noWorse. intros e. repeat split; tauto. Qed.

Lemma markDisabled_noWorse (p k reason : string) (kh : list KeyHealth) :
  Forall2 noWorse kh (markDisabled p k reason kh).
Proof. apply updateFound_noWorse. intros e. repeat split; tauto. Qed.

Lemma onFailure_noWorse {A} (net : Net A) (p k : string) (err : JS.Error) (d : Dispatch) :
  Forall2 noWorse (health d) (health (onFailure net p k err d)).
Proof.
  unfold onFailure. destruct (isInsufficientCredits err); simpl.
  - apply markDisabled_noWorse.
  - destruct (isRateLimit err); simpl; [apply markRateLimit_noWorse|apply noWorse_refl].
Qed.

Lemma tryKeys_cons {A} (net : Net A) (p k : string) (rest : list string) (d : Dispatch) :
  tryKeys net p (k :: rest) d =
  if (MAX_RETRIES <=? attempts d)%nat then (d, None)
  else
    let d1 := mkDispatch (health d) (S (attempts d)) (lastErr d) (reads d) in
    match call net (attempts d) p k with
    | JS.Resolved r => (d1, Some r)
    | JS.Rejected err => tryKeys net p rest (onFailure net p k err d1)
    end.
Proof. reflexivity. Qed.

Lemma tryProviders_cons {A} (net : Net A) (skip : string -> bool) (p : string)
    (rest : list string) (d : Dispatch) :
  tryProviders net skip (p :: rest) d =
  if (MAX_RETRIES <=? attempts d)%nat then (d, None)
  else if skip p then tryProviders net skip rest d
  else
    match tryKeys net p (healthyKeysFor (dateNow net (reads d)) (health d) p)
                  (mkDispatch (health d) (attempts d) (lastErr d) (S (reads d))) with
    | (d2, Some r) => (d2, Some r)
    | (d2, None) => tryProviders net skip rest d2
    end.
Proof. reflexivity. Qed.

Lemma tryKeys_noWorse {A} (net : Net A) (p : string) (keys : list string) (d : Dispatch) :
  Forall2 noWorse (health d) (health (fst (tryKeys net p keys d))).
Proof.
  revert d. induction keys as [|k keys IH]; intros d; [apply noWorse_refl|].
  rewrite tryKeys_cons.
  destruct (MAX_RETRIES <=? attempts d)%nat; [apply noWorse_refl|].
  cbv zeta. destruct (call net (attempts d) p k) as [resp|err]; [apply noWorse_refl|].
  eapply noWorse_trans; [|apply IH].
  apply (onFailure_noWorse net p k err
           (mkDispatch (health d) (S (attempts d)) (lastErr d) (reads d))).
Qed.

Lemma tryProviders_noWorse {A} (net : Net A) (skip : string -> bool)
    (providers : list string) (d : Dispatch) :
  Forall2 noWorse (health d) (health (fst (tryProviders net skip providers d))).
Proof.
  revert d. induction providers as [|p providers IH]; intros d; [apply noWorse_refl|].
  rewrite tryProviders_cons.
  destruct (MAX_RETRIES <=? attempts d)%nat; [apply noWorse_refl|].
  destruct (skip p); [apply IH|].
  match goal with |- context [tryKeys net p ?ks ?d1] =>
    pose proof (tryKeys_noWorse net p ks d1) as Hk;
    destruct (tryKeys net p ks d1) as [d2 [resp|]] end; [exact Hk|].
  eapply noWorse_trans; [exact Hk|apply IH].
Qed.

Lemma complete_noWorse (net : Net LLMResponse) (cap : LLMCapability) (r : Router) :
  Forall2 noWorse (keyHealth r) (keyHealth (snd (complete net cap r))).
Proof.
  unfold complete.
  pose proof (tryProviders_noWorse net
                (fun p => bool_decide (cap = embeddings) || negb (hasClient p))
                (providerOrder r) (mkDispatch (keyHealth r) 0 None 0)) as H.
  unfold completeRun. destruct (tryProviders _ _ _ _) as [d [resp|]]; exact H.
Qed.

Lemma embed_noWorse {E} (net : Net E) (r : Router) :
  Forall2 noWorse (keyHealth r) (keyHealth (snd (embed net r))).
Proof.
  unfold embed.
  pose proof (tryProviders_noWorse net (fun p => negb (hasClient p && hasEmbed p))
                (providerOrder r) (mkDispatch (keyHealth r) 0 None 0)) as H.
  unfold embedRun. destruct (tryProviders _ _ _ _) as [d [resp|]]; exact H.
Qed.

Lemma dispatchStep_noWorse (r r' : Router) :
  dispatchStep r r' -> Forall2 noWorse (keyHealth r) (keyHealth r').
Proof.
  destruct 1 as [net cap r|E net r|net r].
  - apply complete_noWorse.
  - apply embed_noWorse.
  - unfold statusPing. pose proof (complete_noWorse net status_ping r) as H.
    destruct (complete net status_ping r) as [[resp|e] r']; exact H.
Qed.

Lemma dispatched_noWorse (r r' : Router) :
  rtc dispatchStep r r' -> Forall2 noWorse (keyHealth r) (keyHealth r').
Proof.
  induction 1 as [r|r r1 r2 Hstep _ IH]; [apply noWorse_refl|].
  eapply noWorse_trans; [apply dispatchStep_noWorse, Hstep|exact IH].
Qed.

(** Membership in the answer of [healthyKeysFor]. *)
Lemma healthyKeysFor_elem (now : Z) (kh : list KeyHealth) (p k : string) :
  k ∈ healthyKeysFor now kh p <->
  exists e, e ∈ kh /\ key e = k /\ healthy now p e = true.
Proof.
  unfold healthyKeysFor. rewrite list_elem_of_In, in_map_iff. split.
  - intros (e & <- & He). apply list_elem_of_In, list_elem_of_filter in He as [He Hin]. eauto.
  - intros (e & Hin & <- & He). exists e. split; [reflexivity|].
    apply list_elem_of_In, list_elem_of_filter. tauto.
Qed.

Lemma markDisabled_all (p k reason : string) (kh : list KeyHealth) :
  NoDup (map nameOf kh) ->
  Forall (fun e => isEntry p k e = true -> disabled e = true) (markDisabled p k reason kh).
Proof.
  unfold markDisabled. induction kh as [|e kh IH]; simpl; intros Hnd; [constructor|].
  apply NoDup_cons in Hnd as [Hnotin Hnd].
  destruct (isEntry p k e) eqn:He.
  - constructor; [reflexivity|]. apply Forall_forall. intros e' Hin He'.
    exfalso. apply Hnotin.
    apply isEntry_iff in He as [<- <-]. apply isEntry_iff in He' as [Hp Hk].
    apply list_elem_of_In, in_map_iff. exists e'. split; [|apply list_elem_of_In, Hin].
    unfold nameOf. congruence.
  - constructor; [congruence|]. apply IH, Hnd.
Qed.

Lemma noWorse_all_disabled (p k : string) (kh kh' : list KeyHealth) :
  Forall2 noWorse kh kh' ->
  Forall (fun e => isEntry p k e = true -> disabled e = true) kh ->
  Forall (fun e => isEntry p k e = true -> disabled e = true) kh'.
Proof.
  induction 1 as [|e e' kh kh' (Hp & Hk & Hd) _ IH]; intros Hall; [constructor|].
  apply Forall_cons in Hall as [He Hall]. constructor; [|apply IH, Hall].
  unfold isEntry in *. rewrite Hp, Hk. tauto.
Qed.

(** A disabled entry is unhealthy at every time. *)
Lemma disabled_unhealthy (now : Z) (p : string) (e : KeyHealth) :
  disabled e = true -> healthy now p e = false.
Proof.
  unfold healthy. intros ->. simpl. apply andb_false_iff. left. apply andb_false_r.
Qed.




(** *** A dispatch in which every attempt is rate-limited *)

Section AllRateLimited.
Context {A : Type} (net : Net A) (Hall : allRateLimited net).

Lemma onFailure_limited (n : nat) (p k : string) (err : JS.Error) (d : Dispatch) :
  call net n p k = JS.Rejected err ->
  onFailure net p k err d =
  mkDispatch (markRateLimit (dateNow net (reads d)) p k (health d))
             (attempts d) (Some err) (S (reads d)).
Proof.
  intros Hcall. destruct (Hall n p k) as (err' & Hcall' & Hst & Hwords).
  rewrite Hcall in Hcall'. injection Hcall' as <-.
  unfold onFailure. rewrite (isInsufficientCredits_429 err Hst), Hwords.
  unfold isRateLimit. rewrite Hst. reflexivity.
Qed.

Lemma findEntry_markRateLimit (now : Z) (p k q k' : string) (kh : list KeyHealth) :
  is_Some (findEntry p k kh) -> is_Some (findEntry p k (markRateLimit now q k' kh)).
Proof.
  intros [e He]. unfold markRateLimit.
  destruct (decide ((p, k) = (q, k'))) as [[= <- <-]|Hne].
  - rewrite findEntry_updateFound_same by apply keepsName_rateLimit.
    rewrite He. eexists. reflexivity.
  - rewrite findEntry_updateFound_other by (apply keepsName_rateLimit || exact Hne).
    rewrite He. eexists. reflexivity.
Qed.

Lemma cooled_marked (i : nat) (p k : string) (kh : list KeyHealth) :
  is_Some (findEntry p k kh) -> cooled net p k (markRateLimit (dateNow net i) p k kh).
Proof.
  intros [e He]. unfold cooled, markRateLimit.
  rewrite findEntry_updateFound_same by apply keepsName_rateLimit.
  rewrite He. eexists _, i. repeat split.
Qed.

Lemma cooled_kept (i : nat) (p k q k' : string) (kh : list KeyHealth) :
  cooled net p k kh -> cooled net p k (markRateLimit (dateNow net i) q k' kh).
Proof.
  intros (e & j & He & Hc & Hl).
  destruct (decide ((p, k) = (q, k'))) as [[= <- <-]|Hne].
  - apply cooled_marked. rewrite He. eexists. reflexivity.
  - exists e, j. unfold markRateLimit.
    rewrite findEntry_updateFound_other by (apply keepsName_rateLimit || exact Hne).
    repeat split; assumption.
Qed.

(** A key that [healthyKeysFor] returns has an entry for [find]. *)
Lemma healthy_key_found (now : Z) (kh : list KeyHealth) (p k : string) :
  k ∈ healthyKeysFor now kh p -> is_Some (findEntry p k kh).
Proof.
  intros (e & Hin & Hkey & Hh)%healthyKeysFor_elem.
  unfold findEntry. destruct (List.find (isEntry p k) kh) as [e'|] eqn:Hfind; [eauto|].
  apply list_elem_of_In in Hin. pose proof (find_none _ _ Hfind e Hin) as Hno.
  unfold healthy in Hh. apply andb_true_iff in Hh as [[Hp _]%andb_true_iff _].
  unfold isEntry in Hno. rewrite Hp, Hkey, String.eqb_refl in Hno. discriminate.
Qed.

(** Marking a key of one provider does not change the healthy keys of
    another. *)
Lemma healthyKeysFor_marked_other (now t : Z) (p q k : string) (kh : list KeyHealth) :
  q <> p ->
  healthyKeysFor now (markRateLimit t q k kh) p = healthyKeysFor now kh p.
Proof.
  intros Hne. unfold healthyKeysFor, markRateLimit.
  induction kh as [|e kh IH]; simpl; [reflexivity|].
  destruct (isEntry q k e) eqn:He; rewrite !filter_cons.
  - apply isEntry_iff in He as [Hq _].
    assert (forall e', provider e' = q -> healthy now p e' = false) as Hno.
    { intros e' He'. unfold healthy. rewrite He'.
      destruct (String.eqb_spec q p); [contradiction|reflexivity]. }
    rewrite (Hno e Hq), (Hno (mkKeyHealth (provider e) (key e) _ _ _) Hq).
    reflexivity.
  - destruct (decide (healthy now p e = true)); simpl; rewrite IH; reflexivity.
Qed.

(** Without cooldowns the healthy keys do not depend on the time. *)
Lemma healthyKeysFor_timeless (now : Z) (kh : list KeyHealth) (p : string) :
  Forall (fun e => cooldownUntil e = None) kh ->
  healthyKeysFor now kh p = healthyKeysFor 0 kh p.
Proof.
  unfold healthyKeysFor. induction 1 as [|e kh He _ IH]; [reflexivity|].
  rewrite !filter_cons.
  assert (healthy now p e = healthy 0 p e) as ->
    by (unfold healthy, cooledDown; rewrite He; reflexivity).
  destruct (decide (healthy 0 p e = true)); simpl; rewrite IH; reflexivity.
Qed.

Lemma tryKeys_limited (p : string) (keys : list string) (d : Dispatch) :
  (attempts d <= 3)%nat ->
  (forall k, In k keys -> is_Some (findEntry p k (health d))) ->
  exists d',
    tryKeys net p keys d = (d', None) /\
    attempts d' = Nat.min 3 (attempts d + length keys) /\
    map nameOf (health d') = map nameOf (health d) /\
    map disabled (health d') = map disabled (health d) /\
    (forall q now, p <> q ->
        healthyKeysFor now (health d') q = healthyKeysFor now (health d) q) /\
    (forall q k, cooled net q k (health d) -> cooled net q k (health d')) /\
    (forall k, In k (firstn (3 - attempts d) keys) -> cooled net p k (health d')) /\
    (attempts d' = attempts d -> lastErr d' = lastErr d) /\
    ((attempts d < attempts d')%nat ->
     exists k err,
       nth_error keys (attempts d' - attempts d - 1) = Some k /\
       call net (attempts d' - 1) p k = JS.Rejected err /\
       lastErr d' = Some err).
Proof.
  revert d. induction keys as [|k keys IH]; intros d Hle Hfound.
  - exists d. split; [reflexivity|]. split; [simpl length; lia|].
    repeat split; try tauto; try lia.
    intros k Hin. rewrite firstn_nil in Hin. destruct Hin.
  - rewrite tryKeys_cons. unfold MAX_RETRIES.
    destruct (Nat.leb_spec 3 (attempts d)) as [Hfull|Hroom].
    + exists d. split; [reflexivity|]. split; [lia|].
      replace (3 - attempts d)%nat with 0%nat by lia.
      repeat split; try tauto; try lia. intros k' [].
    + cbv zeta. destruct (Hall (attempts d) p k) as (err & Hcall & _).
      rewrite Hcall, (onFailure_limited (attempts d) p k err _ Hcall).
      cbn [health attempts lastErr reads].
      destruct (IH (mkDispatch (markRateLimit (dateNow net (reads d)) p k (health d))
                               (S (attempts d)) (Some err) (S (reads d))))
        as (d' & Hrun & Hatt & Hname & Hdis & Hother & Hkept & Htried & Hsame & Hlast);
        [cbn [attempts]; lia
        |intros k' Hin; cbn [health]; apply findEntry_markRateLimit, Hfound;
         right; exact Hin
        |].
      cbn [health attempts lastErr reads] in *. exists d'. split; [exact Hrun|].
      split; [rewrite Hatt; cbn [length]; lia|].
      split; [rewrite Hname; apply map_updateFound; reflexivity|].
      split; [rewrite Hdis; apply map_updateFound; reflexivity|].
      split; [intros q now Hne; rewrite Hother by exact Hne;
              apply healthyKeysFor_marked_other; exact Hne|].
      split; [intros q k' Hc; apply Hkept, cooled_kept, Hc|].
      split.
      { replace (3 - attempts d)%nat with (S (3 - S (attempts d)))%nat by lia.
        rewrite firstn_cons. intros k' [<-|Hin].
        - apply Hkept, cooled_marked, Hfound. left. reflexivity.
        - apply Htried, Hin. }
      split; [intros Heq; exfalso; lia|].
      intros _. destruct (decide (attempts d' = S (attempts d))) as [Heq|Hmore].
      * exists k, err. rewrite Heq.
        replace (S (attempts d) - attempts d - 1)%nat with 0%nat by lia.
        replace (S (attempts d) - 1)%nat with (attempts d) by lia.
        repeat split; [exact Hcall|]. apply Hsame. exact Heq.
      * destruct Hlast as (k' & err' & Hnth & Hcall' & Herr'); [lia|].
        exists k', err'.
        replace (attempts d' - attempts d - 1)%nat
          with (S (attempts d' - S (attempts d) - 1))%nat by lia.
        repeat split; assumption.
Qed.

Lemma tryProviders_limited (skip : string -> bool) (kh0 : list KeyHealth)
    (providers : list string) (d : Dispatch) :
  NoDup providers ->
  (attempts d <= 3)%nat ->
  (forall p now, In p providers ->
      healthyKeysFor now (health d) p = healthyKeysFor 0 kh0 p) ->
  exists d',
    tryProviders net skip providers d = (d', None) /\
    attempts d' = Nat.min 3 (attempts d + length (candidates skip kh0 providers)) /\
    map nameOf (health d') = map nameOf (health d) /\
    map disabled (health d') = map disabled (health d) /\
    (forall q k, cooled net q k (health d) -> cooled net q k (health d')) /\
    (forall q k, In (q, k) (firstn (3 - attempts d) (candidates skip kh0 providers)) ->
                 cooled net q k (health d')) /\
    (attempts d' = attempts d -> lastErr d' = lastErr d) /\
    ((attempts d < attempts d')%nat ->
     exists q k err,
       nth_error (candidates skip kh0 providers) (attempts d' - attempts d - 1)
         = Some (q, k) /\
       call net (attempts d' - 1) q k = JS.Rejected err /\
       lastErr d' = Some err).
Proof.
  revert d. induction providers as [|p providers IH]; intros d Hnd Hle Hfresh.
  - exists d. split; [reflexivity|]. split; [simpl length; lia|].
    repeat split; try tauto; try lia.
    intros q k Hin. rewrite firstn_nil in Hin. destruct Hin.
  - rewrite tryProviders_cons. unfold MAX_RETRIES.
    apply NoDup_cons in Hnd as [Hnotin Hnd].
    destruct (Nat.leb_spec 3 (attempts d)) as [Hfull|Hroom].
    { exists d. split; [reflexivity|]. split; [lia|].
      replace (3 - attempts d)%nat with 0%nat by lia.
      repeat split; try tauto; try lia. intros q k []. }
    unfold candidates. simpl flat_map. fold (candidates skip kh0 providers).
    destruct (skip p) eqn:Hskip.
    { simpl app. apply IH; [exact Hnd|exact Hle|].
      intros q now Hin. apply Hfresh. right. exact Hin. }
    rewrite (Hfresh p) by (left; reflexivity).
    set (ks := healthyKeysFor 0 kh0 p).
    destruct (tryKeys_limited p ks
                (mkDispatch (health d) (attempts d) (lastErr d) (S (reads d))))
      as (d2 & Hrun2 & Hatt2 & Hname2 & Hdis2 & Hother2 & Hkept2 & Htried2 & Hsame2 & Hlast2);
      [exact Hle
      |intros k Hin; cbn [health]; apply (healthy_key_found 0);
       unfold ks in Hin; rewrite <- (Hfresh p 0) in Hin by (left; reflexivity);
       apply list_elem_of_In; exact Hin
      |].
    cbn [health attempts lastErr reads] in Hatt2, Hname2, Hdis2, Hother2, Hkept2, Htried2,
      Hsame2, Hlast2.
    rewrite Hrun2.
    assert (forall q now, In q providers ->
              healthyKeysFor now (health d2) q = healthyKeysFor 0 kh0 q) as Hfresh2.
    { intros q now Hin. rewrite Hother2.
      - apply Hfresh. right. exact Hin.
      - intros ->. apply Hnotin, list_elem_of_In, Hin. }
    destruct (IH d2 Hnd ltac:(rewrite Hatt2; lia) Hfresh2)
      as (d' & Hrun & Hatt & Hname & Hdis & Hkept & Htried & Hsame & Hlast).
    exists d'. split; [exact Hrun|].
    rewrite length_app, length_map.
    split; [rewrite Hatt, Hatt2; lia|].
    split; [congruence|]. split; [congruence|].
    split; [intros q k Hc; apply Hkept, Hkept2, Hc|].
    split.
    { intros q k Hin. rewrite firstn_app, length_map in Hin.
      apply in_app_iff in Hin as [Hin|Hin].
      - rewrite firstn_map in Hin. apply in_map_iff in Hin as (k' & [= <- <-] & Hin).
        apply Hkept, Htried2, Hin.
      - apply Htried. replace (3 - attempts d2)%nat with (3 - attempts d - length ks)%nat
          by (rewrite Hatt2; lia). exact Hin. }
    split.
    { intros Heq. rewrite Hsame, Hsame2; [reflexivity| |]; rewrite ?Hatt2 in *; lia. }
    intros Hmore. destruct (decide (attempts d' = attempts d2)) as [Heq|Hne].
    + destruct Hlast2 as (k & err & Hnth & Hcall & Herr); [lia|].
      exists p, k, err. rewrite Heq.
      rewrite nth_error_app1
        by (rewrite length_map; apply nth_error_Some; rewrite Hnth; discriminate).
      rewrite (map_nth_error _ _ _ Hnth). repeat split; [exact Hcall|].
      rewrite Hsame by exact Heq. exact Herr.
    + destruct Hlast as (q & k & err & Hnth & Hcall & Herr); [rewrite Hatt in *; lia|].
      exists q, k, err.
      assert (attempts d2 = attempts d + length ks)%nat as Hd2
        by (rewrite Hatt, Hatt2 in *; lia).
      rewrite nth_error_app2 by (rewrite length_map; lia).
      rewrite length_map.
      replace (attempts d' - attempts d - 1 - length ks)%nat
        with (attempts d' - attempts d2 - 1)%nat by lia.
      repeat split; assumption.
Qed.

End AllRateLimited.

Lemma candidates_ext (skip skip' : string -> bool) (kh : list KeyHealth)
    (providers : list string) :
  (forall p, skip p = skip' p) ->
  candidates skip kh providers = candidates skip' kh providers.
Proof.
  intros Hext. unfold candidates. induction providers as [|p providers IH]; [reflexivity|].
  simpl. rewrite Hext, IH. reflexivity.
Qed.




End LLMRouterFacts.

(** ** The runner *)

Module AgentRunnerFacts.
Import Types TaskQueue Page AgentRunner RunnerNotions RunnerExamples.

Lemma untouched_refl (w : World) : untouched w w.
Proof. split; reflexivity. Qed.

Lemma untouched_trans (a b c : World) : untouched a b -> untouched b c -> untouched a c.
Proof. intros [? ?] [? ?]. split; congruence. Qed.

Lemma bind_returned {A B} (m : M A) (k : A -> M B) (w w' : World) (a : A) :
  m w = Returned a w' -> bind m k w = k a w'.
Proof. unfold bind. intros ->. reflexivity. Qed.

Lemma bind_threw {A B} (m : M A) (k : A -> M B) (w w' : World) (e : JS.Error) :
  m w = Threw e w' -> bind m k w = Threw e w'.
Proof. unfold bind. intros ->. reflexivity. Qed.

(** [recordStep] always returns: the step is appended, the agent state
    saved, the clock read twice. *)
Lemma recordStep_returns (env : Env) (agentId : string) (task : Task) (stepIdx : nat)
    (stepDesc stepResult : string) (stepOk : bool) (l : Loop) (w : World) :
  exists l' w',
    recordStep env agentId task stepIdx stepDesc stepResult stepOk l w
      = Returned (if negb stepOk && (MAX_CONSECUTIVE_FAILURES <=? consecutiveFailures l)%nat
                  then Break l' else Continue l') w' /\
    loop_steps l' = loop_steps l ++
                    [mkRunStep stepIdx stepDesc stepResult (dateNow env (reads w))] /\
    memory l' = memory l /\
    consecutiveFailures l' = consecutiveFailures l /\
    taskFailed l' = taskFailed l /\
    pauseReason l' = pauseReason l /\
    untouched w w' /\ pointsAt agentId task w'.
Proof.
  unfold recordStep, nowISO, now, write, bind, ret. cbn [db reads].
  destruct (negb stepOk && _); eexists _, _; (split; [reflexivity|]);
    cbn; repeat split; try reflexivity;
    eexists; (split; [apply lookup_insert_eq|reflexivity]).
Qed.

Lemma failureReason_truthy : JS.orUndefined (Some failureReason) = Some failureReason.
Proof. reflexivity. Qed.

Lemma blocked_truthy (x : string) :
  JS.orUndefined (Some (String.append "Blocked by " x)) = Some (String.append "Blocked by " x).
Proof. reflexivity. Qed.

(** What [observe] answers. *)
Lemma observe_cases (env : Env) (task : Task) (stepIdx : nat) (mem : WorkingMemory) :
  (exists u get ps,
      url (payload task) = Some u /\ JS.truthy u = true /\
      getPageState env = Some get /\ get stepIdx = JS.Resolved ps /\
      filter (fun a => isBlocking a = true) (alerts ps) <> [] /\
      observe env task stepIdx mem = inl (blockedReason ps)) \/
  (exists mem', observe env task stepIdx mem = inr mem').
Proof.
  unfold observe.
  destruct (url (payload task)) as [u|]; [|right; eauto].
  destruct (getPageState env) as [get|]; [|right; eauto].
  destruct (JS.truthy u) eqn:Hu; [|right; eauto].
  destruct (get stepIdx) as [ps|e] eqn:Hget; [|right; eauto].
  destruct (filter _ (alerts ps)) as [|a rest] eqn:Hf; [right; eauto|].
  left. exists u, get, ps. unfold blockedReason. rewrite Hf.
  repeat split; try assumption; discriminate.
Qed.

(** An iteration always returns; it writes neither [tasks] nor
    [task_runs]. When it breaks, nothing was recorded and the world is
    as it was; when it goes on, exactly one step was recorded. *)
Lemma stepBody_returns (env : Env) (agentId : string) (task : Task) (stepIdx : nat)
    (item : option string) (l : Loop) (w : World) :
  exists c w',
    stepBody env agentId task stepIdx item l w = Returned c w' /\
    untouched w w' /\
    (pointsAt agentId task w -> pointsAt agentId task w') /\
    match c with
    | Break l' =>
        w' = w /\ loop_steps l' = loop_steps l /\
        ((exists x, pauseReason l' = Some (String.append "Blocked by " x) /\
                    taskFailed l' = taskFailed l) \/
         (pauseReason l' = Some failureReason /\ taskFailed l' = true /\
          (MAX_CONSECUTIVE_FAILURES <= consecutiveFailures l')%nat))
    | Continue l' =>
        length (loop_steps l') = S (length (loop_steps l)) /\
        pauseReason l' = pauseReason l /\ taskFailed l' = taskFailed l
    end.
Proof.
  unfold stepBody.
  destruct (observe env task stepIdx (setStepIndex stepIdx (memory l))) as [reason|mem'] eqn:Hobs.
  - destruct (observe_cases env task stepIdx (setStepIndex stepIdx (memory l)))
      as [(u & get & ps & _ & _ & _ & _ & _ & Hobs')|(mem' & Hobs')];
      rewrite Hobs in Hobs'; [|discriminate]. injection Hobs' as ->.
    eexists _, w. split; [reflexivity|]. split; [apply untouched_refl|].
    split; [tauto|].
    cbn. repeat split. left. eexists. split; reflexivity.
  - destruct (stepCompletion env stepIdx) as [text|err].
    + destruct (recordStep_returns env agentId task stepIdx (default "Execute goal"%string item)
                  (JS.trim text) true
                  (mkLoop (loop_steps l) mem' 0 (taskFailed l) (pauseReason l)) w)
        as (l' & w' & Hrec & Hsteps & _ & _ & Hfail & Hreason & Hunt & Hpt).
      cbn [negb andb] in Hrec. rewrite Hrec. exists (Continue l'), w'.
      split; [reflexivity|]. split; [exact Hunt|]. split; [intros _; exact Hpt|].
      cbn [loop_steps taskFailed pauseReason] in *.
      rewrite Hsteps, length_app. cbn [length]. repeat split; try assumption. lia.
    + destruct (Nat.leb_spec MAX_CONSECUTIVE_FAILURES (S (consecutiveFailures l)))
        as [Hmax|Hless].
      * eexists _, w. split; [reflexivity|]. split; [apply untouched_refl|].
        split; [tauto|].
        cbn. repeat split. right. repeat split. exact Hmax.
      * destruct (recordStep_returns env agentId task stepIdx
                    (default "Execute goal"%string item)
                    (String.append "Error: " (JS.err_message err)) false
                    (mkLoop (loop_steps l) mem' (S (consecutiveFailures l)) (taskFailed l)
                            (pauseReason l)) w)
          as (l' & w' & Hrec & Hsteps & _ & _ & Hfail & Hreason & Hunt & Hpt).
        cbn [consecutiveFailures] in Hrec.
        destruct (Nat.leb_spec MAX_CONSECUTIVE_FAILURES (S (consecutiveFailures l)));
          [lia|].
        cbn [negb andb] in Hrec. rewrite Hrec. exists (Continue l'), w'.
        split; [reflexivity|]. split; [exact Hunt|]. split; [intros _; exact Hpt|].
        cbn [loop_steps taskFailed pauseReason] in *.
        rewrite Hsteps, length_app. cbn [length]. repeat split; try assumption. lia.
Qed.


Lemma stepLoop_cons (env : Env) (agentId : string) (task : Task) (item : option string)
    (rest : list (option string)) (stepIdx : nat) (l : Loop) (w : World) :
  stepLoop env agentId task (item :: rest) stepIdx l w =
  if negb (stepIdx <? MAX_STEPS_PER_RUN)%nat then Returned l w
  else if negb (runningAtStep env stepIdx) then Returned l w
  else
    match stepBody env agentId task stepIdx item l w with
    | Returned (Break l') w' => Returned l' w'
    | Returned (Continue l') w' => stepLoop env agentId task rest (S stepIdx) l' w'
    | Threw e w' => Threw e w'
    end.
Proof.
  cbn [stepLoop]. destruct (negb (stepIdx <? MAX_STEPS_PER_RUN)%nat); [reflexivity|].
  destruct (negb (runningAtStep env stepIdx)); [reflexivity|].
  unfold bind. destruct (stepBody env agentId task stepIdx item l w) as [[l'|l'] w'|e w'];
    reflexivity.
Qed.

(** The step loop always returns; it writes neither [tasks] nor
    [task_runs], leaves the agent state pointing at the task, and sets
    the failure flag only with its reason. *)
Lemma stepLoop_returns (env : Env) (agentId : string) (task : Task)
    (rest : list (option string)) (stepIdx : nat) (l : Loop) (w : World) :
  running_on l ->
  exists l' w',
    stepLoop env agentId task rest stepIdx l w = Returned l' w' /\
    untouched w w' /\
    (pointsAt agentId task w -> pointsAt agentId task w') /\
    failedWithReason l'.
Proof.
  revert stepIdx l w. induction rest as [|item rest IH]; intros stepIdx l w [Hf0 Hr0].
  - exists l, w. repeat split; [tauto|]. intros Hf. congruence.
  - rewrite stepLoop_cons.
    destruct (negb (stepIdx <? MAX_STEPS_PER_RUN)%nat);
      [exists l, w; repeat split; [tauto|intros Hf; congruence]|].
    destruct (negb (runningAtStep env stepIdx));
      [exists l, w; repeat split; [tauto|intros Hf; congruence]|].
    destruct (stepBody_returns env agentId task stepIdx item l w)
      as ([l1|l1] & w1 & Hbody & Hunt & Hpt & Hc); rewrite Hbody.
    + exists l1, w1. split; [reflexivity|]. split; [exact Hunt|]. split; [exact Hpt|].
      destruct Hc as (_ & _ & [(x & Hr & Hf)|(Hr & _)]).
      * intros Hfailed. congruence.
      * intros _. exact Hr.
    + destruct Hc as (_ & Hr & Hf).
      destruct (IH (S stepIdx) l1 w1) as (l' & w' & Hrun & Hunt' & Hpt' & Hinv').
      { split; congruence. }
      exists l', w'. split; [exact Hrun|]. split; [|split; [tauto|exact Hinv']].
      eapply untouched_trans; eassumption.
Qed.

(** The iterations before [length pre], when none of them stopped the
    loop, lead into the rest of the plan, one recorded step each. *)
Lemma stepLoop_app (env : Env) (agentId : string) (task : Task)
    (pre suffix : list (option string)) (start : nat) (l0 l : Loop) (w0 w : World) :
  (forall j, (j < length pre)%nat -> runningAtStep env (start + j) = true) ->
  (start + length pre <= MAX_STEPS_PER_RUN)%nat ->
  stepLoop env agentId task pre start l0 w0 = Returned l w ->
  running_on l0 -> pauseReason l = None ->
  stepLoop env agentId task (pre ++ suffix) start l0 w0
    = stepLoop env agentId task suffix (start + length pre) l w /\
  length (loop_steps l) = (length (loop_steps l0) + length pre)%nat /\
  running_on l.
Proof.
  revert start l0 w0.
  induction pre as [|item pre IH]; intros start l0 w0 Hrun Hmax Hloop Hon Hnone.
  - cbn in Hloop. injection Hloop as <- <-. cbn [app length].
    rewrite !Nat.add_0_r. repeat split; apply Hon.
  - cbn [app length] in *. rewrite stepLoop_cons in Hloop |- *.
    destruct (Nat.ltb_spec start MAX_STEPS_PER_RUN) as [_|Hge]; [|lia].
    cbn [negb] in *.
    pose proof (Hrun 0%nat ltac:(lia)) as Hrun0. rewrite Nat.add_0_r in Hrun0.
    rewrite Hrun0 in Hloop |- *. cbn [negb] in *.
    destruct (stepBody_returns env agentId task start item l0 w0)
      as ([l1|l1] & w1 & Hbody & _ & _ & Hc); rewrite Hbody in Hloop |- *.
    + injection Hloop as <- <-.
      destruct Hc as (_ & _ & [(x & Hr & _)|(Hr & _)]); congruence.
    + destruct Hc as (Hlen & Hr & Hf). destruct Hon as [Hf0 Hr0].
      destruct (IH (S start) l1 w1) as (Happ & Hlen' & Hon'); try assumption.
      * intros j Hj. replace (S start + j)%nat with (start + S j)%nat by lia.
        apply Hrun. lia.
      * lia.
      * split; congruence.
      * rewrite Happ. replace (S start + length pre)%nat with (start + S (length pre))%nat
          by lia.
        repeat split; [lia|apply Hon'|apply Hon'].
Qed.

(** The iteration that sees a blocking alert stops the loop there. *)
Lemma stepLoop_blocked (env : Env) (agentId : string) (task : Task) (item : option string)
    (rest : list (option string)) (stepIdx : nat) (l : Loop) (w : World) (reason : string) :
  (stepIdx < MAX_STEPS_PER_RUN)%nat ->
  runningAtStep env stepIdx = true ->
  observe env task stepIdx (setStepIndex stepIdx (memory l)) = inl reason ->
  stepLoop env agentId task (item :: rest) stepIdx l w
    = Returned (blockedAt stepIdx reason l) w.
Proof.
  intros Hlt Hrun Hobs. rewrite stepLoop_cons.
  destruct (Nat.ltb_spec stepIdx MAX_STEPS_PER_RUN); [|lia].
  rewrite Hrun. cbn [negb]. unfold stepBody. rewrite Hobs. reflexivity.
Qed.


(** [prepare] returns when the memory search does, and throws what the
    search throws; either way the agent state points at the task and
    [tasks] and [task_runs] are as they were. *)
Lemma prepare_outcome (env : Env) (agentId : string) (task : Task) (w : World) :
  exists mem1 w1,
    match episodicSearch env with
    | JS.Resolved _ =>
        prepare env agentId task w
          = Returned (JS.toISOString (dateNow env (reads w)), mem1) w1
    | JS.Rejected e => prepare env agentId task w = Threw e w1
    end /\
    untouched w w1 /\ pointsAt agentId task w1.
Proof.
  unfold prepare, nowISO, now, read, write, await, bind, ret. cbn [db reads].
  destruct (episodicSearch env); [eexists _, _|exists emptyMemory; eexists];
    (split; [reflexivity|]); (split; [split; reflexivity|]);
    (eexists; split; [apply lookup_insert_eq|reflexivity]).
Qed.

Lemma updateStatus_status (t : Z) (task : Task) (st : TaskStatus) (reason : option string)
    (d : DB) (row : TaskRow) :
  tasks d !! id task = Some row ->
  (fun r => (row_status r, status_reason r))
    <$> tasks (updateStatus t (id task) st reason d) !! id task
  = Some (st, reason).
Proof.
  intros Hrow. unfold updateStatus, setTasks. cbn [tasks].
  rewrite lookup_alter_eq, Hrow. reflexivity.
Qed.

Lemma requeueRecurring_status (t t' : Z) (task : Task) (d : DB) (row : TaskRow) :
  tasks d !! id task = Some row ->
  recurrence task <> None -> recurrence task <> Some once ->
  (fun r => (row_status r, status_reason r))
    <$> tasks (requeueRecurring t t' task d) !! id task
  = Some (queued, None) /\
  task_runs (requeueRecurring t t' task d) = task_runs d /\
  agent_state (requeueRecurring t t' task d) = agent_state d.
Proof.
  intros Hrow Hsome Hnot. unfold requeueRecurring.
  destruct (recurrence task) as [[| |]|]; try congruence;
    unfold setTasks; cbn [tasks task_runs agent_state];
    rewrite lookup_alter_eq, Hrow; repeat split.
Qed.

(** The success path writes [done], or [queued] for a recurring task,
    and then returns or throws as the memory's [store] does. *)
Lemma succeed_outcome (env : Env) (task : Task) (w : World) (row : TaskRow) :
  tasks (db w) !! id task = Some row ->
  exists w1 st,
    match episodicStore env with
    | JS.Resolved _ => succeed env task w = Returned tt w1
    | JS.Rejected e => succeed env task w = Threw e w1
    end /\
    statusOf task w1 = Some (st, None) /\ (st = done \/ st = queued) /\
    task_runs (db w1) = task_runs (db w) /\
    agent_state (db w1) = agent_state (db w).
Proof.
  intros Hrow. unfold succeed, now, write, await, bind, ret, statusOf. cbn [db reads].
  destruct (recurrence task) as [[| |]|] eqn:Hrec.
  - eexists _, done. split; [destruct (episodicStore env) as [[]|e]; reflexivity|].
    cbn [db]. split; [apply (updateStatus_status _ _ _ _ _ _ Hrow)|]. repeat split. tauto.
  - eexists _, queued. split; [destruct (episodicStore env) as [[]|e]; reflexivity|].
    cbn [db].
    destruct (requeueRecurring_status (dateNow env (reads w)) (dateNow env (S (reads w)))
                task (db w) row Hrow) as (Hst & Hruns & Hagent); try congruence.
    repeat split; try assumption. tauto.
  - eexists _, queued. split; [destruct (episodicStore env) as [[]|e]; reflexivity|].
    cbn [db].
    destruct (requeueRecurring_status (dateNow env (reads w)) (dateNow env (S (reads w)))
                task (db w) row Hrow) as (Hst & Hruns & Hagent); try congruence.
    repeat split; try assumption. tauto.
  - eexists _, done. split; [destruct (episodicStore env) as [[]|e]; reflexivity|].
    cbn [db]. split; [apply (updateStatus_status _ _ _ _ _ _ Hrow)|]. repeat split. tauto.
Qed.


(** A run that ends with a reason ends [paused] with that reason, its
    TaskRun persisted and the agent state cleared. *)
Lemma conclude_paused (env : Env) (agentId : string) (task : Task) (startedAt : string)
    (l : Loop) (w : World) (reason : string) (row : TaskRow) :
  JS.orUndefined (pauseReason l) = Some reason ->
  tasks (db w) !! id task = Some row ->
  exists wf,
    conclude env agentId task startedAt l w = Returned tt wf /\
    statusOf task wf = Some (paused, Some reason) /\
    runPersisted env task (loop_steps l) wf /\
    pointsNowhere agentId wf.
Proof.
  intros Hreason Hrow.
  unfold conclude, finish, nowISO, now, write, bind, ret. cbn [db reads].
  rewrite Hreason. cbn [db reads]. eexists. split; [reflexivity|].
  unfold statusOf, runPersisted, pointsNowhere. cbn [db tasks task_runs agent_state
    saveAgentState saveTaskRun].
  split; [apply (updateStatus_status _ _ _ _ _ _ Hrow)|]. split.
  - eexists. split; [apply lookup_insert_eq|]. cbn. repeat split. eexists. reflexivity.
  - eexists. split; [apply lookup_insert_eq|]. reflexivity.
Qed.

(** A run that ends without a reason takes the success path: it is never
    marked [failed]. With a memory whose [store] returns, the TaskRun is
    persisted and the agent state cleared; with one whose [store] throws,
    the error leaves [conclude] after the status was written and before
    anything else is. *)
Lemma conclude_success (env : Env) (agentId : string) (task : Task) (startedAt : string)
    (l : Loop) (w : World) (row : TaskRow) :
  JS.orUndefined (pauseReason l) = None ->
  failedWithReason l ->
  tasks (db w) !! id task = Some row ->
  exists wf st,
    match episodicStore env with
    | JS.Resolved _ =>
        conclude env agentId task startedAt l w = Returned tt wf /\
        runPersisted env task (loop_steps l) wf /\ pointsNowhere agentId wf
    | JS.Rejected e =>
        conclude env agentId task startedAt l w = Threw e wf /\
        task_runs (db wf) = task_runs (db w) /\
        agent_state (db wf) = agent_state (db w)
    end /\
    statusOf task wf = Some (st, None) /\ (st = done \/ st = queued).
Proof.
  intros Hnone Hinv Hrow.
  assert (taskFailed l = false) as Hnf.
  { destruct (taskFailed l) eqn:Hf; [|reflexivity].
    rewrite (Hinv Hf) in Hnone. discriminate. }
  destruct (succeed_outcome env task (mkWorld (db w) (S (reads w))) row Hrow)
    as (w1 & st & Hrun & Hst & Hcases & Hruns & Hagent).
  unfold conclude, finish, nowISO, now, write, bind, ret. cbn [db reads].
  rewrite Hnone, Hnf. cbn [db reads] in *.
  destruct (episodicStore env) as [[]|e]; rewrite Hrun.
  - eexists _, st. cbn [db reads]. split; [split; [reflexivity|]|].
    + unfold runPersisted, pointsNowhere.
      cbn [db tasks task_runs agent_state saveAgentState saveTaskRun]. split.
      * eexists. split; [apply lookup_insert_eq|]. cbn. repeat split. eexists. reflexivity.
      * eexists. split; [apply lookup_insert_eq|]. reflexivity.
    + unfold statusOf in *.
      cbn [db tasks task_runs agent_state saveAgentState saveTaskRun].
      split; [exact Hst|exact Hcases].
  - exists w1, st. repeat split; assumption.
Qed.



(** *** Text that holds a given word *)

Lemma prefix_refl (s : string) : String.prefix s s = true.
Proof.
  induction s as [|c s IH]; [reflexivity|]. cbn.
  destruct (ascii_dec c c); [exact IH|congruence].
Qed.

Lemma prefix_append (s a b : string) :
  String.prefix s a = true -> String.prefix s (String.append a b) = true.
Proof.
  revert a. induction s as [|c s IH]; intros a;
    [intros _; destruct (String.append a b); reflexivity|].
  destruct a as [|c' a]; [discriminate|]. intros H.
  change (String.append (String c' a) b) with (String c' (String.append a b)).
  cbn [String.prefix] in *.
  destruct (ascii_dec c c'); [apply IH, H|discriminate].
Qed.

Lemma includes_prefix (hay needle : string) :
  String.prefix needle hay = true -> JS.includes hay needle = true.
Proof. intros H. destruct hay; cbn in *; rewrite H; reflexivity. Qed.

Lemma includes_append_r (a b needle : string) :
  JS.includes b needle = true -> JS.includes (String.append a b) needle = true.
Proof.
  intros H. induction a as [|c a IH]; [exact H|].
  change (String.append (String c a) b) with (String c (String.append a b)).
  change (JS.includes (String c (String.append a b)) needle)
    with (String.prefix needle (String c (String.append a b))
          || JS.includes (String.append a b) needle).
  rewrite IH. apply orb_true_r.
Qed.

Lemma includes_append_l (a b needle : string) :
  JS.includes a needle = true -> JS.includes (String.append a b) needle = true.
Proof.
  induction a as [|c a IH]; intros H.
  - destruct needle; [|discriminate]. apply includes_prefix. destruct b; reflexivity.
  - change (String.append (String c a) b) with (String c (String.append a b)).
    change (JS.includes (String c (String.append a b)) needle)
      with (String.prefix needle (String c (String.append a b))
            || JS.includes (String.append a b) needle).
    change (JS.includes (String c a) needle)
      with (String.prefix needle (String c a) || JS.includes a needle) in H.
    apply orb_true_iff. apply orb_true_iff in H as [H|H].
    + left. exact (prefix_append needle (String c a) b H).
    + right. exact (IH H).
Qed.

Lemma includes_join (sep x : string) (xs : list string) :
  In x xs -> JS.includes (JS.join sep xs) x = true.
Proof.
  unfold JS.join. induction xs as [|y xs IH]; [intros []|].
  intros Hin. destruct xs as [|z xs].
  - destruct Hin as [->|[]]. cbn. apply includes_prefix, prefix_refl.
  - cbn [String.concat]. destruct Hin as [->|Hin].
    + apply includes_append_l, includes_prefix, prefix_refl.
    + apply includes_append_r, includes_append_r, IH, Hin.
Qed.

Lemma isBlocking_iff (a : PageAlert) :
  isBlocking a = true <-> alert_type a = captcha \/ alert_type a = twoFA.
Proof.
  unfold isBlocking. rewrite orb_true_iff, !bool_decide_eq_true. tauto.
Qed.

(** The reason given for a page names the type of each of its blocking
    alerts. *)
Lemma blockedReason_mentions (ps : PageState) (a : PageAlert) :
  In a (alerts ps) -> alert_type a = captcha \/ alert_type a = twoFA ->
  JS.includes (blockedReason ps) (alertTypeText (alert_type a)) = true.
Proof.
  intros Hin Htype. unfold blockedReason. apply includes_append_r, includes_join.
  apply in_map_iff. exists a. split; [reflexivity|].
  apply list_elem_of_In, list_elem_of_filter. split; [|apply list_elem_of_In, Hin].
  apply isBlocking_iff, Htype.
Qed.

Lemma observe_blocked (env : Env) (task : Task) (stepIdx : nat) (mem : WorkingMemory)
    (u : string) (get : nat -> JS.Result PageState) (ps : PageState) (a : PageAlert) :
  url (payload task) = Some u -> JS.truthy u = true ->
  getPageState env = Some get -> get stepIdx = JS.Resolved ps ->
  In a (alerts ps) -> alert_type a = captcha \/ alert_type a = twoFA ->
  observe env task stepIdx mem = inl (blockedReason ps).
Proof.
  intros Hurl Hu Hget Hps Hin Htype. unfold observe, blockedReason.
  rewrite Hurl, Hget, Hu, Hps.
  destruct (filter _ (alerts ps)) as [|b rest] eqn:Hf; [|reflexivity].
  exfalso. assert (a ∈ filter (fun a => isBlocking a = true) (alerts ps)) as Ha.
  { apply list_elem_of_filter. split; [apply isBlocking_iff, Htype|apply list_elem_of_In, Hin]. }
  rewrite Hf in Ha. inversion Ha.
Qed.

(** C9. A run that reaches step [length pre] with the runner running,
    none of the earlier steps having stopped the loop, and whose page
    observation at that step reports an alert of type captcha or 2fa:
    [executeTask] returns with the task [paused], the reason being
    "Blocked by " and the types of the blocking alerts, each of which the
    reason names; the TaskRun persisted holds the steps recorded before
    that step, one per earlier step, and none for the step of the alert
    or a later one; the agent state points at no task. *)
Theorem blocking_alert_pauses_run
    (env : Env) (agentId : string) (task : Task) (w0 : World) (row : TaskRow)
    (pre rest : list (option string)) (item : option string)
    (startedAt : string) (mem1 : WorkingMemory) (w1 : World) (l : Loop) (w : World)
    (u : string) (get : nat -> JS.Result PageState) (ps : PageState) :
  tasks (db w0) !! id task = Some row ->
  prepare env agentId task w0 = Returned (startedAt, mem1) w1 ->
  buildPlan env task = pre ++ item :: rest ->
  (length pre < MAX_STEPS_PER_RUN)%nat ->
  (forall j, (j <= length pre)%nat -> runningAtStep env j = true) ->
  stepLoop env agentId task pre 0 (startLoop (buildPlan env task) mem1) w1 = Returned l w ->
  pauseReason l = None ->
  url (payload task) = Some u -> JS.truthy u = true ->
  getPageState env = Some get -> get (length pre) = JS.Resolved ps ->
  (exists a, In a (alerts ps) /\ (alert_type a = captcha \/ alert_type a = twoFA)) ->
  exists wf,
    executeTask env agentId task w0 = Returned tt wf /\
    statusOf task wf = Some (paused, Some (blockedReason ps)) /\
    runPersisted env task (loop_steps l) wf /\
    length (loop_steps l) = length pre /\
    pointsNowhere agentId wf /\
    (forall a, In a (alerts ps) -> alert_type a = captcha \/ alert_type a = twoFA ->
               JS.includes (blockedReason ps) (alertTypeText (alert_type a)) = true).
Proof.
  intros Hrow Hprep Hplan Hlt Hrunning Hpre Hnone Hurl Hu Hget Hps (a & Hin & Htype).
  assert (tasks (db w1) = tasks (db w0)) as Ht1.
  { destruct (prepare_outcome env agentId task w0) as (m & w1' & Hp & [Ht _] & _).
    destruct (episodicSearch env); rewrite Hprep in Hp; [|discriminate].
    injection Hp as _ _ <-. exact Ht. }
  assert (tasks (db w) = tasks (db w1)) as Ht2.
  { destruct (stepLoop_returns env agentId task pre 0
                (startLoop (buildPlan env task) mem1) w1)
      as (l' & w' & Hrun & [Ht _] & _); [split; reflexivity|].
    rewrite Hpre in Hrun. injection Hrun as _ <-. exact Ht. }
  destruct (stepLoop_app env agentId task pre (item :: rest) 0
              (startLoop (buildPlan env task) mem1) l w1 w)
    as (Happ & Hlen & Hon); try assumption.
  { intros j Hj. apply Hrunning. cbn. lia. }
  { cbn [Nat.add]. lia. }
  { split; reflexivity. }
  cbn [Nat.add] in Happ. cbn [startLoop loop_steps length Nat.add] in Hlen.
  rewrite (stepLoop_blocked env agentId task item rest (length pre) l w (blockedReason ps))
    in Happ.
  - destruct (conclude_paused env agentId task startedAt
                (blockedAt (length pre) (blockedReason ps) l) w (blockedReason ps) row)
      as (wf & Hrun & Hst & Hper & Hclear).
    { reflexivity. }
    { congruence. }
    exists wf. unfold executeTask.
    rewrite (bind_returned _ _ _ _ _ Hprep). cbn [fst snd].
    rewrite Hplan in Happ |- *. rewrite (bind_returned _ _ _ _ _ Happ).
    repeat split; try assumption.
    intros b Hb Hbt. apply blockedReason_mentions; assumption.
  - exact Hlt.
  - apply Hrunning. lia.
  - apply (observe_blocked env task (length pre) _ u get ps a); assumption.
Qed.


Lemma blocking_alert_pauses_run_witness :
  exists wf,
    executeTask captchaAtSecondStep "agent-A" likePost claimedWorld = Returned tt wf /\
    statusOf likePost wf = Some (paused, Some "Blocked by captcha, 2fa"%string) /\
    runPersisted captchaAtSecondStep likePost
      [mkRunStep 0 "Open the home page" "done" 1762079940125] wf /\
    pointsNowhere "agent-A" wf.
Proof.
  edestruct (blocking_alert_pauses_run captchaAtSecondStep "agent-A" likePost claimedWorld
               (mkRow "agent-A" running 3 likePayload None None None
                      "2025-11-02T10:00:00.000Z" "2025-11-02T10:38:59.000Z")
               [Some "Open the home page"%string] [Some "Press like"%string]
               (Some "Find the latest post"%string))
    as (wf & Hrun & Hst & Hper & _ & Hclear & _).
  - reflexivity.
  - vm_compute. reflexivity.
  - reflexivity.
  - cbn. unfold MAX_STEPS_PER_RUN. lia.
  - intros j _. reflexivity.
  - vm_compute. reflexivity.
  - reflexivity.
  - reflexivity.
  - reflexivity.
  - reflexivity.
  - reflexivity.
  - exists (mkAlert captcha "recaptcha"). split; [right; left; reflexivity|left; reflexivity].
  - exists wf. repeat split; assumption.
Defined.



(** When the memory's [store] throws, the task is already [done], and
    neither the TaskRun is saved nor the agent state cleared. *)
Lemma store_error_loses_run :
  exists w',
    executeTask storeThrows "agent-A" likePost claimedWorld = Threw memoryDown w' /\
    statusOf likePost w' = Some (done, None) /\
    task_runs (db w') !! "run-1"%string = None /\
    (current_task_id <$> agent_state (db w') !! "agent-A"%string) = Some (Some "t-1"%string).
Proof. eexists. split; [vm_compute; reflexivity|]. repeat split. Qed.

(** *** The failure threshold *)

(** Whenever the loop has set the failure flag, the run ends [paused]
    with the reason of the failure count: the branch that writes
    [failed] is never taken. *)
Lemma failure_flag_ends_paused (env : Env) (agentId : string) (task : Task)
    (startedAt : string) (l : Loop) (w : World) (row : TaskRow) :
  failedWithReason l -> taskFailed l = true ->
  tasks (db w) !! id task = Some row ->
  exists wf,
    conclude env agentId task startedAt l w = Returned tt wf /\
    statusOf task wf = Some (paused, Some failureReason).
Proof.
  intros Hinv Hf Hrow.
  destruct (conclude_paused env agentId task startedAt l w failureReason row)
    as (wf & Hrun & Hst & _); [rewrite (Hinv Hf); reflexivity|exact Hrow|].
  exists wf. tauto.
Qed.


(** *** The plan *)

(** The three ways the planner's answer becomes a plan when no array is
    parsed from it. *)
Lemma buildPlan_without_array (env : Env) (task : Task) :
  (forall e, planCompletion env = JS.Rejected e ->
             buildPlan env task = [Some (goal (payload task))]) /\
  (forall text m, planCompletion env = JS.Resolved text ->
                  JS.matchBracketed text = Some m -> JSON_parse env m = None ->
                  buildPlan env task = [Some (goal (payload task))]) /\
  (forall text, planCompletion env = JS.Resolved text ->
                JS.matchBracketed text = None ->
                buildPlan env task = []).
Proof.
  unfold buildPlan. repeat split.
  - intros e ->. reflexivity.
  - intros text m -> -> ->. reflexivity.
  - intros text -> ->. reflexivity.
Qed.

(** C3 on the code: an answer without any bracketed text. Whatever
    [JSON.parse] does, the plan is empty, not the goal as its one step;
    the run executes no step and the task ends [done]. *)
Theorem plan_without_brackets_is_empty (parse : string -> option (list (option string))) :
  JS.matchBracketed "I cannot produce a plan." = None /\
  buildPlan (noArray parse) likePost = [] /\
  buildPlan (noArray parse) likePost <> [Some (goal (payload likePost))] /\
  exists wf,
    executeTask (noArray parse) "agent-A" likePost claimedWorld = Returned tt wf /\
    statusOf likePost wf = Some (done, None) /\
    runPersisted (noArray parse) likePost [] wf.
Proof.
  split; [reflexivity|]. split; [reflexivity|]. split; [discriminate|].
  eexists. split; [vm_compute; reflexivity|]. split; [reflexivity|].
  eexists. split; [reflexivity|]. repeat split. eexists. reflexivity.
Qed.

End AgentRunnerFacts.

(** ** Text: [trim], [split] and [slice] *)

Module TextLaws.

Lemma trimStart_head (s : string) (c : ascii) (r : string) :
  JS.trimStart s = String c r -> JS.isSpace c = false.
Proof.
  induction s as [|a s IH]; cbn [JS.trimStart]; [discriminate|].
  destruct (JS.isSpace a) eqn:Ha; [exact IH|].
  intros [= <- <-]. exact Ha.
Qed.

Lemma trimEnd_head (c : ascii) (r : string) :
  JS.isSpace c = false -> exists r', JS.trimEnd (String c r) = String c r'.
Proof.
  intros Hc. cbn [JS.trimEnd]. rewrite Hc.
  destruct (JS.trimEnd r); eauto.
Qed.

Lemma trimEnd_idem (s : string) : JS.trimEnd (JS.trimEnd s) = JS.trimEnd s.
Proof.
  induction s as [|c s IH]; [reflexivity|].
  cbn [JS.trimEnd]. destruct (JS.trimEnd s) as [|c' r'] eqn:Hs.
  - destruct (JS.isSpace c) eqn:Hc; [reflexivity|].
    cbn [JS.trimEnd]. rewrite Hc. reflexivity.
  - change (JS.trimEnd (String c (String c' r')))
      with (match JS.trimEnd (String c' r') with
            | EmptyString => if JS.isSpace c then EmptyString else String c EmptyString
            | r'' => String c r''
            end).
    rewrite IH. reflexivity.
Qed.

Lemma trim_idem (s : string) : JS.trim (JS.trim s) = JS.trim s.
Proof.
  unfold JS.trim. destruct (JS.trimStart s) as [|c r] eqn:Hs; [reflexivity|].
  pose proof (trimStart_head _ _ _ Hs) as Hc.
  destruct (trimEnd_head c r Hc) as (r' & Hr'). rewrite Hr'.
  cbn [JS.trimStart]. rewrite Hc, <- Hr'. apply trimEnd_idem.
Qed.

(** [s.includes(",")], on the characters of [s]. *)
Lemma includes_comma (c : ascii) (s : string) :
  JS.includes (String c s) "," = Ascii.eqb c ","%char || JS.includes s ",".
Proof.
  cbn [JS.includes String.prefix].
  destruct (ascii_dec "," c) as [<-|Hne].
  - destruct s; reflexivity.
  - destruct (Ascii.eqb_spec c ","%char) as [->|_]; [congruence|]. reflexivity.
Qed.

Lemma splitComma_pieces (s : string) :
  Forall (fun piece => JS.includes piece "," = false) (JS.splitComma s).
Proof.
  induction s as [|c s IH]; cbn [JS.splitComma].
  - constructor; [reflexivity|constructor].
  - destruct (Ascii.eqb c ","%char) eqn:Hc.
    + constructor; [reflexivity|exact IH].
    + destruct (JS.splitComma s) as [|h t].
      * constructor; [|constructor]. rewrite includes_comma, Hc. reflexivity.
      * apply Forall_cons in IH as [Hh Ht]. constructor; [|exact Ht].
        rewrite includes_comma, Hc. exact Hh.
Qed.

Lemma trimStart_comma (s : string) :
  JS.includes s "," = false -> JS.includes (JS.trimStart s) "," = false.
Proof.
  induction s as [|c s IH]; [reflexivity|].
  cbn [JS.trimStart]. destruct (JS.isSpace c); [|tauto].
  rewrite includes_comma. intros H. apply orb_false_iff in H as [_ H]. apply IH, H.
Qed.

Lemma trimEnd_comma (s : string) :
  JS.includes s "," = false -> JS.includes (JS.trimEnd s) "," = false.
Proof.
  induction s as [|c s IH]; [reflexivity|].
  rewrite includes_comma. intros H. apply orb_false_iff in H as [Hc Hs].
  specialize (IH Hs). cbn [JS.trimEnd].
  destruct (JS.trimEnd s) as [|c' r'].
  - destruct (JS.isSpace c); [reflexivity|]. rewrite includes_comma, Hc. reflexivity.
  - rewrite includes_comma, Hc. exact IH.
Qed.

Lemma trim_comma (s : string) :
  JS.includes s "," = false -> JS.includes (JS.trim s) "," = false.
Proof. intros H. unfold JS.trim. apply trimEnd_comma, trimStart_comma, H. Qed.

Lemma substring_length (n : nat) (s : string) :
  (String.length (String.substring 0 n s) <= n)%nat.
Proof.
  revert s. induction n as [|n IH]; intros [|c s]; cbn; try lia.
  specialize (IH s). lia.
Qed.

End TextLaws.

(** ** The task store: the other operations *)

Module TaskQueueLaws.
Import Types TaskQueue Examples QueueExamples TaskQueueFacts.

Lemma insertBy_elem (x y : string * TaskRow) (sorted : list (string * TaskRow)) :
  y ∈ insertBy x sorted <-> y = x \/ y ∈ sorted.
Proof.
  induction sorted as [|z rest IH]; cbn [insertBy].
  - rewrite elem_of_cons. reflexivity.
  - destruct (orderLe (snd x) (snd z)).
    + rewrite elem_of_cons. reflexivity.
    + rewrite !elem_of_cons, IH. tauto.
Qed.

Lemma sorted_elem (rows : list (string * TaskRow)) (y : string * TaskRow) :
  y ∈ foldr insertBy [] rows <-> y ∈ rows.
Proof.
  induction rows as [|x rest IH]; cbn [foldr].
  - reflexivity.
  - rewrite insertBy_elem, elem_of_cons, IH. reflexivity.
Qed.

Lemma insertBy_sorted (x : string * TaskRow) (sorted : list (string * TaskRow)) :
  StronglySorted (fun a b => orderLe (snd a) (snd b) = true) sorted ->
  StronglySorted (fun a b => orderLe (snd a) (snd b) = true) (insertBy x sorted).
Proof.
  induction 1 as [|z rest Hs IH Hz]; cbn [insertBy].
  - constructor; [constructor | constructor].
  - destruct (orderLe (snd x) (snd z)) eqn:Hxz.
    + constructor; [constructor; assumption|].
      constructor; [exact Hxz|].
      eapply Forall_impl; [exact Hz|].
      intros b Hb. cbn beta in Hb |- *. eapply orderLe_trans; eassumption.
    + constructor; [exact IH|].
      apply Forall_forall. intros b Hb.
      apply insertBy_elem in Hb as [->|Hb].
      * destruct (orderLe_total (snd x) (snd z)) as [H|H]; [congruence | exact H].
      * rewrite Forall_forall in Hz. apply Hz, Hb.
Qed.

Lemma foldr_insertBy_sorted (rows : list (string * TaskRow)) :
  StronglySorted (fun a b => orderLe (snd a) (snd b) = true) (foldr insertBy [] rows).
Proof.
  induction rows as [|x rest IH]; cbn [foldr].
  - constructor.
  - apply insertBy_sorted, IH.
Qed.

Lemma StronglySorted_lookup {A} (R : A -> A -> Prop) (l : list A) (i j : nat) (a b : A) :
  StronglySorted R l -> (i < j)%nat -> l !! i = Some a -> l !! j = Some b -> R a b.
Proof.
  intros Hs. revert i j. induction Hs as [|x rest Hs IH Hx]; intros i j Hij Hi Hj.
  - rewrite lookup_nil in Hi. discriminate.
  - destruct j as [|j]; [lia|]. cbn in Hj.
    destruct i as [|i]; cbn in Hi.
    + injection Hi as ->. rewrite Forall_forall in Hx.
      apply Hx. eapply list_elem_of_lookup_2, Hj.
    + eapply IH; [|exact Hi|exact Hj]. lia.
Qed.

Lemma lookup_map {A B} (f : A -> B) (l : list A) (i : nat) :
  map f l !! i = f <$> l !! i.
Proof.
  revert i. induction l as [|x rest IH]; intros [|i]; cbn; try reflexivity. apply IH.
Qed.


Lemma insertBy_perm (x : string * TaskRow) (sorted : list (string * TaskRow)) :
  insertBy x sorted ≡ₚ x :: sorted.
Proof.
  induction sorted as [|z rest IH]; cbn [insertBy]; [reflexivity|].
  destruct (orderLe (snd x) (snd z)); [reflexivity|].
  rewrite IH. apply Permutation_swap.
Qed.

Lemma foldr_insertBy_perm (rows : list (string * TaskRow)) :
  foldr insertBy [] rows ≡ₚ rows.
Proof.
  induction rows as [|x rest IH]; cbn [foldr]; [reflexivity|].
  rewrite insertBy_perm, IH. reflexivity.
Qed.

(** The rows [listTasks] reads, before it sorts them. *)
Lemma listed_iff (agentId : string) (status : option TaskStatus) (db : DB)
    (id : string) (row : TaskRow) :
  (id, row) ∈ filter (fun kr : string * TaskRow =>
                        String.eqb (agent_id (snd kr)) agentId &&
                        match status with
                        | Some s => bool_decide (row_status (snd kr) = s)
                        | None => true
                        end = true) (map_to_list (tasks db))
  <-> tasks db !! id = Some row /\ agent_id row = agentId /\
      (forall s, status = Some s -> row_status row = s).
Proof.
  rewrite list_elem_of_filter, elem_of_map_to_list. cbn [snd].
  rewrite andb_true_iff, String.eqb_eq.
  destruct status as [s|].
  - rewrite bool_decide_eq_true. split.
    + intros [[Ha Hs] Hrow]. split; [exact Hrow|]. split; [exact Ha|].
      intros s' [= <-]. exact Hs.
    + intros (Hrow & Ha & Hs). split; [|exact Hrow]. split; [exact Ha|]. apply Hs. reflexivity.
  - split.
    + intros [[Ha _] Hrow]. split; [exact Hrow|]. split; [exact Ha|]. intros s [=].
    + intros (Hrow & Ha & _). split; [|exact Hrow]. split; [exact Ha|reflexivity].
Qed.

Lemma listTasks_elem (agentId : string) (status : option TaskStatus) (db : DB) (task : Task) :
  task ∈ listTasks agentId status db <->
  exists id row,
    tasks db !! id = Some row /\ agent_id row = agentId /\
    (forall s, status = Some s -> row_status row = s) /\
    task = rowToTask id row.
Proof.
  unfold listTasks. rewrite list_elem_of_In, in_map_iff. split.
  - intros ([id row] & <- & Hin).
    apply list_elem_of_In, sorted_elem, listed_iff in Hin as (Hrow & Ha & Hs).
    exists id, row. repeat split; assumption.
  - intros (id & row & Hrow & Ha & Hs & ->).
    exists (id, row). split; [reflexivity|].
    apply list_elem_of_In, sorted_elem, listed_iff. repeat split; assumption.
Qed.

(** X1. [listTasks] returns exactly the tasks of the agent's rows (of the
    given status, when one is given), each row once. *)
Theorem listTasks_lists_matching_rows
    (agentId : string) (status : option TaskStatus) (db : DB) :
  (forall task,
      task ∈ listTasks agentId status db <->
      exists id row,
        tasks db !! id = Some row /\ agent_id row = agentId /\
        (forall s, status = Some s -> row_status row = s) /\
        task = rowToTask id row) /\
  NoDup (map Types.id (listTasks agentId status db)).
Proof.
  split; [intros task; apply listTasks_elem|].
  unfold listTasks.
  rewrite map_map. cbn [Types.id rowToTask].
  change (map (fun x : string * TaskRow => fst x)) with (@fmap list _ _ _ (@fst string TaskRow)).
  rewrite foldr_insertBy_perm.
  refine (sublist_NoDup _ _ (NoDup_fst_map_to_list (tasks db)) _).
  apply fmap_sublist, sublist_filter.
Qed.

(** X2. [listTasks] returns the tasks in the order of the query: by
    ascending priority value, and by creation time among equal priorities. *)
Theorem listTasks_in_priority_order
    (agentId : string) (status : option TaskStatus) (db : DB)
    (i j : nat) (ti tj : Task) :
  (i < j)%nat ->
  listTasks agentId status db !! i = Some ti ->
  listTasks agentId status db !! j = Some tj ->
  priority ti < priority tj \/
  (priority ti = priority tj /\ String.leb (createdAt ti) (createdAt tj) = true).
Proof.
  unfold listTasks. intros Hij Hi Hj.
  rewrite lookup_map in Hi, Hj.
  apply fmap_Some in Hi as ([idi rowi] & Hi & ->).
  apply fmap_Some in Hj as ([idj rowj] & Hj & ->).
  cbn [priority createdAt rowToTask fst snd].
  apply orderLe_keys.
  exact (StronglySorted_lookup _ _ _ _ _ _ (foldr_insertBy_sorted _) Hij Hi Hj).
Qed.

Lemma listTasks_in_priority_order_witness :
  listTasks "agent-A" (Some queued) exampleDB !! 0%nat
    = Some (rowToTask "t-later" (exampleRow queued 2 (Some "2025-11-02T12:00:00.000Z"%string)
                                            "2025-11-02T10:01:00.000Z")) /\
  listTasks "agent-A" (Some queued) exampleDB !! 2%nat
    = Some (rowToTask "t-new" (exampleRow queued 2 None "2025-11-02T10:03:00.000Z")) /\
  (2 < 2 \/
   (2 = 2 /\ String.leb "2025-11-02T10:01:00.000Z" "2025-11-02T10:03:00.000Z" = true)).
Proof.
  assert (H0 : listTasks "agent-A" (Some queued) exampleDB !! 0%nat
    = Some (rowToTask "t-later" (exampleRow queued 2 (Some "2025-11-02T12:00:00.000Z"%string)
                                            "2025-11-02T10:01:00.000Z"))) by (vm_compute; reflexivity).
  assert (H2 : listTasks "agent-A" (Some queued) exampleDB !! 2%nat
    = Some (rowToTask "t-new" (exampleRow queued 2 None "2025-11-02T10:03:00.000Z")))
    by (vm_compute; reflexivity).
  split; [exact H0|]. split; [exact H2|].
  exact (listTasks_in_priority_order "agent-A" (Some queued) exampleDB 0 2 _ _
           ltac:(lia) H0 H2).
Defined.


(** X3. [enqueue] under a fresh id stores the task: it is returned
    [queued], with priority 3 when none is given and both timestamps at
    the time of the call; reading the stored row back gives the task that
    was returned (when [nextRunAt] is not the empty text); [listTasks]
    shows it; every other row and the other tables are as before. *)
Theorem enqueue_then_read_back
    (uuid : string) (nowMs : Z) (agentId : string) (payload : TaskPayload)
    (prio : option Z) (rec : option RecurrenceRule) (nextRun : option string) (db : DB) :
  tasks db !! uuid = None ->
  nextRun <> Some EmptyString ->
  exists task db',
    enqueue uuid nowMs agentId payload prio rec nextRun db = Some (task, db') /\
    Types.id task = uuid /\ status task = queued /\
    priority task = default 3 prio /\
    createdAt task = JS.toISOString nowMs /\ updatedAt task = JS.toISOString nowMs /\
    (exists row, tasks db' !! uuid = Some row /\ rowToTask uuid row = task) /\
    task ∈ listTasks agentId (Some queued) db' /\
    (forall id, id <> uuid -> tasks db' !! id = tasks db !! id) /\
    task_runs db' = task_runs db /\ agent_state db' = agent_state db.
Proof.
  intros Hfresh Hnext. unfold enqueue. rewrite Hfresh.
  eexists _, _. split; [reflexivity|].
  assert (Hback : rowToTask uuid
            (mkRow agentId queued (default 3 prio) payload rec nextRun None
                   (JS.toISOString nowMs) (JS.toISOString nowMs))
          = mkTask uuid agentId queued (default 3 prio) payload rec nextRun
                   (JS.toISOString nowMs) (JS.toISOString nowMs) None).
  { unfold rowToTask. cbn. f_equal.
    destruct nextRun as [[|c s]|]; [congruence|reflexivity|reflexivity]. }
  cbn [Types.id status priority createdAt updatedAt setTasks tasks task_runs agent_state].
  repeat split.
  - eexists. split; [apply lookup_insert_eq|exact Hback].
  - apply listTasks_elem.
    eexists uuid, _. split; [cbn; apply lookup_insert_eq|].
    split; [reflexivity|]. split; [intros s [= <-]; reflexivity|].
    symmetry. exact Hback.
  - intros id Hid. apply lookup_insert_ne. congruence.
Qed.


Lemma enqueue_then_read_back_witness :
  tasks exampleDB !! "t-5"%string = None /\
  exists task db',
    enqueue "t-5" 1762079940123 "agent-A" (mkPayload "Reply to mentions" None None None)
            None None None exampleDB = Some (task, db') /\
    priority task = 3 /\
    createdAt task = "2025-11-02T10:39:00.123Z"%string /\
    task ∈ listTasks "agent-A" (Some queued) db'.
Proof.
  assert (Hfresh : tasks exampleDB !! "t-5"%string = None) by (vm_compute; reflexivity).
  split; [exact Hfresh|].
  destruct (enqueue_then_read_back "t-5" 1762079940123 "agent-A"
              (mkPayload "Reply to mentions" None None None) None None None exampleDB
              Hfresh ltac:(discriminate))
    as (task & db' & Henq & _ & _ & Hprio & Hcreated & _ & _ & Hlist & _).
  exists task, db'. split; [exact Henq|]. split; [exact Hprio|].
  split; [exact Hcreated|exact Hlist].
Defined.

(** X4. A task enqueued for an agent is the one the agent's next claim
    returns, as [running], when it is due at that time and none of the
    agent's other eligible rows sorts before it or ties with it. *)
Theorem claimNext_returns_enqueued
    (uuid : string) (nowMs : Z) (agentId : string) (payload : TaskPayload)
    (prio : option Z) (rec : option RecurrenceRule) (nextRun : option string)
    (db db' : DB) (task : Task) (later : Z) :
  enqueue uuid nowMs agentId payload prio rec nextRun db = Some (task, db') ->
  match nextRun with
  | None => True
  | Some t => String.leb t (JS.toISOString later) = true
  end ->
  (forall id row,
      tasks db !! id = Some row -> eligible agentId (JS.toISOString later) row = true ->
      row_priority row > default 3 prio \/
      (row_priority row = default 3 prio /\
       String.leb (created_at row) (JS.toISOString nowMs) = false)) ->
  fst (claimNext later agentId db')
    = Some (mkTask uuid agentId running (default 3 prio) payload rec (JS.orUndefined nextRun)
                   (JS.toISOString nowMs) (JS.toISOString nowMs) None) /\
  (exists row, tasks (snd (claimNext later agentId db')) !! uuid = Some row /\
               row_status row = running).
Proof.
  unfold enqueue. intros Henq Hdue Hfirst.
  destruct (tasks db !! uuid) eqn:Hfresh; [discriminate|].
  injection Henq as <- <-.
  set (new := mkRow agentId queued (default 3 prio) payload rec nextRun None
                    (JS.toISOString nowMs) (JS.toISOString nowMs)) in *.
  set (db' := setTasks (insert uuid new) db).
  assert (Hnew : tasks db' !! uuid = Some new) by apply lookup_insert_eq.
  assert (Hel : eligible agentId (JS.toISOString later) new = true).
  { apply eligible_iff. split; [reflexivity|]. split; [reflexivity|].
    cbn [next_run_at new]. destruct nextRun as [t|]; [right; eauto|left; reflexivity]. }
  destruct (selectNext_complete _ _ _ _ _ Hnew Hel) as (id & row & Hsel).
  pose proof (selectNext_sound _ _ _ _ _ Hsel) as (Hrow & Helrow & Hleast).
  assert (id = uuid) as ->.
  { destruct (decide (id = uuid)) as [Heq|Hne]; [exact Heq|]. exfalso.
    assert (Hold : tasks db !! id = Some row).
    { rewrite <- Hrow. symmetry. apply lookup_insert_ne. congruence. }
    specialize (Hleast uuid new Hnew Hel). apply orderLe_keys in Hleast.
    cbn [row_priority created_at new] in Hleast.
    destruct (Hfirst id row Hold Helrow) as [Hgt|[Heq Hlater]].
    - destruct Hleast as [Hlt|[Heq' _]]; lia.
    - destruct Hleast as [Hlt|[_ Hle]]; [lia|congruence]. }
  rewrite Hnew in Hrow. injection Hrow as <-.
  rewrite claimNext_unfold, Hsel. cbn [fst snd]. split.
  - reflexivity.
  - eexists. split.
    + cbn [setTasks tasks]. rewrite lookup_alter_eq, Hnew. reflexivity.
    + reflexivity.
Qed.

Lemma claimNext_returns_enqueued_witness :
  exists task db',
    enqueue "t-5" 1762079940123 "agent-A" (mkPayload "Reply to mentions" None None None)
            (Some 1) None None exampleDB = Some (task, db') /\
    fst (claimNext 1762079941000 "agent-A" db')
      = Some (mkTask "t-5" "agent-A" running 1 (mkPayload "Reply to mentions" None None None)
                     None None "2025-11-02T10:39:00.123Z" "2025-11-02T10:39:00.123Z" None).
Proof.
  eexists _, _. split; [vm_compute; reflexivity|].
  refine (proj1 (claimNext_returns_enqueued "t-5" 1762079940123 "agent-A"
            (mkPayload "Reply to mentions" None None None) (Some 1) None None
            exampleDB _ _ 1762079941000 ltac:(vm_compute; reflexivity) I _)).
  intros id row Hrow Hel. left.
  apply eligible_iff in Hel as (_ & Hq & _).
  unfold exampleDB in Hrow. cbn [tasks] in Hrow.
  repeat (apply lookup_insert_Some in Hrow as [[_ <-]|[_ Hrow]];
          [try (cbn in Hq; discriminate); cbn; lia|]).
  rewrite lookup_empty in Hrow. discriminate.
Defined.

(** X5. A task that [claimNext] has returned is not returned by any later
    claim on the store the claim left, whatever the time and the agent:
    its row is [running], and a claim only takes [queued] rows. *)
Theorem claimed_task_is_not_claimed_again
    (nowMs : Z) (agentId : string) (db db' : DB) (task : Task)
    (nowMs2 : Z) (agentId2 : string) (task2 : Task) :
  claimNext nowMs agentId db = (Some task, db') ->
  fst (claimNext nowMs2 agentId2 db') = Some task2 ->
  Types.id task2 <> Types.id task.
Proof.
  rewrite !claimNext_unfold. intros Hc Hc2.
  destruct (selectNext agentId (JS.toISOString nowMs) db) as [[id row]|] eqn:Hsel;
    [|discriminate].
  injection Hc as <- <-.
  destruct (selectNext agentId2 (JS.toISOString nowMs2) _) as [[id2 row2]|] eqn:Hsel2;
    [|discriminate].
  cbn [fst] in Hc2. injection Hc2 as <-. cbn [Types.id rowToTask].
  intros ->.
  apply selectNext_sound in Hsel as (Hrow & _), Hsel2 as (Hrow2 & Hel2 & _).
  cbn [setTasks tasks] in Hrow2. rewrite lookup_alter_eq, Hrow in Hrow2.
  injection Hrow2 as <-.
  apply eligible_iff in Hel2 as (_ & Hq & _). discriminate.
Qed.

Lemma claimed_task_is_not_claimed_again_witness :
  exists task task2,
    claimNext 1762079940123 "agent-A" exampleDB
      = (Some task, snd (claimNext 1762079940123 "agent-A" exampleDB)) /\
    fst (claimNext 1762079940123 "agent-A"
           (snd (claimNext 1762079940123 "agent-A" exampleDB))) = Some task2 /\
    Types.id task = "t-old"%string /\ Types.id task2 = "t-new"%string /\
    Types.id task2 <> Types.id task.
Proof.
  assert (H1 : exists task,
             claimNext 1762079940123 "agent-A" exampleDB
               = (Some task, snd (claimNext 1762079940123 "agent-A" exampleDB)) /\
             Types.id task = "t-old"%string).
  { eexists. split; [vm_compute; reflexivity|reflexivity]. }
  assert (H2 : exists task2,
             fst (claimNext 1762079940123 "agent-A"
                    (snd (claimNext 1762079940123 "agent-A" exampleDB))) = Some task2 /\
             Types.id task2 = "t-new"%string).
  { eexists. split; [vm_compute; reflexivity|reflexivity]. }
  destruct H1 as (task & Hc1 & Hid1). destruct H2 as (task2 & Hc2 & Hid2).
  exists task, task2. split; [exact Hc1|]. split; [exact Hc2|].
  split; [exact Hid1|]. split; [exact Hid2|].
  exact (claimed_task_is_not_claimed_again 1762079940123 "agent-A" exampleDB _ task
           1762079940123 "agent-A" task2 Hc1 Hc2).
Defined.

(** X6. When no row is eligible for the agent (none of its rows is
    [queued] and due; in particular on an empty store), [claimNext]
    returns nothing and leaves the store as it is, and only then does it
    return nothing. *)
Theorem claimNext_idle (nowMs : Z) (agentId : string) (db : DB) :
  ((forall id row, tasks db !! id = Some row ->
                   eligible agentId (JS.toISOString nowMs) row = false) ->
   claimNext nowMs agentId db = (None, db)) /\
  (fst (claimNext nowMs agentId db) = None ->
   snd (claimNext nowMs agentId db) = db /\
   forall id row, tasks db !! id = Some row ->
                  eligible agentId (JS.toISOString nowMs) row = false) /\
  claimNext nowMs agentId (mkDB ∅ (task_runs db) (agent_state db))
    = (None, mkDB ∅ (task_runs db) (agent_state db)).
Proof.
  assert (Hnone : forall d, fst (claimNext nowMs agentId d) = None ->
                            claimNext nowMs agentId d = (None, d)).
  { intros d. rewrite claimNext_unfold.
    destruct (selectNext agentId (JS.toISOString nowMs) d) as [[id row]|];
      [discriminate|reflexivity]. }
  split; [|split].
  - intros Hno. apply Hnone, claimNext_none, Hno.
  - intros H. split; [rewrite (Hnone _ H); reflexivity|]. apply claimNext_none, H.
  - apply Hnone, claimNext_none. intros id row Hrow.
    cbn [tasks] in Hrow. rewrite lookup_empty in Hrow. discriminate.
Qed.

(** X7. [saveAgentState] followed by [getAgentState] of the same agent
    gives back the state that was saved, provided its task id and
    heartbeat are not empty texts (an empty text is read back as absent);
    the state of every other agent and the other tables are unchanged. *)
Theorem agent_state_round_trip (state : AgentState) (db : DB) :
  currentTaskId state <> Some EmptyString ->
  lastHeartbeatAt state <> Some EmptyString ->
  getAgentState (as_agentId state) (saveAgentState state db) = state /\
  (forall other, other <> as_agentId state ->
     getAgentState other (saveAgentState state db) = getAgentState other db) /\
  tasks (saveAgentState state db) = tasks db /\
  task_runs (saveAgentState state db) = task_runs db.
Proof.
  intros Hid Hhb. unfold getAgentState, saveAgentState. cbn [agent_state tasks task_runs].
  split; [|split; [|split; reflexivity]].
  - rewrite lookup_insert_eq. cbn [current_task_id last_heartbeat_at working_memory].
    destruct state as [a [[|c s]|] [[|c' s']|] wm]; cbn in *; congruence.
  - intros other Hne. rewrite lookup_insert_ne by congruence. reflexivity.
Qed.

Lemma agent_state_round_trip_witness :
  getAgentState "agent-A"
    (saveAgentState (mkAgentState "agent-A" (Some "t-old"%string)
                       (Some "2025-11-02T10:39:00.123Z"%string) (Some emptyMemory))
                    exampleDB)
  = mkAgentState "agent-A" (Some "t-old"%string)
      (Some "2025-11-02T10:39:00.123Z"%string) (Some emptyMemory).
Proof.
  exact (proj1 (agent_state_round_trip
                  (mkAgentState "agent-A" (Some "t-old"%string)
                     (Some "2025-11-02T10:39:00.123Z"%string) (Some emptyMemory))
                  exampleDB ltac:(discriminate) ltac:(discriminate))).
Defined.


(** X9. A task of kind [cron] that is requeued has no next-run time, so
    it is due at once: at every later time its row is eligible for its
    agent and the agent's claim returns a task. *)
Theorem cron_task_is_due_at_once
    (nowMs nowMs' : Z) (task : Task) (db : DB) (row : TaskRow) (expr : string)
    (tz : option string) (later : Z) :
  recurrence task = Some (cron expr tz) ->
  tasks db !! Types.id task = Some row ->
  exists row',
    tasks (requeueRecurring nowMs nowMs' task db) !! Types.id task = Some row' /\
    next_run_at row' = None /\
    eligible (agent_id row) (JS.toISOString later) row' = true /\
    exists next,
      fst (claimNext later (agent_id row) (requeueRecurring nowMs nowMs' task db)) = Some next.
Proof.
  intros Hrec Hrow.
  assert (Hrow' : tasks (requeueRecurring nowMs nowMs' task db) !! Types.id task
            = Some (mkRow (agent_id row) queued (row_priority row) (row_payload row)
                     (row_recurrence row) None None
                     (created_at row) (JS.toISOString nowMs'))).
  { unfold requeueRecurring. rewrite Hrec. cbn [setTasks tasks nextRunFor].
    rewrite lookup_alter_eq, Hrow. reflexivity. }
  assert (Hel : eligible (agent_id row) (JS.toISOString later)
                  (mkRow (agent_id row) queued (row_priority row) (row_payload row)
                     (row_recurrence row) None None
                     (created_at row) (JS.toISOString nowMs')) = true).
  { apply eligible_iff. split; [reflexivity|]. split; [reflexivity|]. left. reflexivity. }
  eexists. split; [exact Hrow'|]. split; [reflexivity|]. split; [exact Hel|].
  destruct (selectNext_complete _ _ _ _ _ Hrow' Hel) as (id & r & Hsel).
  rewrite claimNext_unfold, Hsel. eexists. reflexivity.
Qed.


Lemma cron_task_is_due_at_once_witness :
  exists row',
    tasks (requeueRecurring 1762079940123 1762079940124 digest digestDB) !! "t-cron"%string
      = Some row' /\
    next_run_at row' = None /\
    eligible "agent-A" (JS.toISOString 1762079940125) row' = true /\
    exists next,
      fst (claimNext 1762079940125 "agent-A"
             (requeueRecurring 1762079940123 1762079940124 digest digestDB)) = Some next.
Proof.
  exact (cron_task_is_due_at_once 1762079940123 1762079940124 digest digestDB _
           "0 9 * * *" (Some "UTC"%string) 1762079940125 eq_refl
           ltac:(vm_compute; reflexivity)).
Defined.

(** X10. Recovery after a crash: a task left [running] whose row is older
    than the stale threshold when the store is opened again is reset by
    [initialize] and, once due, is eligible for its agent, whose next
    claim returns a task; when the agent has no other row, that claim
    returns this very task, as [running]. *)
Theorem stale_task_is_claimed_after_restart
    (nowMs nowMs' later : Z) (db : DB) (id : string) (row : TaskRow) :
  tasks db !! id = Some row ->
  row_status row = running ->
  String.ltb (updated_at row) (JS.toISOString (nowMs - STALE_RUNNING_MS)) = true ->
  match next_run_at row with
  | None => True
  | Some t => String.leb t (JS.toISOString later) = true
  end ->
  exists next,
    fst (claimNext later (agent_id row) (initialize nowMs nowMs' db)) = Some next /\
    agentId next = agent_id row /\ status next = running /\
    ((forall id' row', tasks db !! id' = Some row' -> agent_id row' = agent_id row -> id' = id) ->
     Types.id next = id /\ payload next = row_payload row).
Proof.
  intros Hrow Hrunning Hstale Hdue.
  set (row1 := mkRow (agent_id row) queued (row_priority row) (row_payload row)
                     (row_recurrence row) (next_run_at row)
                     (Some "reset after stale run"%string)
                     (created_at row) (JS.toISOString nowMs')).
  assert (Hrow1 : tasks (initialize nowMs nowMs' db) !! id = Some row1).
  { rewrite initialize_lookup, Hrow. cbn [fmap option_fmap option_map]. unfold resetStale.
    rewrite Hstale, bool_decide_eq_true_2 by exact Hrunning. reflexivity. }
  assert (Hel : eligible (agent_id row) (JS.toISOString later) row1 = true).
  { apply eligible_iff. split; [reflexivity|]. split; [reflexivity|].
    cbn [next_run_at row1]. destruct (next_run_at row) as [t|]; [right; eauto|left; reflexivity]. }
  destruct (selectNext_complete _ _ _ _ _ Hrow1 Hel) as (id2 & row2 & Hsel).
  pose proof (selectNext_sound _ _ _ _ _ Hsel) as (Hrow2 & Hel2 & _).
  rewrite claimNext_unfold, Hsel. cbn [fst]. eexists. split; [reflexivity|].
  cbn [agentId status Types.id payload rowToTask agent_id row_payload].
  apply eligible_iff in Hel2 as (Hagent & _).
  split; [exact Hagent|]. split; [reflexivity|].
  intros Honly.
  rewrite initialize_lookup in Hrow2.
  destruct (tasks db !! id2) as [row0|] eqn:Hrow0; [|discriminate].
  cbn [fmap option_fmap option_map] in Hrow2. injection Hrow2 as <-.
  assert (Hag0 : agent_id row0 = agent_id row).
  { rewrite <- Hagent. unfold resetStale. destruct (_ && _); reflexivity. }
  pose proof (Honly id2 row0 Hrow0 Hag0) as Hid. subst id2.
  assert (row0 = row) as -> by congruence.
  split; [reflexivity|]. unfold resetStale. destruct (_ && _); reflexivity.
Qed.

Lemma stale_task_is_claimed_after_restart_witness :
  exists next,
    fst (claimNext 1762079950000 "agent-A" (initialize 1762079940123 1762079940124 crashedDB))
      = Some next /\
    status next = running /\ Types.id next = "t-crashed"%string.
Proof.
  destruct (stale_task_is_claimed_after_restart 1762079940123 1762079940124 1762079950000
              crashedDB "t-crashed" (exampleRow running 3 None "2025-11-02T09:39:00.123Z")
              ltac:(vm_compute; reflexivity) eq_refl ltac:(vm_compute; reflexivity) I)
    as (next & Hclaim & _ & Hst & Honly).
  exists next. split; [exact Hclaim|]. split; [exact Hst|].
  apply Honly. intros id' row' Hrow' _.
  unfold crashedDB in Hrow'. cbn [tasks] in Hrow'.
  apply lookup_insert_Some in Hrow' as [[Heq _]|[_ Hrow']]; [symmetry; exact Heq|].
  rewrite lookup_empty in Hrow'. discriminate.
Defined.

End TaskQueueLaws.

(** ** The router: keys, budget, failover and diagnostics *)

Module LLMRouterLaws.
Import LLMRouter RouterExamples MoreRouterExamples LLMRouterFacts TextLaws.

(** X11. Every key that [parseKeys] returns is a non-empty text without
    surrounding white space and without a comma; an unset or empty
    variable gives no key. *)
Theorem parseKeys_clean (env : option string) :
  Forall (fun k => k <> EmptyString /\ JS.trim k = k /\ JS.includes k "," = false)
         (parseKeys env) /\
  parseKeys None = [] /\ parseKeys (Some EmptyString) = [].
Proof.
  split; [|split; reflexivity].
  unfold parseKeys. destruct env as [e|]; [|constructor].
  destruct (JS.truthy e); [|constructor].
  apply Forall_forall. intros k Hk.
  apply list_elem_of_filter in Hk as [Htruthy Hk].
  apply list_elem_of_In, in_map_iff in Hk as (piece & <- & Hpiece).
  split; [|split].
  - intros Heq. rewrite Heq in Htruthy. discriminate.
  - apply trim_idem.
  - apply trim_comma.
    pose proof (splitComma_pieces e) as Hall. rewrite Forall_forall in Hall.
    apply Hall, list_elem_of_In, Hpiece.
Qed.

Lemma healthyKeysFor_app (now : Z) (a b : list KeyHealth) (p : string) :
  healthyKeysFor now (a ++ b) p = healthyKeysFor now a p ++ healthyKeysFor now b p.
Proof. unfold healthyKeysFor. rewrite filter_app, map_app. reflexivity. Qed.

Lemma healthyKeysFor_fresh (now : Z) (q p : string) (keys : list string) :
  healthyKeysFor now (map (fun k => mkKeyHealth q k None false None) keys) p
  = if String.eqb q p then keys else [].
Proof.
  unfold healthyKeysFor. induction keys as [|k keys IH]; cbn [map].
  - destruct (String.eqb q p); reflexivity.
  - rewrite filter_cons.
    assert (Hh : healthy now p (mkKeyHealth q k None false None) = String.eqb q p).
    { unfold healthy. cbn. rewrite !andb_true_r. reflexivity. }
    rewrite Hh. destruct (String.eqb q p) eqn:Hq.
    + rewrite decide_True by reflexivity. cbn [map key]. rewrite IH. reflexivity.
    + rewrite decide_False by discriminate. exact IH.
Qed.

(** X12. A router as the constructor builds it: at every time the healthy
    keys of each of the three providers are the keys parsed from its
    variable, in the order given there; and without a priority variable
    (unset or empty) the provider order is openai, anthropic, deepseek. *)
Theorem new_router_all_keys_healthy
    (OPENAI_API_KEYS ANTHROPIC_API_KEYS DEEPSEEK_API_KEYS OPENCLAW_LLM_PRIORITY
       : option string) (now : Z) :
  let r := new OPENAI_API_KEYS ANTHROPIC_API_KEYS DEEPSEEK_API_KEYS OPENCLAW_LLM_PRIORITY in
  healthyKeysFor now (keyHealth r) "openai" = parseKeys OPENAI_API_KEYS /\
  healthyKeysFor now (keyHealth r) "anthropic" = parseKeys ANTHROPIC_API_KEYS /\
  healthyKeysFor now (keyHealth r) "deepseek" = parseKeys DEEPSEEK_API_KEYS /\
  (OPENCLAW_LLM_PRIORITY = None \/ OPENCLAW_LLM_PRIORITY = Some EmptyString ->
   providerOrder r = ["openai"; "anthropic"; "deepseek"]%string).
Proof.
  cbv zeta. unfold new. cbn [keyHealth providerOrder].
  rewrite !healthyKeysFor_app, !healthyKeysFor_fresh. cbn [String.eqb Ascii.eqb Bool.eqb].
  rewrite !app_nil_r.
  split; [reflexivity|]. split; [reflexivity|]. split; [reflexivity|].
  intros [-> | ->]; reflexivity.
Qed.


(** *** The attempt budget *)

Lemma tryKeys_attempts {A} (net : Net A) (p : string) (keys : list string) (d : Dispatch) :
  (attempts d <= MAX_RETRIES)%nat ->
  (attempts d <= attempts (fst (tryKeys net p keys d)) <= MAX_RETRIES)%nat.
Proof.
  revert d. induction keys as [|k keys IH]; intros d Hd; [cbn; lia|].
  rewrite tryKeys_cons.
  destruct (MAX_RETRIES <=? attempts d)%nat eqn:Hmax; [cbn; lia|].
  apply Nat.leb_gt in Hmax. cbv zeta.
  destruct (call net (attempts d) p k) as [resp|err]; [cbn; lia|].
  match goal with |- context [tryKeys net p keys ?d1] =>
    assert (Ha : attempts d1 = S (attempts d)) end.
  { unfold onFailure. destruct (isInsufficientCredits err); [reflexivity|].
    destruct (isRateLimit err); reflexivity. }
  match goal with |- context [tryKeys net p keys ?d1] => specialize (IH d1) end.
  rewrite Ha in IH. specialize (IH ltac:(lia)). lia.
Qed.

Lemma tryProviders_attempts {A} (net : Net A) (skip : string -> bool)
    (providers : list string) (d : Dispatch) :
  (attempts d <= MAX_RETRIES)%nat ->
  (attempts d <= attempts (fst (tryProviders net skip providers d)) <= MAX_RETRIES)%nat.
Proof.
  revert d. induction providers as [|p providers IH]; intros d Hd; [cbn; lia|].
  rewrite tryProviders_cons.
  destruct (MAX_RETRIES <=? attempts d)%nat; [cbn; lia|].
  destruct (skip p); [apply IH, Hd|].
  match goal with |- context [tryKeys net p ?ks ?d1] =>
    pose proof (tryKeys_attempts net p ks d1 Hd) as Hk;
    destruct (tryKeys net p ks d1) as [d2 [resp|]] end; cbn [fst] in Hk |- *.
  - exact Hk.
  - cbn [attempts] in Hk. specialize (IH d2 ltac:(lia)). lia.
Qed.

(** X13. No call of [complete] or [embed] makes more than three attempts,
    whatever the registry, the provider order and the answers. *)
Theorem dispatch_attempts_bounded
    (net : Net LLMResponse) (capability : LLMCapability) (E : Type) (net' : Net E)
    (r : Router) :
  (attempts (fst (completeRun net capability r)) <= 3)%nat /\
  (attempts (fst (embedRun net' r)) <= 3)%nat.
Proof.
  split.
  - unfold completeRun.
    match goal with |- context [tryProviders net ?sk ?ps ?d] =>
      pose proof (tryProviders_attempts net sk ps d) as H end.
    cbn [attempts] in H. unfold MAX_RETRIES in H. specialize (H ltac:(lia)). lia.
  - unfold embedRun.
    match goal with |- context [tryProviders net' ?sk ?ps ?d] =>
      pose proof (tryProviders_attempts net' sk ps d) as H end.
    cbn [attempts] in H. unfold MAX_RETRIES in H. specialize (H ltac:(lia)). lia.
Qed.

(** *** Failures that are neither rate limits nor credit errors *)

Lemma tryKeys_plain_errors {A} (net : Net A) (p : string) (keys : list string) (d : Dispatch) :
  (forall n q k err, call net n q k = JS.Rejected err ->
                     isInsufficientCredits err = false /\ isRateLimit err = false) ->
  health (fst (tryKeys net p keys d)) = health d /\
  reads (fst (tryKeys net p keys d)) = reads d.
Proof.
  intros Hplain. revert d. induction keys as [|k keys IH]; intros d; [split; reflexivity|].
  rewrite tryKeys_cons.
  destruct (MAX_RETRIES <=? attempts d)%nat; [split; reflexivity|].
  cbv zeta. destruct (call net (attempts d) p k) as [resp|err] eqn:Hcall; [split; reflexivity|].
  destruct (Hplain _ _ _ _ Hcall) as [Hc Hr].
  unfold onFailure. rewrite Hc, Hr. cbn [health attempts lastErr reads].
  match goal with |- context [tryKeys net p keys ?d1] => specialize (IH d1) end.
  exact IH.
Qed.

Lemma tryProviders_plain_errors {A} (net : Net A) (skip : string -> bool)
    (providers : list string) (d : Dispatch) :
  (forall n q k err, call net n q k = JS.Rejected err ->
                     isInsufficientCredits err = false /\ isRateLimit err = false) ->
  health (fst (tryProviders net skip providers d)) = health d.
Proof.
  intros Hplain. revert d. induction providers as [|p providers IH]; intros d; [reflexivity|].
  rewrite tryProviders_cons.
  destruct (MAX_RETRIES <=? attempts d)%nat; [reflexivity|].
  destruct (skip p); [apply IH|].
  match goal with |- context [tryKeys net p ?ks ?d1] =>
    pose proof (tryKeys_plain_errors net p ks d1 Hplain) as [Hk _];
    destruct (tryKeys net p ks d1) as [d2 [resp|]] end; cbn [fst health] in Hk |- *.
  - exact Hk.
  - rewrite IH. exact Hk.
Qed.

Lemma router_eta (r : Router) : mkRouter (keyHealth r) (providerOrder r) = r.
Proof. destruct r; reflexivity. Qed.

(** X14. When every failure a provider returns is neither a credit error
    nor a rate limit (a status other than 402, 403 and 429, and a message
    without the credit words), [complete] leaves the router as it found
    it: no key is disabled or cooled down, whether the call succeeds or
    not. *)
Theorem plain_errors_keep_registry
    (net : Net LLMResponse) (capability : LLMCapability) (r : Router) :
  (forall n p k err, call net n p k = JS.Rejected err ->
                     isInsufficientCredits err = false /\ isRateLimit err = false) ->
  snd (complete net capability r) = r /\ snd (statusPing net r) = r.
Proof.
  intros Hplain.
  assert (Hc : forall cap, snd (complete net cap r) = r).
  { intros cap. unfold complete, completeRun.
    match goal with |- context [tryProviders net ?sk ?ps ?d] =>
      pose proof (tryProviders_plain_errors net sk ps d Hplain) as H;
      destruct (tryProviders net sk ps d) as [d' [resp|]] end;
      cbn [fst snd health] in H |- *; rewrite H; apply router_eta. }
  split; [apply Hc|].
  unfold statusPing. specialize (Hc status_ping).
  destruct (complete net status_ping r) as [[resp|e] r']; exact Hc.
Qed.

Lemma plain_errors_keep_registry_witness :
  snd (complete (failing serverError) reasoning fourKeys) = fourKeys /\
  fst (complete (failing serverError) reasoning fourKeys)
    = JS.Rejected (JS.mkError None
        "LLMRouter: all providers/keys exhausted after 3 attempts. Last error: OpenAI error 500: Internal server error").
Proof.
  split; [|vm_compute; reflexivity].
  refine (proj1 (plain_errors_keep_registry (failing serverError) reasoning fourKeys _)).
  intros n p k err [= <-]. split; vm_compute; reflexivity.
Defined.

Lemma tryProviders_all_skipped {A} (net : Net A) (skip : string -> bool)
    (providers : list string) (d : Dispatch) :
  (forall p, In p providers -> skip p = true) ->
  tryProviders net skip providers d = (d, None).
Proof.
  revert d. induction providers as [|p providers IH]; intros d Hskip; [reflexivity|].
  rewrite tryProviders_cons.
  destruct (MAX_RETRIES <=? attempts d)%nat; [reflexivity|].
  rewrite (Hskip p) by (left; reflexivity).
  apply IH. intros q Hq. apply Hskip. right. exact Hq.
Qed.

(** X15. [complete] with capability [embeddings] never reaches a
    provider: it skips every provider of the order and fails after zero
    attempts with no underlying error, leaving the router as it is. *)
Theorem complete_embeddings_never_dispatches (net : Net LLMResponse) (r : Router) :
  complete net embeddings r
  = (JS.Rejected (JS.mkError None
       "LLMRouter: all providers/keys exhausted after 0 attempts. Last error: undefined"), r).
Proof.
  unfold complete, completeRun.
  rewrite tryProviders_all_skipped by (intros p _; reflexivity).
  cbn [attempts lastErr health]. rewrite router_eta. reflexivity.
Qed.


(** *** Where a response comes from *)

Lemma tryKeys_resolved {A} (net : Net A) (p : string) (keys : list string) (d d' : Dispatch)
    (resp : A) :
  tryKeys net p keys d = (d', Some resp) ->
  exists n k, (attempts d <= n < MAX_RETRIES)%nat /\ In k keys /\
              call net n p k = JS.Resolved resp.
Proof.
  revert d. induction keys as [|k keys IH]; intros d; [discriminate|].
  rewrite tryKeys_cons.
  destruct (MAX_RETRIES <=? attempts d)%nat eqn:Hmax; [discriminate|].
  apply Nat.leb_gt in Hmax. cbv zeta.
  destruct (call net (attempts d) p k) as [resp'|err] eqn:Hcall.
  - intros [= <- <-]. exists (attempts d), k. split; [lia|]. split; [left; reflexivity|exact Hcall].
  - intros H. apply IH in H as (n & k' & Hn & Hin & Hres).
    assert (Ha : forall d1, attempts (onFailure net p k err d1) = attempts d1).
    { intros d1. unfold onFailure. destruct (isInsufficientCredits err); [reflexivity|].
      destruct (isRateLimit err); reflexivity. }
    rewrite Ha in Hn. cbn [attempts] in Hn.
    exists n, k'. split; [lia|]. split; [right; exact Hin|exact Hres].
Qed.

Lemma tryProviders_resolved {A} (net : Net A) (skip : string -> bool)
    (providers : list string) (kh0 : list KeyHealth) (d d' : Dispatch) (resp : A) :
  Forall2 noWorse kh0 (health d) ->
  tryProviders net skip providers d = (d', Some resp) ->
  exists n p k e,
    (n < MAX_RETRIES)%nat /\ call net n p k = JS.Resolved resp /\
    In p providers /\ skip p = false /\
    e ∈ kh0 /\ provider e = p /\ key e = k /\ disabled e = false.
Proof.
  revert d. induction providers as [|p providers IH]; intros d Hkh; [discriminate|].
  rewrite tryProviders_cons.
  destruct (MAX_RETRIES <=? attempts d)%nat; [discriminate|].
  destruct (skip p) eqn:Hskip.
  - intros H. destruct (IH _ Hkh H) as (n & q & k & e & Hn & Hcall & Hin & Hrest).
    exists n, q, k, e. split; [exact Hn|]. split; [exact Hcall|]. split; [right; exact Hin|exact Hrest].
  - match goal with |- context [tryKeys net p ?ks ?d1] =>
      pose proof (tryKeys_noWorse net p ks d1) as Hnw;
      destruct (tryKeys net p ks d1) as [d2 [resp'|]] eqn:Hkeys end.
    + intros [= <- <-]. apply tryKeys_resolved in Hkeys as (n & k & Hn & Hin & Hcall).
      apply list_elem_of_In, healthyKeysFor_elem in Hin as (e' & He' & Hkey & Hhealthy).
      apply list_elem_of_lookup in He' as (i & Hi).
      destruct (Forall2_lookup_r _ _ _ _ _ Hkh Hi) as (e & He & Hp & Hk & Hd).
      unfold healthy in Hhealthy.
      apply andb_true_iff in Hhealthy as [Hhealthy _].
      apply andb_true_iff in Hhealthy as [Hprov Hdis].
      apply String.eqb_eq in Hprov. apply negb_true_iff in Hdis.
      exists n, p, k, e. split; [lia|]. split; [exact Hcall|]. split; [left; reflexivity|].
      split; [exact Hskip|]. split; [eapply list_elem_of_lookup_2, He|].
      split; [congruence|]. split; [congruence|].
      destruct (disabled e); [|reflexivity]. rewrite Hd in Hdis by reflexivity. discriminate.
    + intros H. cbn [fst health] in Hnw.
      destruct (IH d2 (noWorse_trans _ _ _ Hkh Hnw) H)
        as (n & q & k & e & Hn & Hcall & Hin & Hrest).
      exists n, q, k, e. split; [exact Hn|]. split; [exact Hcall|].
      split; [right; exact Hin|exact Hrest].
Qed.

(** X16. A response that [complete] returns is the answer of one of at
    most three attempts, made with a key that the registry lists for a
    provider of the priority order which has a client, and that was not
    disabled when the call began; the capability was not [embeddings]. *)
Theorem response_comes_from_usable_key
    (net : Net LLMResponse) (capability : LLMCapability) (r : Router) (resp : LLMResponse) :
  fst (complete net capability r) = JS.Resolved resp ->
  capability <> embeddings /\
  exists n p k e,
    (n < 3)%nat /\ call net n p k = JS.Resolved resp /\
    In p (providerOrder r) /\ hasClient p = true /\
    e ∈ keyHealth r /\ provider e = p /\ key e = k /\ disabled e = false.
Proof.
  unfold complete, completeRun.
  match goal with |- context [tryProviders net ?sk ?ps ?d] =>
    pose proof (tryProviders_resolved net sk ps (keyHealth r) d) as H;
    destruct (tryProviders net sk ps d) as [d' [resp'|]] end; [|discriminate].
  cbn [fst]. intros [= ->].
  destruct (H d' resp (noWorse_refl _) eq_refl)
    as (n & p & k & e & Hn & Hcall & Hin & Hskip & He).
  apply orb_false_iff in Hskip as [Hcap Hclient].
  split.
  - intros ->. rewrite bool_decide_eq_false in Hcap. apply Hcap. reflexivity.
  - exists n, p, k, e. split; [exact Hn|]. split; [exact Hcall|]. split; [exact Hin|].
    split; [apply negb_false_iff, Hclient|exact He].
Qed.

Lemma response_comes_from_usable_key_witness :
  fst (complete (answering shortAnswer) reasoning fourKeys) = JS.Resolved shortAnswer /\
  exists n p k e,
    (n < 3)%nat /\ call (answering shortAnswer) n p k = JS.Resolved shortAnswer /\
    In p (providerOrder fourKeys) /\ hasClient p = true /\
    e ∈ keyHealth fourKeys /\ provider e = p /\ key e = k /\ disabled e = false.
Proof.
  assert (H : fst (complete (answering shortAnswer) reasoning fourKeys)
              = JS.Resolved shortAnswer) by (vm_compute; reflexivity).
  split; [exact H|].
  exact (proj2 (response_comes_from_usable_key _ _ _ _ H)).
Defined.

Lemma tryKeys_answered {A} (net : Net A) (p k : string) (keys : list string) (d : Dispatch)
    (resp : A) :
  attempts d = 0%nat -> call net 0 p k = JS.Resolved resp ->
  tryKeys net p (k :: keys) d
  = (mkDispatch (health d) 1 (lastErr d) (reads d), Some resp).
Proof.
  intros Ha Hcall. rewrite tryKeys_cons, Ha. cbn [Nat.leb MAX_RETRIES]. cbv zeta.
  rewrite Hcall. reflexivity.
Qed.

Lemma tryProviders_answered {A} (net : Net A) (skip : string -> bool)
    (providers : list string) (d : Dispatch) (p : string) (e : KeyHealth) :
  (forall n q k, exists resp, call net n q k = JS.Resolved resp) ->
  attempts d = 0%nat ->
  In p providers -> skip p = false ->
  e ∈ health d -> (forall now, healthy now p e = true) ->
  exists d' q k resp,
    tryProviders net skip providers d = (d', Some resp) /\
    health d' = health d /\ attempts d' = 1%nat /\
    call net 0 q k = JS.Resolved resp.
Proof.
  intros Hall. revert d. induction providers as [|q providers IH];
    intros d Ha Hin Hskip He Hhealthy; [destruct Hin|].
  rewrite tryProviders_cons, Ha. cbn [Nat.leb MAX_RETRIES].
  destruct (skip q) eqn:Hq.
  - destruct Hin as [->|Hin]; [congruence|].
    apply IH; assumption.
  - destruct (healthyKeysFor (dateNow net (reads d)) (health d) q) as [|k keys] eqn:Hkeys.
    + destruct Hin as [->|Hin].
      * exfalso.
        assert (Hk : key e ∈ healthyKeysFor (dateNow net (reads d)) (health d) p).
        { apply healthyKeysFor_elem. exists e. split; [exact He|]. split; [reflexivity|apply Hhealthy]. }
        rewrite Hkeys in Hk. apply elem_of_nil in Hk. exact Hk.
      * cbn [tryKeys].
        apply (IH (mkDispatch (health d) 0 (lastErr d) (S (reads d)))); try assumption.
        reflexivity.
    + destruct (Hall 0%nat q k) as (resp & Hcall).
      rewrite (tryKeys_answered net q k keys
                 (mkDispatch (health d) 0 (lastErr d) (S (reads d))) resp eq_refl Hcall).
      eexists _, q, k, resp. split; [reflexivity|]. cbn [health attempts].
      split; [reflexivity|]. split; [reflexivity|exact Hcall].
Qed.

(** X17. When the providers answer every call, the capability is not
    [embeddings], and the registry holds a key that is neither disabled
    nor in cooldown for a provider of the priority order that has a
    client, [complete] returns the answer of its first attempt, makes no
    other, and leaves the router as it found it. *)
Theorem complete_answers_on_first_attempt
    (net : Net LLMResponse) (capability : LLMCapability) (r : Router)
    (p : string) (e : KeyHealth) :
  (forall n q k, exists resp, call net n q k = JS.Resolved resp) ->
  capability <> embeddings ->
  In p (providerOrder r) -> hasClient p = true ->
  e ∈ keyHealth r -> provider e = p -> disabled e = false -> cooldownUntil e = None ->
  exists q k resp,
    complete net capability r = (JS.Resolved resp, r) /\
    call net 0 q k = JS.Resolved resp /\
    attempts (fst (completeRun net capability r)) = 1%nat.
Proof.
  intros Hall Hcap Hin Hclient He Hp Hdis Hcool.
  assert (Hhealthy : forall now, healthy now p e = true).
  { intros now. unfold healthy, cooledDown. rewrite Hp, Hdis, Hcool, String.eqb_refl. reflexivity. }
  assert (Hskip : (fun q => bool_decide (capability = embeddings) || negb (hasClient q)) p = false).
  { cbn beta. rewrite Hclient, bool_decide_eq_false_2 by exact Hcap. reflexivity. }
  destruct (tryProviders_answered net _ (providerOrder r) (mkDispatch (keyHealth r) 0 None 0)
              p e Hall eq_refl Hin Hskip He Hhealthy)
    as (d' & q & k & resp & Hrun & Hhealth & Hatt & Hcall).
  exists q, k, resp. unfold complete, completeRun. rewrite Hrun. cbn [fst].
  split; [|split; [exact Hcall|exact Hatt]].
  rewrite Hhealth. cbn [health]. rewrite router_eta. reflexivity.
Qed.

Lemma complete_answers_on_first_attempt_witness :
  exists q k resp,
    complete (answering shortAnswer) reasoning fourKeys = (JS.Resolved resp, fourKeys) /\
    call (answering shortAnswer) 0 q k = JS.Resolved resp /\
    attempts (fst (completeRun (answering shortAnswer) reasoning fourKeys)) = 1%nat.
Proof.
  refine (complete_answers_on_first_attempt (answering shortAnswer) reasoning fourKeys
            "anthropic" (mkKeyHealth "anthropic" "sk-c" None false None) _ _ _ _ _ _ _ _).
  - intros n q k. eexists. reflexivity.
  - discriminate.
  - vm_compute. tauto.
  - reflexivity.
  - apply list_elem_of_In. vm_compute. tauto.
  - reflexivity.
  - reflexivity.
  - reflexivity.
Defined.


(** *** The cooldown window *)

Lemma findEntry_Some (p k : string) (kh : list KeyHealth) (e : KeyHealth) :
  findEntry p k kh = Some e -> e ∈ kh /\ provider e = p /\ key e = k.
Proof.
  unfold findEntry. intros H. apply find_some in H as [Hin He].
  split; [apply list_elem_of_In, Hin|]. apply isEntry_iff, He.
Qed.

Lemma updateFound_mutated (p k : string) (mutate : KeyHealth -> KeyHealth)
    (kh : list KeyHealth) (e : KeyHealth) :
  findEntry p k kh = Some e -> mutate e ∈ updateFound (isEntry p k) mutate kh.
Proof.
  unfold findEntry. induction kh as [|x kh IH]; cbn [find updateFound]; [discriminate|].
  destruct (isEntry p k x).
  - intros [= ->]. apply list_elem_of_here.
  - intros H. apply list_elem_of_further, IH, H.
Qed.

Lemma updateFound_unique (p k : string) (mutate : KeyHealth -> KeyHealth)
    (kh : list KeyHealth) (e e' : KeyHealth) :
  keepsName mutate -> NoDup (map nameOf kh) ->
  findEntry p k kh = Some e ->
  e' ∈ updateFound (isEntry p k) mutate kh -> provider e' = p -> key e' = k ->
  e' = mutate e.
Proof.
  intros Hkeep. unfold findEntry.
  induction kh as [|x kh IH]; cbn [find updateFound map]; [discriminate|].
  intros Hnd Hfind Hin Hp Hk. apply NoDup_cons in Hnd as [Hnotin Hnd].
  destruct (isEntry p k x) eqn:Hx.
  - injection Hfind as ->. apply elem_of_cons in Hin as [->|Hin]; [reflexivity|].
    exfalso. apply Hnotin. apply isEntry_iff in Hx as [Hxp Hxk].
    apply list_elem_of_In, in_map_iff. exists e'. split; [|apply list_elem_of_In, Hin].
    unfold nameOf. congruence.
  - apply elem_of_cons in Hin as [->|Hin].
    + exfalso. assert (isEntry p k x = true) by (apply isEntry_iff; split; assumption).
      congruence.
    + apply IH; assumption.
Qed.

Lemma updateFound_others (p k : string) (mutate : KeyHealth -> KeyHealth)
    (kh : list KeyHealth) (e' : KeyHealth) :
  keepsName mutate -> isEntry p k e' = false ->
  e' ∈ updateFound (isEntry p k) mutate kh <-> e' ∈ kh.
Proof.
  intros Hkeep He'. induction kh as [|x kh IH]; cbn [updateFound]; [reflexivity|].
  destruct (isEntry p k x) eqn:Hx.
  - rewrite !elem_of_cons. split; intros [->|H]; try (right; exact H).
    + rewrite (isEntry_mutated p k mutate x Hkeep) in He'. congruence.
    + congruence.
  - rewrite !elem_of_cons, IH. reflexivity.
Qed.

(** X18. A key marked rate-limited at clock [t] is left out of the healthy
    keys of its provider until 60 s have passed, and is returned again
    from then on; the healthy keys of the provider other than this key,
    and those of the other providers, are what they were. (The registry
    lists each provider/key pair once and the key is not disabled.) *)
Theorem rate_limited_key_returns_after_cooldown
    (t : Z) (p k : string) (kh : list KeyHealth) (e : KeyHealth) (now : Z) :
  NoDup (map nameOf kh) ->
  findEntry p k kh = Some e -> disabled e = false ->
  0 <= t ->
  (k ∈ healthyKeysFor now (markRateLimit t p k kh) p <-> t + 60000 <= now) /\
  (forall k', k' <> k ->
     k' ∈ healthyKeysFor now (markRateLimit t p k kh) p <-> k' ∈ healthyKeysFor now kh p) /\
  (forall q, q <> p ->
     healthyKeysFor now (markRateLimit t p k kh) q = healthyKeysFor now kh q).
Proof.
  intros Hnd Hfind Hdis Ht.
  pose proof (findEntry_Some _ _ _ _ Hfind) as (Hin & Hp & Hk).
  pose proof (keepsName_rateLimit t) as Hkeep.
  set (mutate := fun e : KeyHealth =>
         mkKeyHealth (provider e) (key e) (Some (t + RATE_LIMIT_COOLDOWN_MS))
                     (disabled e) (Some "rate-limited"%string)) in *.
  assert (Hhealthy : healthy now p (mutate e) = true <-> t + 60000 <= now).
  { unfold healthy, cooledDown, mutate, RATE_LIMIT_COOLDOWN_MS.
    cbn [provider disabled cooldownUntil]. rewrite Hp, Hdis, String.eqb_refl.
    cbn [negb andb]. rewrite orb_true_iff, Z.eqb_eq, Z.leb_le. lia. }
  split; [|split].
  - rewrite healthyKeysFor_elem. split.
    + intros (e' & He' & Hkey & Hh). apply Hhealthy.
      assert (Hp' : provider e' = p).
      { unfold healthy in Hh. apply andb_true_iff in Hh as [Hh _].
        apply andb_true_iff in Hh as [Hh _]. apply String.eqb_eq, Hh. }
      rewrite <- (updateFound_unique p k mutate kh e e' Hkeep Hnd Hfind He' Hp' Hkey).
      exact Hh.
    + intros Hnow. exists (mutate e). split; [apply updateFound_mutated, Hfind|].
      split; [exact Hk|]. apply Hhealthy, Hnow.
  - intros k' Hne. rewrite !healthyKeysFor_elem. unfold markRateLimit. fold mutate.
    split; intros (e' & He' & Hkey & Hh); exists e';
      (split; [|split; [exact Hkey|exact Hh]]);
      (eapply updateFound_others; [exact Hkeep| |exact He']);
      (destruct (isEntry p k e') eqn:Hent; [|reflexivity]);
      apply isEntry_iff in Hent as [_ Hent]; congruence.
  - intros q Hq. apply healthyKeysFor_marked_other. congruence.
Qed.

Lemma rate_limited_key_returns_after_cooldown_witness :
  ("sk-a"%string ∈ healthyKeysFor (1762079940123 + 59999)
                     (markRateLimit 1762079940123 "openai" "sk-a" (keyHealth fourKeys))
                     "openai"
   <-> 1762079940123 + 60000 <= 1762079940123 + 59999) /\
  ("sk-a"%string ∈ healthyKeysFor (1762079940123 + 60000)
                     (markRateLimit 1762079940123 "openai" "sk-a" (keyHealth fourKeys))
                     "openai"
   <-> 1762079940123 + 60000 <= 1762079940123 + 60000).
Proof.
  assert (Hnd : NoDup (map nameOf (keyHealth fourKeys))).
  { apply (bool_decide_eq_true_1 _). vm_compute. reflexivity. }
  assert (Hfind : findEntry "openai" "sk-a" (keyHealth fourKeys)
                  = Some (mkKeyHealth "openai" "sk-a" None false None))
    by (vm_compute; reflexivity).
  split.
  - exact (proj1 (rate_limited_key_returns_after_cooldown 1762079940123 "openai" "sk-a"
                    (keyHealth fourKeys) _ (1762079940123 + 59999) Hnd Hfind eq_refl
                    ltac:(lia))).
  - exact (proj1 (rate_limited_key_returns_after_cooldown 1762079940123 "openai" "sk-a"
                    (keyHealth fourKeys) _ (1762079940123 + 60000) Hnd Hfind eq_refl
                    ltac:(lia))).
Defined.


(** *** [embed] and the providers without [embed] *)

Lemma frame_refl (p : string) (kh : list KeyHealth) :
  Forall2 (fun e e' => provider e <> p -> e' = e) kh kh.
Proof. apply Forall_Forall2_diag, Forall_forall. intros; reflexivity. Qed.

Lemma frame_trans (p : string) (a b c : list KeyHealth) :
  Forall2 (fun e e' => provider e <> p -> e' = e) a b ->
  Forall2 (fun e e' => provider e <> p -> e' = e) b c ->
  Forall2 (fun e e' => provider e <> p -> e' = e) a c.
Proof.
  intros Hab. revert c. induction Hab as [|x y a b Hxy _ IH]; intros c Hbc.
  - inversion Hbc. constructor.
  - inversion Hbc as [|y' z b' c' Hyz Hrest]; subst. constructor; [|apply IH, Hrest].
    intros Hx. specialize (Hxy Hx). subst y. apply Hyz, Hx.
Qed.

Lemma updateFound_frame (p k : string) (mutate : KeyHealth -> KeyHealth) (kh : list KeyHealth) :
  Forall2 (fun e e' => provider e <> p -> e' = e) kh (updateFound (isEntry p k) mutate kh).
Proof.
  induction kh as [|x kh IH]; cbn [updateFound]; [constructor|].
  destruct (isEntry p k x) eqn:Hx.
  - constructor; [|apply frame_refl]. apply isEntry_iff in Hx as [Hp _]. congruence.
  - constructor; [reflexivity|exact IH].
Qed.

Lemma onFailure_frame {A} (net : Net A) (p k : string) (err : JS.Error) (d : Dispatch) :
  Forall2 (fun e e' => provider e <> p -> e' = e) (health d) (health (onFailure net p k err d)).
Proof.
  unfold onFailure. destruct (isInsufficientCredits err); [apply updateFound_frame|].
  destruct (isRateLimit err); [apply updateFound_frame|apply frame_refl].
Qed.

Lemma tryKeys_frame {A} (net : Net A) (p : string) (keys : list string) (d : Dispatch) :
  Forall2 (fun e e' => provider e <> p -> e' = e) (health d) (health (fst (tryKeys net p keys d))).
Proof.
  revert d. induction keys as [|k keys IH]; intros d; [apply frame_refl|].
  rewrite tryKeys_cons.
  destruct (MAX_RETRIES <=? attempts d)%nat; [apply frame_refl|].
  cbv zeta. destruct (call net (attempts d) p k) as [resp|err]; [apply frame_refl|].
  eapply frame_trans; [|apply IH].
  apply (onFailure_frame net p k err
           (mkDispatch (health d) (S (attempts d)) (lastErr d) (reads d))).
Qed.

Lemma tryProviders_frame {A} (net : Net A) (skip : string -> bool) (p : string)
    (providers : list string) (d : Dispatch) :
  (forall q, skip q = false -> q = p) ->
  Forall2 (fun e e' => provider e <> p -> e' = e)
          (health d) (health (fst (tryProviders net skip providers d))).
Proof.
  intros Honly. revert d. induction providers as [|q providers IH]; intros d; [apply frame_refl|].
  rewrite tryProviders_cons.
  destruct (MAX_RETRIES <=? attempts d)%nat; [apply frame_refl|].
  destruct (skip q) eqn:Hq; [apply IH|].
  apply Honly in Hq as ->.
  match goal with |- context [tryKeys net p ?ks ?d1] =>
    pose proof (tryKeys_frame net p ks d1) as Hk;
    destruct (tryKeys net p ks d1) as [d2 [resp|]] end; [exact Hk|].
  eapply frame_trans; [exact Hk|apply IH].
Qed.

Lemma embed_skip_openai (q : string) :
  negb (hasClient q && hasEmbed q) = false -> q = "openai"%string.
Proof.
  intros H. apply negb_false_iff, andb_true_iff in H as [_ H]. apply String.eqb_eq, H.
Qed.

Lemma tryProviders_no_keys {A} (net : Net A) (skip : string -> bool)
    (providers : list string) (d : Dispatch) :
  (forall q now, skip q = false -> healthyKeysFor now (health d) q = []) ->
  exists d',
    tryProviders net skip providers d = (d', None) /\
    health d' = health d /\ attempts d' = attempts d /\ lastErr d' = lastErr d.
Proof.
  revert d. induction providers as [|q providers IH]; intros d Hno.
  - exists d. repeat split; reflexivity.
  - rewrite tryProviders_cons.
    destruct (MAX_RETRIES <=? attempts d)%nat; [exists d; repeat split; reflexivity|].
    destruct (skip q) eqn:Hq; [apply IH, Hno|].
    rewrite (Hno q _ Hq). cbn [tryKeys].
    apply (IH (mkDispatch (health d) (attempts d) (lastErr d) (S (reads d)))). exact Hno.
Qed.

(** X19. [embed] works with the keys of openai only, the one provider
    whose client implements [embed]: a response is the answer of one of
    at most three attempts made with an openai key of the registry that
    was not disabled; the entries of the other providers are left as they
    are whatever happens; and with no openai key in the registry the call
    fails at once, with no attempt and no underlying error. *)
Theorem embed_uses_openai_only (E : Type) (net : Net E) (r : Router) :
  (forall resp, fst (embed net r) = JS.Resolved resp ->
     exists n k e,
       (n < 3)%nat /\ call net n "openai" k = JS.Resolved resp /\
       e ∈ keyHealth r /\ provider e = "openai"%string /\ key e = k /\ disabled e = false) /\
  Forall2 (fun e e' => provider e <> "openai"%string -> e' = e)
          (keyHealth r) (keyHealth (snd (embed net r))) /\
  ((forall e, e ∈ keyHealth r -> provider e <> "openai"%string) ->
   embed net r
   = (JS.Rejected (JS.mkError None "LLMRouter: embedding failed. Last error: undefined"), r)).
Proof.
  unfold embed, embedRun. split; [|split].
  - intros resp.
    match goal with |- context [tryProviders net ?sk ?ps ?d] =>
      pose proof (tryProviders_resolved net sk ps (keyHealth r) d) as H;
      destruct (tryProviders net sk ps d) as [d' [resp'|]] end; [|discriminate].
    cbn [fst]. intros [= ->].
    destruct (H d' resp (noWorse_refl _) eq_refl)
      as (n & p & k & e & Hn & Hcall & _ & Hskip & He & Hp & Hk & Hd).
    apply embed_skip_openai in Hskip as ->.
    exists n, k, e. repeat split; assumption.
  - match goal with |- context [tryProviders net ?sk ?ps ?d] =>
      pose proof (tryProviders_frame net sk "openai" ps d embed_skip_openai) as H;
      destruct (tryProviders net sk ps d) as [d' [resp'|]] end; exact H.
  - intros Hnone.
    destruct (tryProviders_no_keys net (fun p => negb (hasClient p && hasEmbed p))
                (providerOrder r) (mkDispatch (keyHealth r) 0 None 0))
      as (d' & Hrun & Hh & _ & Hl).
    { intros q now Hq. apply embed_skip_openai in Hq as ->. cbn [health].
      destruct (healthyKeysFor now (keyHealth r) "openai") as [|k ks] eqn:Hk; [reflexivity|].
      exfalso.
      assert (Hin : k ∈ healthyKeysFor now (keyHealth r) "openai")
        by (rewrite Hk; apply list_elem_of_here).
      apply healthyKeysFor_elem in Hin as (e & He & _ & Hhealthy).
      apply (Hnone e He). unfold healthy in Hhealthy.
      apply andb_true_iff in Hhealthy as [Hhealthy _].
      apply andb_true_iff in Hhealthy as [Hhealthy _]. apply String.eqb_eq, Hhealthy. }
    rewrite Hrun, Hh, Hl. cbn [health lastErr lastErrorText]. rewrite router_eta. reflexivity.
Qed.

(** *** [healthSummary] *)

Lemma mapGet_mapSet_same (p : string) (c : HealthSummary.Counts)
    (m : list (string * HealthSummary.Counts)) :
  HealthSummary.mapGet p (HealthSummary.mapSet p c m) = Some c.
Proof.
  unfold HealthSummary.mapGet. induction m as [|[q c'] m IH]; cbn [HealthSummary.mapSet find fst].
  - rewrite String.eqb_refl. reflexivity.
  - destruct (String.eqb q p) eqn:Hq; cbn [find fst]; rewrite Hq; [reflexivity|exact IH].
Qed.

Lemma mapGet_mapSet_other (p q : string) (c : HealthSummary.Counts)
    (m : list (string * HealthSummary.Counts)) :
  q <> p ->
  HealthSummary.mapGet q (HealthSummary.mapSet p c m) = HealthSummary.mapGet q m.
Proof.
  intros Hne. unfold HealthSummary.mapGet.
  induction m as [|[x c'] m IH]; cbn [HealthSummary.mapSet find fst].
  - destruct (String.eqb_spec p q) as [->|_]; [congruence|reflexivity].
  - destruct (String.eqb x p) eqn:Hx; cbn [find fst].
    + apply String.eqb_eq in Hx as ->.
      destruct (String.eqb_spec p q) as [->|_]; [congruence|reflexivity].
    + destruct (String.eqb x q); [reflexivity|exact IH].
Qed.

Lemma mapSet_keys (p : string) (c : HealthSummary.Counts)
    (m : list (string * HealthSummary.Counts)) :
  NoDup (map fst m) -> NoDup (map fst (HealthSummary.mapSet p c m)).
Proof.
  assert (Hin : forall q m, q ∈ map fst (HealthSummary.mapSet p c m) -> q = p \/ q ∈ map fst m).
  { intros q m'. induction m' as [|[x c'] m' IH]; cbn [HealthSummary.mapSet map fst].
    - rewrite elem_of_cons, elem_of_nil. tauto.
    - destruct (String.eqb x p); cbn [map fst]; rewrite !elem_of_cons; [tauto|].
      intros [->|H]; [tauto|]. apply IH in H. tauto. }
  induction m as [|[x c'] m IH]; cbn [HealthSummary.mapSet map fst]; intros Hnd.
  - constructor; [apply not_elem_of_nil|constructor].
  - apply NoDup_cons in Hnd as [Hx Hnd].
    destruct (String.eqb x p) eqn:Hxp; cbn [map fst].
    + constructor; assumption.
    + constructor; [|apply IH, Hnd].
      intros H. apply Hin in H as [->|H]; [|exact (Hx H)].
      rewrite String.eqb_refl in Hxp. discriminate.
Qed.

Lemma mapGet_elem (p : string) (c : HealthSummary.Counts)
    (m : list (string * HealthSummary.Counts)) :
  NoDup (map fst m) -> (p, c) ∈ m <-> HealthSummary.mapGet p m = Some c.
Proof.
  unfold HealthSummary.mapGet. induction m as [|[x c'] m IH]; cbn [map fst find]; intros Hnd.
  - rewrite elem_of_nil. split; [tauto|discriminate].
  - apply NoDup_cons in Hnd as [Hx Hnd]. rewrite elem_of_cons.
    destruct (String.eqb_spec x p) as [->|Hne].
    + cbn [fmap option_fmap option_map snd]. split.
      * intros [[= ->]|H]; [reflexivity|]. exfalso. apply Hx.
        apply list_elem_of_In, in_map_iff. exists (p, c). split; [reflexivity|apply list_elem_of_In, H].
      * intros [= ->]. left. reflexivity.
    + rewrite <- (IH Hnd). split; [intros [[= -> ->]|H]; [congruence|exact H]|tauto].
Qed.

Lemma countKey_keys (now : Z) (m : list (string * HealthSummary.Counts)) (k : KeyHealth) :
  NoDup (map fst m) -> NoDup (map fst (HealthSummary.countKey now m k)).
Proof. apply mapSet_keys. Qed.

Lemma summary_keys (now : Z) (kh : list KeyHealth) (m : list (string * HealthSummary.Counts)) :
  NoDup (map fst m) -> NoDup (map fst (fold_left (HealthSummary.countKey now) kh m)).
Proof.
  revert m. induction kh as [|k kh IH]; intros m Hnd; [exact Hnd|].
  cbn [fold_left]. apply IH, countKey_keys, Hnd.
Qed.

Lemma healthy_le_total (now : Z) (kh : list KeyHealth) (p : string) :
  (length (healthyKeysFor now kh p) <= length (filter (fun e => provider e = p) kh))%nat.
Proof.
  unfold healthyKeysFor. rewrite length_map.
  induction kh as [|k kh IH]; [reflexivity|].
  rewrite !filter_cons.
  destruct (decide (healthy now p k = true)) as [Hh|Hh].
  - assert (provider k = p) as Hp.
    { unfold healthy in Hh. apply andb_true_iff in Hh as [Hh _].
      apply andb_true_iff in Hh as [Hh _]. apply String.eqb_eq, Hh. }
    rewrite decide_True by exact Hp. cbn [length]. lia.
  - destruct (decide (provider k = p)); cbn [length]; lia.
Qed.

Lemma summary_lookup (now : Z) (kh : list KeyHealth) (m : list (string * HealthSummary.Counts))
    (p : string) :
  HealthSummary.mapGet p (fold_left (HealthSummary.countKey now) kh m)
  = let c0 := default (HealthSummary.mkCounts 0 0) (HealthSummary.mapGet p m) in
    if (length (filter (fun e => provider e = p) kh) =? 0)%nat
    then HealthSummary.mapGet p m
    else Some (HealthSummary.mkCounts
                 (HealthSummary.healthy c0 + length (healthyKeysFor now kh p))
                 (HealthSummary.total c0 + length (filter (fun e => provider e = p) kh))).
Proof.
  revert m. induction kh as [|k kh IH]; intros m; [reflexivity|].
  cbn [fold_left]. rewrite IH. cbv zeta.
  pose proof (healthy_le_total now kh p) as Hle.
  unfold healthyKeysFor in *. rewrite !filter_cons.
  destruct (decide (provider k = p)) as [Hp|Hp].
  - unfold HealthSummary.countKey. rewrite Hp, mapGet_mapSet_same.
    cbn [default].
    assert (Hh : healthy now p k = negb (disabled k) && cooledDown now k).
    { unfold healthy. rewrite Hp, String.eqb_refl. reflexivity. }
    destruct (negb (disabled k) && cooledDown now k) eqn:Hflag.
    + rewrite decide_True by (rewrite Hh; reflexivity).
      cbn [length map default from_option id HealthSummary.healthy HealthSummary.total].
      rewrite length_map in *.
      destruct (length (filter (fun e => provider e = p) kh)) as [|t] eqn:Ht.
      * cbn [Nat.eqb]. f_equal. f_equal; lia.
      * cbn [Nat.eqb]. f_equal. f_equal; lia.
    + rewrite decide_False by (rewrite Hh; discriminate).
      cbn [length map default from_option id HealthSummary.healthy HealthSummary.total].
      rewrite length_map in *.
      destruct (length (filter (fun e => provider e = p) kh)) as [|t] eqn:Ht.
      * cbn [Nat.eqb]. f_equal. f_equal; lia.
      * cbn [Nat.eqb]. f_equal. f_equal; lia.
  - assert (Hh : healthy now p k = false).
    { unfold healthy. destruct (String.eqb_spec (provider k) p); [congruence|reflexivity]. }
    rewrite decide_False by (rewrite Hh; discriminate).
    unfold HealthSummary.countKey. rewrite mapGet_mapSet_other by congruence. reflexivity.
Qed.

(** X20. [healthSummary] has one row for each provider that has a key in
    the registry, and no other; the row's [total] is the number of the
    provider's entries and its [healthy] the number of keys that
    [healthyKeysFor] returns for the provider at that time. *)
Theorem healthSummary_counts (now : Z) (r : Router) :
  NoDup (map HealthSummary.provider (HealthSummary.healthSummary now r)) /\
  (forall row, row ∈ HealthSummary.healthSummary now r ->
     (exists e, e ∈ keyHealth r /\ provider e = HealthSummary.provider row) /\
     HealthSummary.row_healthy row
       = length (healthyKeysFor now (keyHealth r) (HealthSummary.provider row)) /\
     HealthSummary.row_total row
       = length (filter (fun e => provider e = HealthSummary.provider row) (keyHealth r))) /\
  (forall e, e ∈ keyHealth r ->
     exists row, row ∈ HealthSummary.healthSummary now r /\
                 HealthSummary.provider row = provider e).
Proof.
  unfold HealthSummary.healthSummary.
  pose proof (summary_keys now (keyHealth r) [] (NoDup_nil_2)) as Hnd.
  set (final := fold_left (HealthSummary.countKey now) (keyHealth r) []) in *.
  assert (Hlook : forall p,
    HealthSummary.mapGet p final
    = if (length (filter (fun e => provider e = p) (keyHealth r)) =? 0)%nat then None
      else Some (HealthSummary.mkCounts
                   (length (healthyKeysFor now (keyHealth r) p))
                   (length (filter (fun e => provider e = p) (keyHealth r))))).
  { intros p. unfold final. rewrite summary_lookup. reflexivity. }
  split; [|split].
  - rewrite map_map. cbn [HealthSummary.provider]. exact Hnd.
  - intros row Hrow. apply list_elem_of_In, in_map_iff in Hrow as ([p c] & <- & Hin).
    cbn [HealthSummary.provider HealthSummary.row_healthy HealthSummary.row_total fst snd].
    apply list_elem_of_In, (mapGet_elem p c final Hnd) in Hin.
    rewrite Hlook in Hin.
    destruct (length (filter (fun e => provider e = p) (keyHealth r))) as [|t] eqn:Ht;
      cbn [Nat.eqb] in Hin; [discriminate|].
    injection Hin as <-. cbn [HealthSummary.healthy HealthSummary.total].
    split; [|split; reflexivity].
    destruct (filter (fun e => provider e = p) (keyHealth r)) as [|e rest] eqn:Hf;
      [discriminate|].
    assert (He : e ∈ filter (fun e => provider e = p) (keyHealth r))
      by (rewrite Hf; apply list_elem_of_here).
    apply list_elem_of_filter in He as [Hp He]. exists e. split; assumption.
  - intros e He.
    specialize (Hlook (provider e)).
    assert (Hpos : length (filter (fun x => provider x = provider e) (keyHealth r)) <> 0%nat).
    { intros Hz. apply length_zero_iff_nil in Hz.
      assert (Hin : e ∈ filter (fun x => provider x = provider e) (keyHealth r))
        by (apply list_elem_of_filter; split; [reflexivity|exact He]).
      rewrite Hz in Hin. apply elem_of_nil in Hin. exact Hin. }
    apply Nat.eqb_neq in Hpos. rewrite Hpos in Hlook.
    eexists (HealthSummary.mkProviderHealth (provider e) _ _). split; [|reflexivity].
    apply list_elem_of_In, in_map_iff. eexists (provider e, _). split; [reflexivity|].
    apply list_elem_of_In, (mapGet_elem _ _ final Hnd). exact Hlook.
Qed.

End LLMRouterLaws.

(** ** The status updates of the runner *)

Module StatusUpdateLaws.
Import Types LLMRouter RouterExamples MoreRouterExamples RunnerExamples StatusUpdates TextLaws.

(** X21. Status updates are rate-limited from the last update that went
    through. A forced [postStatus] whose status ping and append both
    succeed hands the feed one entry, of at most 120 characters, for the
    agent and the task, and sets [lastStatusAt] to its clock reading;
    from then on [maybePostStatus] does nothing at all while the clock is
    less than five minutes past that reading. When the ping or the append
    fails, [lastStatusAt] stays as it was. *)
Theorem status_updates_are_rate_limited
    (env : StatusEnv) (reading : nat) (agentId : string) (task : Task) (s : Poster) :
  let s' := postStatus env reading agentId task true s in
  (forall line r', LLMRouter.statusPing (net env) (router s) = (JS.Resolved line, r') ->
                   append env = JS.Resolved tt ->
     lastStatusAt s' = dateNow env reading /\
     appended s' = appended s ++ [mkActivity agentId (id task) line] /\
     (String.length line <= 120)%nat /\
     forall env2 reading2 agent2 task2,
       dateNow env2 reading2 < dateNow env reading + 5 * 60 * 1000 ->
       maybePostStatus env2 reading2 agent2 task2 s' = s') /\
  ((exists e, fst (LLMRouter.statusPing (net env) (router s)) = JS.Rejected e) ->
   lastStatusAt s' = lastStatusAt s /\ appended s' = appended s) /\
  ((exists e, append env = JS.Rejected e) -> lastStatusAt s' = lastStatusAt s).
Proof.
  cbv zeta. unfold postStatus. cbn [negb andb].
  split; [|split].
  - intros line r' Hping Happ. rewrite Hping, Happ.
    cbn [lastStatusAt appended]. split; [reflexivity|]. split; [reflexivity|]. split.
    + pose proof (f_equal fst Hping) as Hfst. cbn [fst] in Hfst.
      unfold statusPing in Hfst.
      destruct (complete (net env) status_ping (router s)) as [[resp|e] r2];
        cbn [fst] in Hfst; [|discriminate].
      injection Hfst as <-. apply substring_length.
    + intros env2 reading2 agent2 task2 Hsoon. unfold maybePostStatus.
      cbn [lastStatusAt]. unfold STATUS_UPDATE_INTERVAL_MS.
      destruct (Z.ltb_spec (dateNow env2 reading2 - dateNow env reading) (5 * 60 * 1000));
        [reflexivity|lia].
  - intros (e & Hping).
    destruct (statusPing (net env) (router s)) as [[line|e'] r']; cbn [fst] in Hping;
      [discriminate|]. split; reflexivity.
  - intros (e & Happ). rewrite Happ.
    destruct (statusPing (net env) (router s)) as [[line|e'] r']; reflexivity.
Qed.

End StatusUpdateLaws.

(** ** The runner: what a run writes, logs and ends with *)

Module AgentRunnerLaws.
Import Types TaskQueue Page AgentRunner Examples RunnerNotions RunnerExamples
       RunNotions MoreRunnerExamples TaskQueueFacts AgentRunnerFacts.
Local Open Scope runner_scope.

(** *** What a run may write *)

Section Frame.
Context (agentId taskId runId : string).

Lemma framed_refl (w : World) : framed agentId taskId runId w w.
Proof. repeat split. Qed.

Lemma framed_trans (a b c : World) :
  framed agentId taskId runId a b -> framed agentId taskId runId b c ->
  framed agentId taskId runId a c.
Proof.
  intros (H1 & H2 & H3) (K1 & K2 & K3). repeat split; intros x Hx.
  - rewrite K1, H1 by exact Hx. reflexivity.
  - rewrite K2, H2 by exact Hx. reflexivity.
  - rewrite K3, H3 by exact Hx. reflexivity.
Qed.

Lemma keeps_ret {A} (a : A) : keeps agentId taskId runId (ret a).
Proof. intros w. apply framed_refl. Qed.

Lemma keeps_bind {A B} (m : M A) (k : A -> M B) :
  keeps agentId taskId runId m -> (forall a, keeps agentId taskId runId (k a)) ->
  keeps agentId taskId runId (bind m k).
Proof.
  intros Hm Hk w. unfold bind. specialize (Hm w).
  destruct (m w) as [a w'|e w']; cbn [after] in *; [|exact Hm].
  eapply framed_trans; [exact Hm|apply Hk].
Qed.

Lemma keeps_await {A} (r : JS.Result A) : keeps agentId taskId runId (await r).
Proof. intros w. unfold await. destruct r; apply framed_refl. Qed.

Lemma keeps_now (env : Env) : keeps agentId taskId runId (now env).
Proof. intros w. repeat split. Qed.

Lemma keeps_nowISO (env : Env) : keeps agentId taskId runId (nowISO env).
Proof. apply keeps_bind; [apply keeps_now|intros t; apply keeps_ret]. Qed.

Lemma keeps_read {A} (f : DB -> A) : keeps agentId taskId runId (read f).
Proof. intros w. apply framed_refl. Qed.

Lemma keeps_updateStatus (t : Z) (st : TaskStatus) (reason : option string) :
  keeps agentId taskId runId (write (updateStatus t taskId st reason)).
Proof.
  intros w. unfold write, updateStatus. cbn [after db setTasks tasks task_runs agent_state].
  repeat split. intros id Hid. cbn. apply lookup_alter_ne. congruence.
Qed.

Lemma keeps_requeueRecurring (t t' : Z) (task : Task) :
  id task = taskId ->
  keeps agentId taskId runId (write (requeueRecurring t t' task)).
Proof.
  intros <- w. unfold write, requeueRecurring. cbn [after db].
  destruct (recurrence task) as [[| |]|]; try apply framed_refl;
    (repeat split; intros x Hx; cbn; apply lookup_alter_ne; congruence).
Qed.

Lemma keeps_saveAgentState (state : AgentState) :
  as_agentId state = agentId ->
  keeps agentId taskId runId (write (saveAgentState state)).
Proof.
  intros <- w. unfold write, saveAgentState. cbn [after db].
  repeat split. intros a Ha. cbn. apply lookup_insert_ne. congruence.
Qed.

Lemma keeps_saveTaskRun (run : TaskRun) :
  run_id run = runId ->
  keeps agentId taskId runId (write (saveTaskRun run)).
Proof.
  intros <- w. unfold write, saveTaskRun. cbn [after db].
  repeat split. intros r Hr. cbn. apply lookup_insert_ne. congruence.
Qed.

End Frame.

Lemma keeps_recordStep (env : Env) (agentId : string) (task : Task) (stepIdx : nat)
    (stepDesc stepResult : string) (stepOk : bool) (l : Loop) (runId : string) :
  keeps agentId (id task) runId
        (recordStep env agentId task stepIdx stepDesc stepResult stepOk l).
Proof.
  unfold recordStep.
  apply keeps_bind; [apply keeps_now|intros t].
  apply keeps_bind; [apply keeps_nowISO|intros hb].
  apply keeps_bind; [apply keeps_saveAgentState; reflexivity|intros _].
  destruct (negb stepOk && _); apply keeps_ret.
Qed.

Lemma keeps_stepBody (env : Env) (agentId : string) (task : Task) (stepIdx : nat)
    (item : option string) (l : Loop) (runId : string) :
  keeps agentId (id task) runId (stepBody env agentId task stepIdx item l).
Proof.
  unfold stepBody. destruct (observe env task stepIdx _); [apply keeps_ret|].
  destruct (stepCompletion env stepIdx); [apply keeps_recordStep|].
  destruct (MAX_CONSECUTIVE_FAILURES <=? _)%nat; [apply keeps_ret|apply keeps_recordStep].
Qed.

Lemma keeps_stepLoop (env : Env) (agentId : string) (task : Task)
    (rest : list (option string)) (stepIdx : nat) (l : Loop) (runId : string) :
  keeps agentId (id task) runId (stepLoop env agentId task rest stepIdx l).
Proof.
  revert stepIdx l. induction rest as [|item rest IH]; intros stepIdx l; [apply keeps_ret|].
  cbn [stepLoop].
  destruct (negb (stepIdx <? MAX_STEPS_PER_RUN)%nat); [apply keeps_ret|].
  destruct (negb (runningAtStep env stepIdx)); [apply keeps_ret|].
  apply keeps_bind; [apply keeps_stepBody|].
  intros [l'|l']; [apply keeps_ret|apply IH].
Qed.

Lemma keeps_executeTask (env : Env) (agentId : string) (task : Task) :
  keeps agentId (id task) (randomUUID env) (executeTask env agentId task).
Proof.
  unfold executeTask.
  apply keeps_bind.
  { unfold prepare.
    apply keeps_bind; [apply keeps_nowISO|intros startedAt].
    apply keeps_bind; [apply keeps_read|intros st].
    apply keeps_bind; [apply keeps_nowISO|intros hb].
    apply keeps_bind; [apply keeps_saveAgentState; reflexivity|intros _].
    apply keeps_bind; [apply keeps_await|intros found]. apply keeps_ret. }
  intros started. cbv zeta.
  apply keeps_bind; [apply keeps_stepLoop|intros l].
  unfold conclude.
  apply keeps_bind; [apply keeps_nowISO|intros finishedAt].
  apply keeps_bind.
  { unfold finish. destruct (JS.orUndefined (pauseReason l)).
    - apply keeps_bind; [apply keeps_now|intros t]. apply keeps_updateStatus.
    - destruct (taskFailed l).
      + apply keeps_bind; [apply keeps_now|intros t]. apply keeps_updateStatus.
      + unfold succeed. apply keeps_bind; [|intros _; apply keeps_await].
        destruct (recurrence task) as [[| |]|].
        * apply keeps_bind; [apply keeps_now|intros t]. apply keeps_updateStatus.
        * apply keeps_bind; [apply keeps_now|intros t].
          apply keeps_bind; [apply keeps_now|intros t'].
          apply keeps_requeueRecurring. reflexivity.
        * apply keeps_bind; [apply keeps_now|intros t].
          apply keeps_bind; [apply keeps_now|intros t'].
          apply keeps_requeueRecurring. reflexivity.
        * apply keeps_bind; [apply keeps_now|intros t]. apply keeps_updateStatus. }
  intros _.
  apply keeps_bind; [apply keeps_saveTaskRun; reflexivity|intros _].
  apply keeps_bind; [apply keeps_nowISO|intros hb].
  apply keeps_saveAgentState. reflexivity.
Qed.

(** X22. Whether it returns or throws, [executeTask] writes to no task
    row other than the row of its task, to no agent-state row other than
    the agent's own, and to no run other than the one it creates. *)
Theorem executeTask_writes_only_its_own_rows
    (env : Env) (agentId : string) (task : Task) (w : World) :
  (forall id, id <> Types.id task ->
     tasks (db (after (executeTask env agentId task w))) !! id = tasks (db w) !! id) /\
  (forall a, a <> agentId ->
     agent_state (db (after (executeTask env agentId task w))) !! a
     = agent_state (db w) !! a) /\
  (forall r, r <> randomUUID env ->
     task_runs (db (after (executeTask env agentId task w))) !! r = task_runs (db w) !! r).
Proof. exact (keeps_executeTask env agentId task w). Qed.

(** X23. A tick of the runner of one agent: when the runner is stopped
    it does nothing; when no task of the agent is eligible it leaves the
    database as it is; and in every case the task rows of the other
    agents, the agent-state rows of the other agents, and the runs other
    than the one it creates are left as they are. *)
Theorem tick_leaves_other_agents_alone (env : Env) (agentId : string) (w : World) :
  (runningAtTick env = false -> tick env agentId w = w) /\
  ((forall id row, tasks (db w) !! id = Some row ->
      eligible agentId (JS.toISOString (dateNow env (reads w))) row = false) ->
   db (tick env agentId w) = db w) /\
  (forall id row, tasks (db w) !! id = Some row -> agent_id row <> agentId ->
     tasks (db (tick env agentId w)) !! id = Some row) /\
  (forall a, a <> agentId ->
     agent_state (db (tick env agentId w)) !! a = agent_state (db w) !! a) /\
  (forall r, r <> randomUUID env ->
     task_runs (db (tick env agentId w)) !! r = task_runs (db w) !! r).
Proof.
  unfold tick. split; [intros ->; reflexivity|].
  destruct (negb (runningAtTick env)).
  { repeat split; try reflexivity. intros id row Hrow _. exact Hrow. }
  rewrite claimNext_unfold.
  destruct (selectNext agentId (JS.toISOString (dateNow env (reads w))) (db w))
    as [[tid trow]|] eqn:Hsel.
  2:{ cbn [db]. repeat split; try reflexivity. intros id row Hrow _. exact Hrow. }
  pose proof (selectNext_sound _ _ _ _ _ Hsel) as (Hrow & Hel & _).
  set (task := rowToTask tid _).
  set (w1 := mkWorld _ _).
  pose proof (keeps_executeTask env agentId task w1) as (Ht & Ha & Hr).
  assert (Hw : forall o : Outcome unit,
             match o with Returned _ w' => w' | Threw _ w' => w' end = after o)
    by (intros [? ?|? ?]; reflexivity).
  rewrite Hw. change (Types.id task) with tid in Ht.
  split; [|split; [|split]].
  - intros Hno. rewrite (Hno tid trow Hrow) in Hel. discriminate.
  - intros id row Hid Hagent.
    assert (id <> tid).
    { intros ->. rewrite Hrow in Hid. injection Hid as ->.
      apply eligible_iff in Hel as (Hag & _). congruence. }
    rewrite Ht by assumption. cbn [w1 db setTasks tasks].
    rewrite lookup_alter_ne by congruence. exact Hid.
  - intros a Hne. rewrite Ha by exact Hne. reflexivity.
  - intros r Hne. rewrite Hr by exact Hne. reflexivity.
Qed.


(** *** The step loop, iteration by iteration *)

(** What one iteration does, by the answer of the observer and of the
    step completion. *)
Lemma stepBody_cases (env : Env) (agentId : string) (task : Task) (stepIdx : nat)
    (item : option string) (l : Loop) (w : World) :
  (exists reason,
      observe env task stepIdx (setStepIndex stepIdx (memory l)) = inl reason /\
      stepBody env agentId task stepIdx item l w
        = Returned (Break (blockedAt stepIdx reason l)) w) \/
  (exists mem',
      observe env task stepIdx (setStepIndex stepIdx (memory l)) = inr mem' /\
      ((rejectedAt env stepIdx = true /\
        (MAX_CONSECUTIVE_FAILURES <= S (consecutiveFailures l))%nat /\
        stepBody env agentId task stepIdx item l w
          = Returned (Break (mkLoop (loop_steps l) mem' (S (consecutiveFailures l)) true
                                    (Some failureReason))) w) \/
       (exists s l' w',
           stepBody env agentId task stepIdx item l w = Returned (Continue l') w' /\
           (rejectedAt env stepIdx = true -> (S (consecutiveFailures l) < 3)%nat) /\
           loop_steps l' = loop_steps l ++ [s] /\
           index s = stepIdx /\
           description s = default "Execute goal"%string item /\
           result s = match stepCompletion env stepIdx with
                      | JS.Resolved text => JS.trim text
                      | JS.Rejected err => String.append "Error: " (JS.err_message err)
                      end /\
           consecutiveFailures l'
             = (if rejectedAt env stepIdx then S (consecutiveFailures l) else 0)%nat /\
           taskFailed l' = taskFailed l /\ pauseReason l' = pauseReason l))).
Proof.
  unfold stepBody, rejectedAt.
  destruct (observe env task stepIdx (setStepIndex stepIdx (memory l))) as [reason|mem'] eqn:Hobs.
  { left. exists reason. split; reflexivity. }
  right. exists mem'. split; [reflexivity|].
  destruct (stepCompletion env stepIdx) as [text|err].
  - right.
    destruct (recordStep_returns env agentId task stepIdx
                (default "Execute goal"%string item) (JS.trim text) true
                (mkLoop (loop_steps l) mem' 0 (taskFailed l) (pauseReason l)) w)
      as (l' & w' & Hrec & Hsteps & _ & Hcf & Htf & Hpr & _).
    eexists _, l', w'. cbn [negb andb] in Hrec |- *. split; [exact Hrec|].
    split; [discriminate|]. split; [exact Hsteps|]. repeat split; assumption.
  - destruct (MAX_CONSECUTIVE_FAILURES <=? S (consecutiveFailures l))%nat eqn:Hmax.
    + left. split; [reflexivity|]. split; [apply Nat.leb_le, Hmax|reflexivity].
    + right.
      destruct (recordStep_returns env agentId task stepIdx
                  (default "Execute goal"%string item)
                  (String.append "Error: " (JS.err_message err)) false
                  (mkLoop (loop_steps l) mem' (S (consecutiveFailures l))
                          (taskFailed l) (pauseReason l)) w)
        as (l' & w' & Hrec & Hsteps & _ & Hcf & Htf & Hpr & _).
      cbn [consecutiveFailures negb andb] in Hrec. rewrite Hmax in Hrec.
      eexists _, l', w'. split; [exact Hrec|].
      split; [intros _; apply Nat.leb_gt in Hmax; exact Hmax|].
      split; [exact Hsteps|]. repeat split; assumption.
Qed.


Lemma drop_cons_inv {A} (n : nat) (l : list A) (x : A) (rest : list A) :
  drop n l = x :: rest -> l !! n = Some x /\ drop (S n) l = rest /\ (n < length l)%nat.
Proof.
  revert l. induction n as [|n IH]; intros [|y l]; cbn; try discriminate.
  - intros [= -> ->]. split; [reflexivity|]. split; [apply drop_0|lia].
  - intros H. apply IH in H as (H1 & H2 & H3). split; [exact H1|]. split; [exact H2|lia].
Qed.

Lemma drop_nil_inv {A} (n : nat) (l : list A) : drop n l = [] -> (length l <= n)%nat.
Proof.
  revert l. induction n as [|n IH]; intros [|y l]; cbn; try discriminate; try lia.
  intros H. apply IH in H. lia.
Qed.

(** The loop from [stepIdx] on: what it has logged when it stops, and
    why it stopped. *)
Lemma stepLoop_trace (env : Env) (agentId : string) (task : Task)
    (plan rest : list (option string)) (stepIdx : nat) (l : Loop) (w : World) :
  drop stepIdx plan = rest ->
  (stepIdx <= length plan)%nat -> (stepIdx <= MAX_STEPS_PER_RUN)%nat ->
  length (loop_steps l) = stepIdx ->
  (forall i s, loop_steps l !! i = Some s -> logged env plan i s) ->
  running_on l ->
  (consecutiveFailures l < 3)%nat ->
  (forall j, (j < consecutiveFailures l)%nat ->
             (j < stepIdx)%nat /\ rejectedAt env (stepIdx - 1 - j) = true) ->
  exists l' w',
    stepLoop env agentId task rest stepIdx l w = Returned l' w' /\
    (stepIdx <= length (loop_steps l'))%nat /\
    (length (loop_steps l') <= Nat.min (length plan) MAX_STEPS_PER_RUN)%nat /\
    (forall i s, loop_steps l' !! i = Some s -> logged env plan i s) /\
    (forall i, (stepIdx <= i < length (loop_steps l'))%nat -> runningAtStep env i = true) /\
    ((length (loop_steps l') = Nat.min (length plan) MAX_STEPS_PER_RUN /\ running_on l') \/
     ((length (loop_steps l') < Nat.min (length plan) MAX_STEPS_PER_RUN)%nat /\
      runningAtStep env (length (loop_steps l')) = false /\ running_on l') \/
     ((length (loop_steps l') < Nat.min (length plan) MAX_STEPS_PER_RUN)%nat /\
      runningAtStep env (length (loop_steps l')) = true /\
      (exists mem reason,
          observe env task (length (loop_steps l')) mem = inl reason /\
          pauseReason l' = Some reason) /\
      taskFailed l' = false) \/
     ((length (loop_steps l') < Nat.min (length plan) MAX_STEPS_PER_RUN)%nat /\
      runningAtStep env (length (loop_steps l')) = true /\
      (2 <= length (loop_steps l'))%nat /\
      rejectedAt env (length (loop_steps l')) = true /\
      rejectedAt env (length (loop_steps l') - 1) = true /\
      rejectedAt env (length (loop_steps l') - 2) = true /\
      pauseReason l' = Some failureReason /\ taskFailed l' = true)).
Proof.
  revert stepIdx l w. induction rest as [|item rest IH];
    intros stepIdx l w Hdrop Hlen Hmax Hsteps Hlog Hrun Hcf Hrej.
  - apply drop_nil_inv in Hdrop.
    exists l, w. split; [reflexivity|]. rewrite Hsteps.
    split; [lia|]. split; [lia|]. split; [exact Hlog|]. split; [intros i Hi; lia|].
    left. split; [lia|exact Hrun].
  - apply drop_cons_inv in Hdrop as (Hitem & Hdrop & Hlt).
    rewrite stepLoop_cons.
    destruct (stepIdx <? MAX_STEPS_PER_RUN)%nat eqn:Hcap; cbn [negb].
    2:{ apply Nat.ltb_ge in Hcap.
        exists l, w. split; [reflexivity|]. rewrite Hsteps.
        split; [lia|]. split; [lia|]. split; [exact Hlog|]. split; [intros i Hi; lia|].
        left. split; [lia|exact Hrun]. }
    apply Nat.ltb_lt in Hcap.
    destruct (runningAtStep env stepIdx) eqn:Hrunning; cbn [negb].
    2:{ exists l, w. split; [reflexivity|]. rewrite Hsteps.
        split; [lia|]. split; [lia|]. split; [exact Hlog|]. split; [intros i Hi; lia|].
        right. left. split; [lia|]. split; [exact Hrunning|exact Hrun]. }
    destruct (stepBody_cases env agentId task stepIdx item l w)
      as [(reason & Hobs & Hbody)|(mem' & Hobs & [(Hr & Hfail & Hbody)|Hcont])].
    + rewrite Hbody. eexists _, w. split; [reflexivity|].
      cbn [blockedAt loop_steps pauseReason taskFailed]. rewrite Hsteps.
      split; [lia|]. split; [lia|]. split; [exact Hlog|]. split; [intros i Hi; lia|].
      right. right. left. split; [lia|]. split; [exact Hrunning|].
      split; [eauto|apply Hrun].
    + rewrite Hbody. eexists _, w. split; [reflexivity|].
      cbn [loop_steps pauseReason taskFailed]. rewrite Hsteps.
      split; [lia|]. split; [lia|]. split; [exact Hlog|]. split; [intros i Hi; lia|].
      right. right. right.
      unfold MAX_CONSECUTIVE_FAILURES in Hfail.
      destruct (Hrej 0%nat ltac:(lia)) as [H0 Hr0].
      destruct (Hrej 1%nat ltac:(lia)) as [H1 Hr1].
      replace (stepIdx - 1 - 0)%nat with (stepIdx - 1)%nat in Hr0 by lia.
      replace (stepIdx - 1 - 1)%nat with (stepIdx - 2)%nat in Hr1 by lia.
      split; [lia|]. split; [exact Hrunning|]. split; [lia|].
      repeat split; assumption.
    + destruct Hcont as (s & l1 & w1 & Hbody & Hlt3 & Hs & Hidx & Hdesc & Hres & Hcf1 & Htf & Hpr).
      rewrite Hbody.
      destruct (IH (S stepIdx) l1 w1 Hdrop ltac:(lia) ltac:(lia)) as
        (l' & w' & Hloop & Hge & Hle & Hlog' & Hrunning' & Hwhy).
      * rewrite Hs, length_app, Hsteps. cbn. lia.
      * intros i s' Hi. rewrite Hs in Hi.
        apply lookup_app_Some in Hi as [Hi|[Hge Hi]]; [apply Hlog, Hi|].
        rewrite Hsteps in Hge, Hi.
        destruct (i - stepIdx)%nat as [|n] eqn:Hn; [|destruct n; discriminate].
        cbn in Hi. injection Hi as <-.
        assert (i = stepIdx) as -> by lia.
        split; [exact Hidx|]. split; [exists item; split; [exact Hitem|exact Hdesc]|exact Hres].
      * destruct Hrun as [Hrf Hrp]. split; congruence.
      * rewrite Hcf1. destruct (rejectedAt env stepIdx); [apply Hlt3; reflexivity|lia].
      * intros j Hj. rewrite Hcf1 in Hj.
        destruct (rejectedAt env stepIdx) eqn:Hr; [|lia].
        destruct j as [|j].
        -- split; [lia|]. replace (S stepIdx - 1 - 0)%nat with stepIdx by lia. exact Hr.
        -- destruct (Hrej j ltac:(lia)) as [Hj1 Hj2]. split; [lia|].
           replace (S stepIdx - 1 - S j)%nat with (stepIdx - 1 - j)%nat by lia. exact Hj2.
      * exists l', w'. split; [exact Hloop|]. split; [lia|]. split; [exact Hle|].
        split; [exact Hlog'|]. split; [|exact Hwhy].
        intros i Hi. destruct (decide (i = stepIdx)) as [->|Hne]; [exact Hrunning|].
        apply Hrunning'. lia.
Qed.


(** *** The run as a whole *)

Lemma conclude_run (env : Env) (agentId : string) (task : Task) (startedAt : string)
    (l : Loop) (w wf : World) :
  conclude env agentId task startedAt l w = Returned tt wf ->
  exists finishedAt,
    task_runs (db wf) !! randomUUID env
    = Some (mkTaskRun (randomUUID env) (id task) agentId startedAt (Some finishedAt)
                      (loop_steps l) None None).
Proof.
  unfold conclude, nowISO, now, write, bind, ret. cbn [db reads].
  destruct (finish env task l _) as [[] w2|e w2]; [|discriminate].
  intros [= <-]. eexists. cbn [db saveAgentState saveTaskRun task_runs run_id].
  apply lookup_insert_eq.
Qed.

Lemma startLoop_trace (env : Env) (agentId : string) (task : Task)
    (plan : list (option string)) (mem1 : WorkingMemory) (w : World) :
  exists l' w',
    stepLoop env agentId task plan 0 (startLoop plan mem1) w = Returned l' w' /\
    untouched w w' /\
    (length (loop_steps l') <= Nat.min (length plan) MAX_STEPS_PER_RUN)%nat /\
    (forall i s, loop_steps l' !! i = Some s -> logged env plan i s) /\
    (forall i, (i < length (loop_steps l'))%nat -> runningAtStep env i = true) /\
    ((length (loop_steps l') = Nat.min (length plan) MAX_STEPS_PER_RUN /\ running_on l') \/
     ((length (loop_steps l') < Nat.min (length plan) MAX_STEPS_PER_RUN)%nat /\
      runningAtStep env (length (loop_steps l')) = false /\ running_on l') \/
     ((length (loop_steps l') < Nat.min (length plan) MAX_STEPS_PER_RUN)%nat /\
      runningAtStep env (length (loop_steps l')) = true /\
      (exists mem reason,
          observe env task (length (loop_steps l')) mem = inl reason /\
          pauseReason l' = Some reason) /\
      taskFailed l' = false) \/
     ((length (loop_steps l') < Nat.min (length plan) MAX_STEPS_PER_RUN)%nat /\
      runningAtStep env (length (loop_steps l')) = true /\
      (2 <= length (loop_steps l'))%nat /\
      rejectedAt env (length (loop_steps l')) = true /\
      rejectedAt env (length (loop_steps l') - 1) = true /\
      rejectedAt env (length (loop_steps l') - 2) = true /\
      pauseReason l' = Some failureReason /\ taskFailed l' = true)).
Proof.
  destruct (stepLoop_trace env agentId task plan plan 0 (startLoop plan mem1) w)
    as (l' & w' & Hloop & _ & Hle & Hlog & Hrunning & Hwhy).
  - apply drop_0.
  - lia.
  - unfold MAX_STEPS_PER_RUN. lia.
  - reflexivity.
  - intros i s Hi. cbn in Hi. rewrite lookup_nil in Hi. discriminate.
  - split; reflexivity.
  - cbn. lia.
  - intros j Hj. cbn in Hj. lia.
  - exists l', w'. split; [exact Hloop|].
    destruct (stepLoop_returns env agentId task plan 0 (startLoop plan mem1) w)
      as (l2 & w2 & Hloop2 & Hunt & _); [split; reflexivity|].
    rewrite Hloop in Hloop2. injection Hloop2 as <- <-.
    split; [exact Hunt|]. split; [exact Hle|]. split; [exact Hlog|].
    split; [|exact Hwhy]. intros i Hi. apply Hrunning. lia.
Qed.

(** X24. The run that [executeTask] persists when it returns is a log of
    the plan from its start: it holds at most min(plan length, 20) steps;
    its i-th step has index i, the i-th plan item as description
    ("Execute goal" for an item that is null) and, as result, the trimmed
    answer of the step completion or "Error: " with the message of its
    failure. *)
Theorem run_log_follows_plan
    (env : Env) (agentId : string) (task : Task) (w wf : World) :
  executeTask env agentId task w = Returned tt wf ->
  exists run,
    task_runs (db wf) !! randomUUID env = Some run /\
    taskId run = Types.id task /\ run_agentId run = agentId /\
    (length (steps run) <= Nat.min (length (buildPlan env task)) 20)%nat /\
    forall i s, steps run !! i = Some s -> logged env (buildPlan env task) i s.
Proof.
  unfold executeTask, bind.
  destruct (prepare env agentId task w) as [[startedAt mem1] w1|e w1]; [|discriminate].
  cbv zeta. cbn [fst snd].
  destruct (startLoop_trace env agentId task (buildPlan env task) mem1 w1)
    as (l' & w' & Hloop & _ & Hle & Hlog & _).
  rewrite Hloop. intros Hconc.
  apply conclude_run in Hconc as (finishedAt & Hrun).
  eexists. split; [exact Hrun|]. cbn [taskId run_agentId steps].
  split; [reflexivity|]. split; [reflexivity|]. split; [exact Hle|exact Hlog].
Qed.

Lemma run_log_follows_plan_witness :
  exists wf run,
    executeTask twoFailuresThenSuccess "agent-A" likePost claimedWorld = Returned tt wf /\
    task_runs (db wf) !! "run-1"%string = Some run /\
    (length (steps run) <= Nat.min (length (buildPlan twoFailuresThenSuccess likePost)) 20)%nat /\
    forall i s, steps run !! i = Some s ->
                logged twoFailuresThenSuccess (buildPlan twoFailuresThenSuccess likePost) i s.
Proof.
  assert (Hex : exists wf,
             executeTask twoFailuresThenSuccess "agent-A" likePost claimedWorld
             = Returned tt wf) by (eexists; vm_compute; reflexivity).
  destruct Hex as (wf & Hex).
  destruct (run_log_follows_plan _ _ _ _ _ Hex) as (run & Hrun & _ & _ & Hlen & Hlog).
  exists wf, run. split; [exact Hex|]. split; [exact Hrun|]. split; [exact Hlen|exact Hlog].
Defined.

Lemma world_after_prepare (env : Env) (agentId : string) (task : Task) (w : World)
    (row : TaskRow) :
  tasks (db w) !! id task = Some row ->
  match episodicSearch env with
  | JS.Resolved _ =>
      exists startedAt mem1 w1,
        prepare env agentId task w = Returned (startedAt, mem1) w1 /\
        tasks (db w1) !! id task = Some row
  | JS.Rejected e => exists w1, prepare env agentId task w = Threw e w1
  end.
Proof.
  intros Hrow. destruct (prepare_outcome env agentId task w) as (mem1 & w1 & H & (Ht & _) & _).
  destruct (episodicSearch env).
  - eexists _, mem1, w1. split; [exact H|]. rewrite Ht. exact Hrow.
  - exists w1. exact H.
Qed.

Lemma blocked_is_not_failure (x : string) :
  String.append "Blocked by " x <> failureReason.
Proof. discriminate. Qed.

(** X25. A run ends [paused] with reason "3 consecutive failures" only
    after three step completions in a row have failed: steps k, k+1 and
    k+2 of the plan, within its first 20. The run log then holds the k+2
    steps before the last failure, which is not logged. *)
Theorem paused_for_failures_after_three_in_a_row
    (env : Env) (agentId : string) (task : Task) (w wf : World) (row : TaskRow) :
  tasks (db w) !! Types.id task = Some row ->
  executeTask env agentId task w = Returned tt wf ->
  statusOf task wf = Some (paused, Some "3 consecutive failures"%string) ->
  exists k recorded,
    (k + 2 < Nat.min (length (buildPlan env task)) 20)%nat /\
    rejectedAt env k = true /\ rejectedAt env (k + 1) = true /\
    rejectedAt env (k + 2) = true /\
    runPersisted env task recorded wf /\ length recorded = (k + 2)%nat.
Proof.
  intros Hrow Hex Hstatus.
  pose proof (world_after_prepare env agentId task w row Hrow) as Hprep.
  unfold executeTask, bind in Hex.
  destruct (episodicSearch env) as [found|e].
  2:{ destruct Hprep as (w1 & Hprep). rewrite Hprep in Hex. discriminate. }
  destruct Hprep as (startedAt & mem1 & w1 & Hprep & Hrow1).
  rewrite Hprep in Hex. cbv zeta in Hex. cbn [fst snd] in Hex.
  destruct (startLoop_trace env agentId task (buildPlan env task) mem1 w1)
    as (l' & w' & Hloop & (Htasks & _) & Hle & _ & _ & Hwhy).
  rewrite Hloop in Hex.
  assert (Hrow' : tasks (db w') !! Types.id task = Some row) by (rewrite Htasks; exact Hrow1).
  assert (Hsuccess : running_on l' -> False).
  { intros [Htf Hpr].
    destruct (conclude_success env agentId task startedAt l' w' row) as (wf' & st & Hc & Hst & _).
    - rewrite Hpr. reflexivity.
    - intros H. congruence.
    - exact Hrow'.
    - destruct (episodicStore env).
      + destruct Hc as (Hc & _). rewrite Hc in Hex. injection Hex as <-. congruence.
      + destruct Hc as (Hc & _). rewrite Hc in Hex. discriminate. }
  destruct Hwhy as [(_ & Hrun)|[(_ & _ & Hrun)|[Hblocked|Hfailed]]];
    [destruct (Hsuccess Hrun)|destruct (Hsuccess Hrun)| |].
  - destruct Hblocked as (_ & _ & (mem & reason & Hobs & Hpr) & _).
    destruct (observe_cases env task (length (loop_steps l')) mem)
      as [(u & get & ps & _ & _ & _ & _ & _ & Hobs')|(mem' & Hobs')];
      rewrite Hobs in Hobs'; [|discriminate].
    injection Hobs' as ->.
    destruct (conclude_paused env agentId task startedAt l' w' (blockedReason ps) row)
      as (wf' & Hc & Hst & _); [rewrite Hpr; apply blocked_truthy|exact Hrow'|].
    rewrite Hc in Hex. injection Hex as <-. rewrite Hst in Hstatus.
    apply (inj Some) in Hstatus. apply (f_equal snd) in Hstatus. cbn [snd] in Hstatus.
    apply (inj Some) in Hstatus. destruct (blocked_is_not_failure _ Hstatus).
  - destruct Hfailed as (Hlt & _ & H2 & Hr0 & Hr1 & Hr2 & Hpr & _).
    destruct (conclude_paused env agentId task startedAt l' w' failureReason row)
      as (wf' & Hc & _ & Hpers & _); [rewrite Hpr; apply failureReason_truthy|exact Hrow'|].
    rewrite Hc in Hex. injection Hex as <-.
    exists (length (loop_steps l') - 2)%nat, (loop_steps l').
    replace (length (loop_steps l') - 2 + 2)%nat with (length (loop_steps l')) by lia.
    replace (length (loop_steps l') - 2 + 1)%nat with (length (loop_steps l') - 1)%nat by lia.
    unfold MAX_STEPS_PER_RUN in Hlt.
    split; [exact Hlt|]. split; [exact Hr2|]. split; [exact Hr1|]. split; [exact Hr0|].
    split; [exact Hpers|reflexivity].
Qed.

Lemma paused_for_failures_after_three_in_a_row_witness :
  exists wf k recorded,
    executeTask allStepsFail "agent-A" likePost claimedWorld = Returned tt wf /\
    statusOf likePost wf = Some (paused, Some "3 consecutive failures"%string) /\
    rejectedAt allStepsFail k = true /\ rejectedAt allStepsFail (k + 1) = true /\
    rejectedAt allStepsFail (k + 2) = true /\
    runPersisted allStepsFail likePost recorded wf /\ length recorded = (k + 2)%nat.
Proof.
  assert (Hex : exists wf,
             executeTask allStepsFail "agent-A" likePost claimedWorld = Returned tt wf /\
             statusOf likePost wf = Some (paused, Some "3 consecutive failures"%string)).
  { eexists. split; vm_compute; reflexivity. }
  destruct Hex as (wf & Hex & Hst).
  destruct (paused_for_failures_after_three_in_a_row allStepsFail "agent-A" likePost
              claimedWorld wf _ ltac:(vm_compute; reflexivity) Hex Hst)
    as (k & recorded & _ & H0 & H1 & H2 & Hpers & Hlen).
  exists wf, k, recorded. repeat split; assumption.
Defined.


Lemma conclude_done (env : Env) (agentId : string) (task : Task) (startedAt : string)
    (l : Loop) (w : World) (row : TaskRow) :
  running_on l ->
  tasks (db w) !! id task = Some row ->
  episodicStore env = JS.Resolved tt ->
  exists wf,
    conclude env agentId task startedAt l w = Returned tt wf /\
    statusOf task wf = Some (afterSuccess task, None) /\
    runPersisted env task (loop_steps l) wf /\
    pointsNowhere agentId wf.
Proof.
  intros [Htf Hpr] Hrow Hstore.
  unfold conclude, finish, succeed, nowISO, now, write, await, bind, ret, afterSuccess.
  cbn [db reads]. rewrite Hpr, Htf, Hstore. cbn [JS.orUndefined].
  unfold statusOf, runPersisted, pointsNowhere.
  destruct (recurrence task) as [[| |]|] eqn:Hrec; cbn [db reads];
    (eexists; split; [reflexivity|]);
    cbn [db tasks task_runs agent_state saveAgentState saveTaskRun];
    (split; [|split;
       [eexists; split; [apply lookup_insert_eq|]; cbn; repeat split; eexists; reflexivity
       |eexists; split; [apply lookup_insert_eq|reflexivity]]]).
  - apply (updateStatus_status _ _ _ _ _ _ Hrow).
  - apply (requeueRecurring_status _ _ task _ row Hrow); congruence.
  - apply (requeueRecurring_status _ _ task _ row Hrow); congruence.
  - apply (updateStatus_status _ _ _ _ _ _ Hrow).
Qed.

(** A run without blocking alerts and without three failures in a row
    takes the success path, with the steps up to the end of the plan, the
    cap, or the step at which the runner was found stopped. *)
Lemma run_on_success_path (env : Env) (agentId : string) (task : Task) (w : World)
    (row : TaskRow) (found : list string) :
  tasks (db w) !! id task = Some row ->
  episodicSearch env = JS.Resolved found ->
  episodicStore env = JS.Resolved tt ->
  (forall i mem reason, observe env task i mem <> inl reason) ->
  (forall k, rejectedAt env k && rejectedAt env (S k) && rejectedAt env (S (S k)) = false) ->
  exists wf recorded,
    executeTask env agentId task w = Returned tt wf /\
    statusOf task wf = Some (afterSuccess task, None) /\
    runPersisted env task recorded wf /\
    pointsNowhere agentId wf /\
    (forall i, (i < length recorded)%nat -> runningAtStep env i = true) /\
    (length recorded = Nat.min (length (buildPlan env task)) MAX_STEPS_PER_RUN \/
     ((length recorded < Nat.min (length (buildPlan env task)) MAX_STEPS_PER_RUN)%nat /\
      runningAtStep env (length recorded) = false)).
Proof.
  intros Hrow Hsearch Hstore Hclear Hiso.
  pose proof (world_after_prepare env agentId task w row Hrow) as Hprep.
  rewrite Hsearch in Hprep. destruct Hprep as (startedAt & mem1 & w1 & Hprep & Hrow1).
  unfold executeTask, bind. rewrite Hprep. cbv zeta. cbn [fst snd].
  destruct (startLoop_trace env agentId task (buildPlan env task) mem1 w1)
    as (l' & w' & Hloop & (Htasks & _) & Hle & _ & Hrunning & Hwhy).
  rewrite Hloop.
  assert (Hrow' : tasks (db w') !! id task = Some row) by (rewrite Htasks; exact Hrow1).
  assert (Hok : running_on l' /\
                (length (loop_steps l') = Nat.min (length (buildPlan env task)) MAX_STEPS_PER_RUN \/
                 ((length (loop_steps l') <
                   Nat.min (length (buildPlan env task)) MAX_STEPS_PER_RUN)%nat /\
                  runningAtStep env (length (loop_steps l')) = false))).
  { destruct Hwhy as [(Hk & Hrun)|[(Hk & Hstop & Hrun)|[Hblocked|Hfailed]]].
    - split; [exact Hrun|left; exact Hk].
    - split; [exact Hrun|right; split; assumption].
    - destruct Hblocked as (_ & _ & (mem & reason & Hobs & _) & _).
      destruct (Hclear _ _ _ Hobs).
    - destruct Hfailed as (_ & _ & H2 & Hr0 & Hr1 & Hr2 & _).
      specialize (Hiso (length (loop_steps l') - 2)%nat).
      replace (S (length (loop_steps l') - 2)) with (length (loop_steps l') - 1)%nat in Hiso by lia.
      replace (S (length (loop_steps l') - 1)) with (length (loop_steps l')) in Hiso by lia.
      rewrite Hr0, Hr1, Hr2 in Hiso. discriminate. }
  destruct Hok as (Hrun & Hk).
  destruct (conclude_done env agentId task startedAt l' w' row Hrun Hrow' Hstore)
    as (wf & Hc & Hst & Hpers & Hptr).
  exists wf, (loop_steps l'). repeat split; assumption.
Qed.





(** *** The page observer *)

Lemma observe_inert (env : Env) (task : Task) (i : nat) (mem : WorkingMemory) :
  JS.orUndefined (url (payload task)) = None \/
  (forall get j, getPageState env = Some get -> exists e, get j = JS.Rejected e) ->
  observe env task i mem = inr mem.
Proof.
  unfold observe. intros [Hurl|Hdown].
  - destruct (url (payload task)) as [u|]; [|reflexivity].
    destruct (getPageState env); [|reflexivity].
    cbn in Hurl. destruct (JS.truthy u); [discriminate|reflexivity].
  - destruct (url (payload task)) as [u|]; [|reflexivity].
    destruct (getPageState env) as [get|] eqn:Hget; [|reflexivity].
    destruct (JS.truthy u); [|reflexivity].
    destruct (Hdown get i eq_refl) as (e & ->). reflexivity.
Qed.

Lemma observe_without (env : Env) (task : Task) (i : nat) (mem : WorkingMemory) :
  observe (withoutObserver env) task i mem = inr mem.
Proof. unfold observe. cbn. destruct (url (payload task)); reflexivity. Qed.

(** X28. The page observer is optional and its failures are not fatal:
    for a task without a URL (absent or empty), and for an observer that
    fails at every call, [executeTask] does exactly what it does with no
    observer configured. *)
Theorem failing_observer_is_ignored
    (env : Env) (agentId : string) (task : Task) (w : World) :
  JS.orUndefined (url (payload task)) = None \/
  (forall get j, getPageState env = Some get -> exists e, get j = JS.Rejected e) ->
  executeTask env agentId task w = executeTask (withoutObserver env) agentId task w.
Proof.
  intros Hinert.
  assert (Hbody : forall stepIdx item l w',
            stepBody env agentId task stepIdx item l w'
            = stepBody (withoutObserver env) agentId task stepIdx item l w').
  { intros stepIdx item l w'. unfold stepBody.
    rewrite (observe_inert env task stepIdx _ Hinert), observe_without. reflexivity. }
  assert (Hloop : forall rest stepIdx l w',
            stepLoop env agentId task rest stepIdx l w'
            = stepLoop (withoutObserver env) agentId task rest stepIdx l w').
  { induction rest as [|item rest IH]; intros stepIdx l w'; [reflexivity|].
    rewrite !stepLoop_cons, <- Hbody.
    change (runningAtStep (withoutObserver env) stepIdx) with (runningAtStep env stepIdx).
    destruct (negb (stepIdx <? MAX_STEPS_PER_RUN)%nat); [reflexivity|].
    destruct (negb (runningAtStep env stepIdx)); [reflexivity|].
    destruct (stepBody env agentId task stepIdx item l w') as [[l'|l'] w''|e w''];
      [reflexivity|apply IH|reflexivity]. }
  unfold executeTask, bind.
  change (prepare (withoutObserver env) agentId task w) with (prepare env agentId task w).
  destruct (prepare env agentId task w) as [[startedAt mem1] w1|e w1]; [|reflexivity].
  cbv zeta.
  change (buildPlan (withoutObserver env) task) with (buildPlan env task).
  rewrite <- Hloop.
  destruct (stepLoop env agentId task _ _ _ w1) as [l' w'|e w']; reflexivity.
Qed.

Lemma failing_observer_is_ignored_witness :
  executeTask observerDown "agent-A" likePost claimedWorld
  = executeTask (withoutObserver observerDown) "agent-A" likePost claimedWorld.
Proof.
  refine (failing_observer_is_ignored observerDown "agent-A" likePost claimedWorld _).
  right. intros get j [= <-]. eexists. reflexivity.
Defined.

End AgentRunnerLaws.

(** ** The run-once script's observer *)

Module RunOnceLaws.
Import Types TaskQueue Page AgentRunner RunnerNotions RunnerExamples RunNotions
       RunOnceExamples AgentRunnerFacts AgentRunnerLaws.

(** X29. The observer of the run-once script reports only alerts that
    block the runner (captcha and 2fa), at most one of each, no
    elements, and the page type "feed" exactly when the URL mentions
    x.com/home and it reports no alert, "login" otherwise. *)
Theorem script_observer_reports_blocking_alerts
    (list : list RunOnce.Tab) (snapshotRaw : option string) (url : string) :
  let ps := RunOnce.getPageState list snapshotRaw url in
  Forall (fun a => isBlocking a = true) (alerts ps) /\
  (length (filter (fun a => alert_type a = captcha) (alerts ps)) <= 1)%nat /\
  (length (filter (fun a => alert_type a = twoFA) (alerts ps)) <= 1)%nat /\
  elements ps = [] /\
  (page_type ps = "feed"%string <->
   JS.includes (JS.toLowerCase (ps_url ps)) "x.com/home" = true /\ alerts ps = []) /\
  (page_type ps = "feed"%string \/ page_type ps = "login"%string).
Proof.
  cbv zeta. unfold RunOnce.getPageState. cbn [alerts elements page_type ps_url].
  set (pageUrl := RunOnce.orElse _ url).
  set (snapshotText := JS.toLowerCase _).
  unfold RunOnce.detectAlerts.
  assert (Hb1 : isBlocking (mkAlert captcha "captcha detected") = true) by reflexivity.
  assert (Hb2 : isBlocking (mkAlert twoFA "login challenge detected") = true) by reflexivity.
  destruct (JS.includes snapshotText "captcha" || _ || _ || _);
    destruct (JS.includes snapshotText "log in" || _ || _ || _);
    cbn [app length Nat.eqb]; rewrite ?andb_false_r, ?andb_true_r.
  - split; [apply Forall_cons; split; [exact Hb1|apply Forall_cons; split; [exact Hb2|apply Forall_nil_2]]|].
    split; [vm_compute; lia|]. split; [vm_compute; lia|]. split; [reflexivity|].
    split; [split; [intros [=]|intros [_ [=]]]|right; reflexivity].
  - split; [apply Forall_cons; split; [exact Hb1|apply Forall_nil_2]|].
    split; [vm_compute; lia|]. split; [vm_compute; lia|]. split; [reflexivity|].
    split; [split; [intros [=]|intros [_ [=]]]|right; reflexivity].
  - split; [apply Forall_cons; split; [exact Hb2|apply Forall_nil_2]|].
    split; [vm_compute; lia|]. split; [vm_compute; lia|]. split; [reflexivity|].
    split; [split; [intros [=]|intros [_ [=]]]|right; reflexivity].
  - split; [apply Forall_nil_2|].
    split; [vm_compute; lia|]. split; [vm_compute; lia|]. split; [reflexivity|].
    destruct (JS.includes (JS.toLowerCase pageUrl) "x.com/home").
    + split; [split; [intros _; split; reflexivity|reflexivity]|left; reflexivity].
    + split; [split; [intros [=]|intros [[=] _]]|right; reflexivity].
Qed.


(** X30. With the observer of the run-once script, a snapshot whose
    text contains "captcha", "log in", "sign in", "phone, email, or
    username" or "enter your phone" (in any letter case) stops the task
    before its first step: [executeTask] returns with the task [paused],
    the reason naming captcha, 2fa or both, an empty run persisted and
    the current-task pointer cleared. *)
Theorem login_prompt_pauses_task
    (env : Env) (agentId : string) (task : Task) (w : World) (row : TaskRow)
    (found : list string) (u : string) (get : nat -> JS.Result PageState)
    (list : list RunOnce.Tab) (snapshotRaw : option string) (word : string)
    (item : option string) (rest : Datatypes.list (option string)) :
  tasks (db w) !! Types.id task = Some row ->
  episodicSearch env = JS.Resolved found ->
  runningAtStep env 0 = true ->
  buildPlan env task = item :: rest ->
  url (payload task) = Some u -> JS.truthy u = true ->
  getPageState env = Some get ->
  get 0%nat = JS.Resolved (RunOnce.getPageState list snapshotRaw u) ->
  In word ["captcha"; "log in"; "sign in"; "phone, email, or username";
           "enter your phone"]%string ->
  JS.includes (JS.toLowerCase (default EmptyString snapshotRaw)) word = true ->
  exists wf reason,
    executeTask env agentId task w = Returned tt wf /\
    statusOf task wf = Some (paused, Some reason) /\
    (reason = "Blocked by captcha"%string \/ reason = "Blocked by 2fa"%string \/
     reason = "Blocked by captcha, 2fa"%string) /\
    runPersisted env task [] wf /\
    pointsNowhere agentId wf.
Proof.
  intros Hrow Hsearch Hrunning Hplan Hurl Htruthy Hget Hget0 Hword Hinc.
  pose proof (world_after_prepare env agentId task w row Hrow) as Hprep.
  rewrite Hsearch in Hprep. destruct Hprep as (startedAt & mem1 & w1 & Hprep & Hrow1).
  assert (Hobs : forall mem, exists reason,
             observe env task 0 mem = inl reason /\
             (reason = "Blocked by captcha"%string \/ reason = "Blocked by 2fa"%string \/
              reason = "Blocked by captcha, 2fa"%string)).
  { intros mem. unfold observe. rewrite Hurl, Hget, Htruthy, Hget0.
    unfold RunOnce.getPageState. cbn [alerts]. unfold RunOnce.detectAlerts.
    set (text := JS.toLowerCase (default EmptyString snapshotRaw)) in *.
    set (b1 := JS.includes text "captcha" || _ || _ || _).
    set (b2 := JS.includes text "log in" || _ || _ || _).
    assert (Hb : b1 || b2 = true).
    { unfold b1, b2. cbn [In] in Hword.
      destruct Hword as [ <- | [ <- | [ <- | [ <- | [ <- | Hf ] ] ] ] ]; [| | | | |destruct Hf];
        rewrite Hinc; rewrite ?orb_true_r; reflexivity. }
    destruct b1, b2; try discriminate; eexists; (split; [vm_compute; reflexivity|]); tauto. }
  unfold executeTask, bind. rewrite Hprep. cbv zeta. cbn [fst snd]. rewrite Hplan.
  destruct (Hobs (setStepIndex 0 (memory (startLoop (item :: rest) mem1))))
    as (reason & Hobs0 & Hreason).
  rewrite (stepLoop_blocked env agentId task item rest 0 _ w1 reason
             ltac:(unfold MAX_STEPS_PER_RUN; lia) Hrunning Hobs0).
  destruct (conclude_paused env agentId task startedAt
              (blockedAt 0 reason (startLoop (item :: rest) mem1)) w1 reason row)
    as (wf & Hc & Hst & Hpers & Hptr).
  - cbn [blockedAt pauseReason].
    destruct Hreason as [ -> | [ -> | -> ] ]; reflexivity.
  - exact Hrow1.
  - exists wf, reason. split; [exact Hc|]. split; [exact Hst|]. split; [exact Hreason|].
    split; [exact Hpers|exact Hptr].
Qed.

Lemma login_prompt_pauses_task_witness :
  exists wf reason,
    executeTask loggedOut "agent-A" likePost claimedWorld = Returned tt wf /\
    statusOf likePost wf = Some (paused, Some reason) /\
    (reason = "Blocked by captcha"%string \/ reason = "Blocked by 2fa"%string \/
     reason = "Blocked by captcha, 2fa"%string) /\
    runPersisted loggedOut likePost [] wf /\
    pointsNowhere "agent-A" wf.
Proof.
  refine (login_prompt_pauses_task loggedOut "agent-A" likePost claimedWorld _ []
            "https://x.com/home" (fun _ => JS.Resolved loginWall)
            [RunOnce.mkTab (Some "tab-1"%string) (Some "https://x.com/i/flow/login"%string)
                           (Some "X"%string)]
            (Some "Heading: Happening now. Button: Sign in. Button: Create account"%string)
            "sign in" _ _
            ltac:(vm_compute; reflexivity) eq_refl eq_refl ltac:(vm_compute; reflexivity)
            eq_refl eq_refl eq_refl eq_refl _ _).
  - cbn. tauto.
  - vm_compute. reflexivity.
Defined.

End RunOnceLaws.
